(** * BiFPN: a shallow embedding of [src/bifpn.py]

    The development follows the source file class by class:
    [node_param] and [_NODE_PARAMS], then [CombineLevels], [BiFPNBlock]
    and [BiFPN], each with its [__init__] and [__call__].

    Modelling choices.
    - Python integers are [Z]; Python lists are [list]; a [dict] or
      [OrderedDict] is an association list in insertion order ([odict]).
    - A raised exception is a value of [exn]; fallible code returns
      [result].  ([DanglingReference] is not a Python exception: it marks
      a reference outside the heap, which no Python program can hold.)
    - The [OrderedDict] objects that [__call__] mutates in place live in a
      [heap] and are passed by reference ([loc]); the code that mutates
      them runs in the state-and-exception monad [M].
    - A feature map is a [Tensor]: its shape (channels, height, width; the
      batch dimension is left implicit, as in the specification) and its
      elements, idealised as rationals.  The shape rules of the torch
      layers are written out; their arithmetic on the elements is a
      parameter of the development ([Torch]), except for the weighted
      sum of [CombineLevels.__call__], which is computed.
    - Modules are evaluated as the constructor leaves them, in training
      mode (the source never calls [eval()]): batch normalisation refuses
      an input with a single value per channel, which depends on the size
      of the implicit batch dimension ([batch_size]).
    - A convolution built for zero input or output channels is accepted
      by the constructor of torch, but torch has no uniform rule for what
      applying it gives; its outcome is left to the engine
      ([degenerate]).
    - The heap holds the mappings that are passed between methods.  The
      mapping [nodes] that [CombineLevels.__call__] fills and drops is a
      value of the model, so a heap address identifies an object, and
      the length of the heap is not a count of the objects created.
    - Rounding of floating-point numbers is not modelled.  A statement
      about the value of an element holds of the code as long as no
      intermediate result leaves the range of the floating-point format;
      where that matters the statement says so ([no_overflow]). *)

From Stdlib Require Import ZArith QArith Qabs List Lia Lqa Bool.
From stdpp Require Import base list.

Local Open Scope Z_scope.

(** ** Python values *)

Inductive exn : Type :=
| AttributeError
| KeyError (key : Z)
| IndexError
| StopIteration
| ValueError
| RuntimeError
| DanglingReference.

Inductive result (A : Type) : Type :=
| Ok (a : A)
| Raise (e : exn).

Arguments Ok {A} a.
Arguments Raise {A} e.

Definition rbind {A B : Type} (r : result A) (k : A -> result B) : result B :=
  match r with
  | Ok a => k a
  | Raise e => Raise e
  end.

Declare Scope result_scope.
Delimit Scope result_scope with result.
Notation "x <- c ;; k" := (rbind c (fun x => k))
  (at level 100, c at next level, right associativity) : result_scope.

Definition raises {A : Type} (r : result A) : Prop :=
  match r with
  | Ok _ => False
  | Raise _ => True
  end.

(** [len(l)] *)
Definition len {A : Type} (l : list A) : Z := Z.of_nat (length l).

(** [l[i]], with Python's negative indices. *)
Definition py_index {A : Type} (l : list A) (i : Z) : result A :=
  let j := if i <? 0 then len l + i else i in
  if j <? 0 then Raise IndexError
  else match l !! Z.to_nat j with
       | Some a => Ok a
       | None => Raise IndexError
       end.

(** [l[start:]] *)
Definition py_slice_from {A : Type} (l : list A) (start : Z) : list A :=
  let s := if start <? 0 then Z.max 0 (len l + start) else Z.min start (len l) in
  drop (Z.to_nat s) l.

(** [[x] * n] *)
Definition py_repeat {A : Type} (x : A) (n : Z) : list A :=
  replicate (Z.to_nat n) x.

(** [range(n)] *)
Definition py_range (n : Z) : list Z :=
  map Z.of_nat (seq 0 (Z.to_nat n)).

(** [enumerate(l)] *)
Definition enumerate {A : Type} (l : list A) : list (Z * A) :=
  zip (py_range (len l)) l.

(** [max(l)] *)
Definition py_max (l : list Z) : result Z :=
  match l with
  | [] => Raise ValueError
  | x :: l' => Ok (fold_left Z.max l' x)
  end.

(** [x in l] *)
Definition py_in (x : Z) (l : list Z) : bool :=
  existsb (Z.eqb x) l.

Fixpoint mapM {A B : Type} (f : A -> result B) (l : list A) : result (list B) :=
  match l with
  | [] => Ok []
  | a :: l' =>
      (b <- f a ;;
       bs <- mapM f l' ;;
       Ok (b :: bs))%result
  end.

Fixpoint foldM {A S : Type} (f : S -> A -> result S) (l : list A) (s : S) : result S :=
  match l with
  | [] => Ok s
  | a :: l' => (s' <- f s a ;; foldM f l' s')%result
  end.

(** ** Insertion-ordered dictionaries *)

Abbreviation odict V := (list (Z * V)) (only parsing).

Fixpoint od_get {V : Type} (d : odict V) (k : Z) : option V :=
  match d with
  | [] => None
  | (k', v) :: d' => if k' =? k then Some v else od_get d' k
  end.

(** [d[k] = v]: an existing key keeps its position, a new key goes last. *)
Fixpoint od_set {V : Type} (d : odict V) (k : Z) (v : V) : odict V :=
  match d with
  | [] => [(k, v)]
  | (k', v') :: d' => if k' =? k then (k', v) :: d' else (k', v') :: od_set d' k v
  end.

Definition od_keys {V : Type} (d : odict V) : list Z := map fst d.

Definition od_values {V : Type} (d : odict V) : list V := map snd d.

(** [d[k]] *)
Definition od_item {V : Type} (d : odict V) (k : Z) : result V :=
  match od_get d k with
  | Some v => Ok v
  | None => Raise (KeyError k)
  end.

(** [next(iter(d.keys()))] *)
Definition od_first_key {V : Type} (d : odict V) : result Z :=
  match d with
  | [] => Raise StopIteration
  | (k, _) :: _ => Ok k
  end.

(** [next(reversed(d.items()))] *)
Definition od_last_item {V : Type} (d : odict V) : result (Z * V) :=
  match last d with
  | Some kv => Ok kv
  | None => Raise StopIteration
  end.

(** ** Tensors and the torch layers the source uses *)

Record Tensor : Type := mkTensor {
  channels : Z;
  height : Z;
  width : Z;
  data : list Q
}.

Definition shape (t : Tensor) : Z * Z * Z := (channels t, height t, width t).

Definition same_shape (t1 t2 : Tensor) : bool :=
  (channels t1 =? channels t2) && (height t1 =? height t2) && (width t1 =? width t2).

(** A layer with its hyper-parameters and its learned parameters. *)
#[warnings="-register-all"]
Inductive Layer : Type :=
| Conv2d (in_channels out_channels kernel_size padding groups : Z)
         (weight : list Q) (bias : option (list Q))
| MaxPool2d (kernel_size padding stride : Z)
| UpsamplingNearest2d (scale_factor : Z)
| BatchNorm2d (num_features : Z) (momentum eps : Q)
              (weight bias running_mean running_var : list Q)
| Swish
| Sequential (children : list Layer).

(** The tensor engine: what a primitive layer does to the elements of a
    feature map, the values a freshly allocated parameter of a given
    shape starts with, what a convolution built for zero input or output
    channels gives ([None] when it raises), and the size of the batch
    dimension of the feature maps.  All are outside the repository. *)
Class Torch : Type := {
  kernel : Layer -> Tensor -> list Q;
  reset_parameters : list Z -> list Q;
  degenerate : Layer -> Tensor -> option Tensor;
  batch_size : positive
}.

(** Output size of a sliding window (convolution or pooling, dilation 1,
    floor rounding). *)
Definition window_out (n kernel_size padding stride : Z) : Z :=
  (n + 2 * padding - kernel_size) / stride + 1.

Section Layers.
Context `{Torch}.

(** [torch.nn.Conv2d(in_channels, out_channels, kernel_size, padding,
    groups, bias)] *)
Definition nn_Conv2d (in_channels out_channels kernel_size padding groups : Z)
           (bias : bool) : result Layer :=
  if groups <=? 0 then Raise ValueError
  else if negb (in_channels mod groups =? 0) then Raise ValueError
  else if negb (out_channels mod groups =? 0) then Raise ValueError
  else if (in_channels <? 0) || (out_channels <? 0) then Raise RuntimeError
  else Ok (Conv2d in_channels out_channels kernel_size padding groups
             (reset_parameters
                [out_channels; in_channels / groups; kernel_size; kernel_size])
             (if bias then Some (reset_parameters [out_channels]) else None)).

(** [torch.nn.BatchNorm2d(num_features, momentum, eps)] *)
Definition nn_BatchNorm2d (num_features : Z) (momentum eps : Q) : result Layer :=
  if num_features <? 0 then Raise RuntimeError
  else
    let n := Z.to_nat num_features in
    Ok (BatchNorm2d num_features momentum eps
          (replicate n 1%Q) (replicate n 0%Q) (replicate n 0%Q) (replicate n 1%Q)).

(** Modelled from the spec: [efficientnet.Swish] is not under [src/].  The
    specification describes the activation as an element-wise "smooth
    self-gated nonlinearity, e.g. x * sigmoid(x)": it keeps the shape of
    its input, and its arithmetic is left to the tensor engine. *)
Definition swish_forward (t : Tensor) : result Tensor :=
  Ok (mkTensor (channels t) (height t) (width t) (kernel Swish t)).

(** One primitive layer applied to a feature map.  A convolution checks
    the channels of its input first; one built for zero input or output
    channels is then left to the engine.  Batch normalisation is in
    training mode: [_verify_batch_size] raises [ValueError] when the batch
    holds a single value per channel, before anything else is checked. *)
Definition forward_primitive (l : Layer) (t : Tensor) : result Tensor :=
  match l with
  | Conv2d cin cout k p _ _ _ =>
      let h := window_out (height t) k p 1 in
      let w := window_out (width t) k p 1 in
      if negb (channels t =? cin) then Raise RuntimeError
      else if (cin =? 0) || (cout =? 0) then
        match degenerate l t with
        | Some y => Ok y
        | None => Raise RuntimeError
        end
      else if (h <=? 0) || (w <=? 0) then Raise RuntimeError
      else Ok (mkTensor cout h w (kernel l t))
  | MaxPool2d k p s =>
      let h := window_out (height t) k p s in
      let w := window_out (width t) k p s in
      if (h <=? 0) || (w <=? 0) then Raise RuntimeError
      else Ok (mkTensor (channels t) h w (kernel l t))
  | UpsamplingNearest2d sf =>
      Ok (mkTensor (channels t) (height t * sf) (width t * sf) (kernel l t))
  | BatchNorm2d nf _ _ _ _ _ _ =>
      if Z.pos batch_size * height t * width t =? 1 then Raise ValueError
      else if negb (channels t =? nf) then Raise RuntimeError
      else Ok (mkTensor (channels t) (height t) (width t) (kernel l t))
  | Swish => swish_forward t
  | Sequential _ => Ok t
  end.

(** [layer(t)]; a [Sequential] feeds each child the output of the
    previous one. *)
Fixpoint forward (l : Layer) (t : Tensor) : result Tensor :=
  match l with
  | Sequential children =>
      (fix chain (ls : list Layer) (t : Tensor) : result Tensor :=
         match ls with
         | [] => Ok t
         | l' :: ls' => (t' <- forward l' t ;; chain ls' t')%result
         end) children t
  | _ => forward_primitive l t
  end.

(** [t * s] and [t / s] for a scalar [s]. *)
Definition tensor_mul (t : Tensor) (s : Q) : Tensor :=
  mkTensor (channels t) (height t) (width t) (map (fun v => v * s)%Q (data t)).

Definition tensor_div (t : Tensor) (s : Q) : Tensor :=
  mkTensor (channels t) (height t) (width t) (map (fun v => v / s)%Q (data t)).

(** [torch.sum(torch.stack(ts, dim=-1), dim=-1)]: the tensors must have
    one shape; the result adds them element by element. *)
Definition stack_sum (ts : list Tensor) : result Tensor :=
  match ts with
  | [] => Raise RuntimeError
  | t :: ts' =>
      if forallb (same_shape t) ts'
      then Ok (mkTensor (channels t) (height t) (width t)
                 (fold_left (zip_with Qplus) (map data ts') (data t)))
      else Raise RuntimeError
  end.

(** [torch.nn.functional.relu] on one element. *)
Definition relu (w : Q) : Q := if Qle_bool w 0 then 0%Q else w.

(** [torch.sum] of a vector. *)
Definition Qsum (ws : list Q) : Q := fold_right Qplus 0%Q ws.

End Layers.

(** ** The fusion topology *)

Record node_param : Type := mk_node_param {
  feat_level : Z;
  np_offsets : list Z;
  np_upsample : bool
}.

Definition _NODE_PARAMS : list node_param :=
  [ mk_node_param 6 [3; 4] true;
    mk_node_param 5 [2; 5] true;
    mk_node_param 4 [1; 6] true;
    mk_node_param 3 [0; 7] true;
    mk_node_param 4 [1; 7; 8] false;
    mk_node_param 5 [2; 6; 9] false;
    mk_node_param 6 [3; 5; 10] false;
    mk_node_param 7 [4; 11] false ].

(** ** The two convolution helpers *)

Section Helpers.
Context `{Torch}.

(** [depthwise(in_channels, out_channels)] (source lines 30-42) *)
Definition depthwise (in_channels out_channels : Z) : result (list Layer) :=
  (dw <- nn_Conv2d in_channels in_channels 3 1 in_channels false ;;
   pw <- nn_Conv2d in_channels out_channels 1 0 1 true ;;
   Ok [dw; pw])%result.

(** [conv3x3(in_channels, out_channels)] (source lines 45-49) *)
Definition conv3x3 (in_channels out_channels : Z) : result (list Layer) :=
  (conv <- nn_Conv2d in_channels out_channels 3 1 1 true ;;
   Ok [conv])%result.

End Helpers.

(** ** class CombineLevels *)

Module CombineLevels.

Record t : Type := mk {
  eps : Q;
  upsample : bool;
  offsets : list Z;
  levels_in : odict Z;
  lateral_node : option Z;
  lateral_conv : option Layer;
  resample : Layer;
  weights : list Q
}.

Section Methods.
Context `{Torch}.

(** One turn of the loop that looks for a lateral convolution
    (source lines 239-242). *)
Definition lateral_step (levels_in : odict Z) (channels : Z)
           (st : option Z * option Layer) (offset : Z)
  : result (option Z * option Layer) :=
  match od_get levels_in offset with
  | Some c =>
      if negb (c =? channels)
      then (conv <- nn_Conv2d c channels 1 0 1 true ;;
            Ok (Some offset, Some conv))%result
      else Ok st
  | None => Ok st
  end.

Definition __init__ (param : node_param) (index_offset channels : Z)
           (levels_in : odict Z) : result t :=
  let offsets := map (fun offset => index_offset + offset) (np_offsets param) in
  (lat <- foldM (lateral_step levels_in channels) offsets (None, None) ;;
   let resample :=
     if np_upsample param
     then UpsamplingNearest2d 2
     else Sequential [MaxPool2d 3 1 2] in
   Ok (mk (1 # 10000) (np_upsample param) offsets levels_in
          (fst lat) (snd lat) resample
          (replicate (length offsets) 1%Q)))%result.

(** One turn of the loop over the keys of [x] (source lines 263-270). *)
Definition gather_step (self : t) (x : odict Tensor)
           (nodes : odict Tensor) (node : Z) : result (odict Tensor) :=
  if match lateral_node self with
     | Some l => node =? l
     | None => false
     end
  then
    (conv <- match lateral_conv self with
             | Some conv => Ok conv
             | None => Raise AttributeError
             end ;;
     xn <- od_item x node ;;
     y <- forward conv xn ;;
     Ok (od_set nodes node y))%result
  else if py_in node (offsets self)
  then
    (m <- py_max (offsets self) ;;
     if negb (node =? m)
     then (xn <- od_item x node ;; Ok (od_set nodes node xn))
     else Ok nodes)%result
  else Ok nodes.

(** Source lines 262-272: the inputs of the node, the one with the
    largest offset resampled. *)
Definition gather_nodes (self : t) (x : odict Tensor) : result (odict Tensor) :=
  (nodes <- foldM (gather_step self x) (od_keys x) [] ;;
   m <- py_max (offsets self) ;;
   xm <- od_item x m ;;
   y <- forward (resample self) xm ;;
   Ok (od_set nodes m y))%result.

(** The normalisation denominator [torch.sum(weights + self.eps)]. *)
Definition denominator (self : t) : Q :=
  Qsum (map (fun w => w + eps self)%Q (map relu (weights self))).

(** One element of the list comprehension of source lines 277-280. *)
Definition weighted_term (self : t) (nodes : odict Tensor)
           (io : Z * Z) : result Tensor :=
  (n <- od_item nodes (snd io) ;;
   w <- py_index (map relu (weights self)) (fst io) ;;
   Ok (tensor_div (tensor_mul n w) (denominator self)))%result.

(** Source lines 275-284. *)
Definition combine_nodes (self : t) (nodes : odict Tensor) : result Tensor :=
  (terms <- mapM (weighted_term self nodes) (enumerate (offsets self)) ;;
   stack_sum terms)%result.

Definition __call__ (self : t) (x : odict Tensor) : result Tensor :=
  (nodes <- gather_nodes self x ;;
   combine_nodes self nodes)%result.

End Methods.

End CombineLevels.


(** ** The heap of mutable [OrderedDict] objects *)

Abbreviation loc := nat (only parsing).

Abbreviation heap := (list (odict Tensor)) (only parsing).

Inductive outcome (A : Type) : Type :=
| Return (a : A) (s : heap)
| Throw (e : exn) (s : heap).

Arguments Return {A} a s.
Arguments Throw {A} e s.

Definition M (A : Type) : Type := heap -> outcome A.

Definition ret {A : Type} (a : A) : M A := fun s => Return a s.

Definition throw {A : Type} (e : exn) : M A := fun s => Throw e s.

Definition bind {A B : Type} (m : M A) (k : A -> M B) : M B :=
  fun s =>
    match m s with
    | Return a s' => k a s'
    | Throw e s' => Throw e s'
    end.

Declare Scope heap_scope.
Delimit Scope heap_scope with heap.
Notation "x <- c ;; k" := (bind c (fun x => k))
  (at level 100, c at next level, right associativity) : heap_scope.
Notation "c ;;; k" := (bind c (fun _ => k))
  (at level 100, k at level 200, right associativity) : heap_scope.

(** A computation that does not touch the heap. *)
Definition lift {A : Type} (r : result A) : M A :=
  match r with
  | Ok a => ret a
  | Raise e => throw e
  end.

(** Reading the object behind a reference. *)
Definition load (l : loc) : M (odict Tensor) :=
  fun s =>
    match s !! l with
    | Some d => Return d s
    | None => Throw DanglingReference s
    end.

(** Overwriting the object behind a reference, in place. *)
Definition store (l : loc) (d : odict Tensor) : M unit :=
  fun s =>
    match s !! l with
    | Some _ => Return tt (<[l := d]> s)
    | None => Throw DanglingReference s
    end.

(** A new object. *)
Definition alloc (d : odict Tensor) : M loc :=
  fun s => Return (length s) (s ++ [d]).

Fixpoint for_each {A : Type} (body : A -> M unit) (l : list A) : M unit :=
  match l with
  | [] => ret tt
  | a :: l' => (body a ;;; for_each body l')%heap
  end.

(** [Module.add_module(name, module)] on a container: a name already in
    use keeps its place and gets the new module. *)
Fixpoint add_module {K V : Type} `{EqDecision K}
         (children : list (K * V)) (name : K) (module : V) : list (K * V) :=
  match children with
  | [] => [(name, module)]
  | (n, m) :: rest =>
      if decide (n = name) then (n, module) :: rest
      else (n, m) :: add_module rest name module
  end.

(** ** class BiFPNBlock *)

Module BiFPNBlock.

Record t : Type := mk {
  num_levels : Z;
  combines : list (list Z * CombineLevels.t);
  post_combines : list (list Z * Layer);
  index_offset : Z
}.

Section Methods.
Context `{Torch}.

(** The output convolution of one node (source lines 174-191): depthwise
    and pointwise convolution, batch normalisation, activation. *)
Definition post_combine (channels : Z) : result Layer :=
  (dw <- nn_Conv2d channels channels 3 1 channels false ;;
   pw <- nn_Conv2d channels channels 1 0 1 true ;;
   bn <- nn_BatchNorm2d channels (1 # 100) (1 # 1000) ;;
   Ok (Sequential [dw; pw; bn; Swish]))%result.

(** One turn of the loop over [_NODE_PARAMS] (source lines 163-192); the
    modules are registered under names made from [node.offsets]. *)
Definition init_step (index_offset channels : Z) (channels_in : odict Z)
           (st : list (list Z * CombineLevels.t) * list (list Z * Layer))
           (node : node_param)
  : result (list (list Z * CombineLevels.t) * list (list Z * Layer)) :=
  (combine <- CombineLevels.__init__ node index_offset channels channels_in ;;
   post <- post_combine channels ;;
   Ok (add_module (fst st) (np_offsets node) combine,
       add_module (snd st) (np_offsets node) post))%result.

Definition __init__ (channels num_levels : Z) (channels_in : odict Z) : result t :=
  let index_offset := num_levels - len channels_in + 1 in
  (st <- foldM (init_step index_offset channels channels_in) _NODE_PARAMS ([], []) ;;
   Ok (mk num_levels (fst st) (snd st) index_offset))%result.

(** One turn of the loop of source lines 203-205. *)
Definition node_step (input_maps : loc)
           (cp : CombineLevels.t * Layer) : M unit :=
  (d <- load input_maps ;;
   last <- lift (od_last_item d) ;;
   y <- lift (CombineLevels.__call__ (fst cp) d) ;;
   z <- lift (forward (snd cp) y) ;;
   store input_maps (od_set d (fst last + 1) z))%heap.

(** One turn of the loop of source lines 209-213. *)
Definition retval_step (n num_levels level_id_offset : Z)
           (retval : odict Tensor) (il : Z * Tensor) : odict Tensor :=
  if fst il <? n - num_levels then retval
  else od_set retval (len retval + level_id_offset) (snd il).

Definition __call__ (self : t) (input_maps : loc) : M loc :=
  (d0 <- load input_maps ;;
   level_id_offset <- lift (od_first_key d0) ;;
   for_each (node_step input_maps)
            (zip (map snd (combines self)) (map snd (post_combines self))) ;;;
   d <- load input_maps ;;
   alloc (fold_left (retval_step (len d) (num_levels self) level_id_offset)
                    (enumerate (od_values d)) []))%heap.

End Methods.

End BiFPNBlock.

(** ** class BiFPN *)

Module BiFPN.

Record t : Type := mk {
  levels_in : list Z;
  bifpn_height : Z;
  in_channels : list Z;
  downsample_convs : option (list Layer);
  bifp_layers : list (Z * BiFPNBlock.t)
}.

Section Methods.
Context `{Torch}.

(** Source lines 81-96; [None] stands for an attribute that was never
    assigned. *)
Definition init_downsample_convs (in_channels : list Z)
           (out_channels bifpn_height : Z) (levels : list Z)
  : result (option (list Layer)) :=
  if negb (bifpn_height =? len levels)
  then
    (c <- py_index in_channels (-1) ;;
     conv <- nn_Conv2d c out_channels 1 0 1 true ;;
     Ok (Some (Sequential [conv; MaxPool2d 3 1 2]
                 :: map (fun _ => MaxPool2d 3 1 2)
                        (py_range (bifpn_height - len levels - 1)))))%result
  else Ok None.

(** The dictionary comprehension of source line 109. *)
Definition init_channel_dict (level_channels levels : list Z) : result (odict Z) :=
  foldM (fun d il => (c <- py_index level_channels (fst il) ;;
                      Ok (od_set d (snd il) c))%result)
        (enumerate levels) [].

(** One turn of the loop of source lines 111-121. *)
Definition init_step (out_channels bifpn_height : Z) (levels : list Z)
           (channel_dict : odict Z)
           (layers : list (Z * BiFPNBlock.t)) (idx : Z)
  : result (list (Z * BiFPNBlock.t)) :=
  let channels_in :=
    if negb (idx =? 0)
    then fold_left (fun d level => od_set d level out_channels) levels []
    else channel_dict in
  (block <- BiFPNBlock.__init__ out_channels bifpn_height channels_in ;;
   Ok (add_module layers idx block))%result.

Definition __init__ (in_channels : list Z) (out_channels num_bifpns bifpn_height : Z)
           (levels : list Z) : result t :=
  (downsample_convs <-
     init_downsample_convs in_channels out_channels bifpn_height levels ;;
   let level_channels :=
     py_slice_from in_channels (- len levels)
       ++ py_repeat out_channels (bifpn_height - len levels) in
   channel_dict <- init_channel_dict level_channels levels ;;
   bifp_layers <-
     foldM (init_step out_channels bifpn_height levels channel_dict)
           (py_range num_bifpns) [] ;;
   Ok (mk levels bifpn_height in_channels downsample_convs bifp_layers))%result.

(** One turn of the loop of source lines 132-136. *)
Definition downsample_step (feature_maps : loc) (layer : Layer) : M unit :=
  (d <- load feature_maps ;;
   top <- lift (od_last_item d) ;;
   y <- lift (forward layer (snd top)) ;;
   store feature_maps (od_set d (fst top + 1) y))%heap.

(** [self.bifp_layers(x)]: each block receives the object the previous
    one returned; with no block the argument itself comes back. *)
Fixpoint run_blocks (blocks : list BiFPNBlock.t) (x : loc) : M loc :=
  match blocks with
  | [] => ret x
  | b :: blocks' => (y <- BiFPNBlock.__call__ b x ;; run_blocks blocks' y)%heap
  end.

Definition __call__ (self : t) (feature_maps : loc) : M loc :=
  (layers <- match downsample_convs self with
             | Some layers => ret layers
             | None => throw AttributeError
             end ;;
   for_each (downsample_step feature_maps) layers ;;;
   run_blocks (map snd (bifp_layers self)) feature_maps)%heap.

End Methods.

End BiFPN.

(** ** What a call does to the contents of the mappings

    The methods above work on references.  The functions below compute,
    from the contents of the argument alone, the contents the argument
    holds afterwards and what is returned; the lemmas of the next part
    show that the methods agree with them in every heap. *)

Section Contents.
Context `{Torch}.

(** A loop whose body replaces the contents of one object: the contents
    when the loop ends, and the exception that ended it, if any. *)
Fixpoint loop_pure {A : Type} (body : A -> odict Tensor -> result (odict Tensor))
         (l : list A) (d : odict Tensor) : odict Tensor * option exn :=
  match l with
  | [] => (d, None)
  | a :: l' =>
      match body a d with
      | Ok d' => loop_pure body l' d'
      | Raise e => (d, Some e)
      end
  end.

Definition downsample_pure (layer : Layer) (d : odict Tensor) : result (odict Tensor) :=
  (top <- od_last_item d ;;
   y <- forward layer (snd top) ;;
   Ok (od_set d (fst top + 1) y))%result.

Definition node_pure (cp : CombineLevels.t * Layer) (d : odict Tensor)
  : result (odict Tensor) :=
  (last <- od_last_item d ;;
   y <- CombineLevels.__call__ (fst cp) d ;;
   z <- forward (snd cp) y ;;
   Ok (od_set d (fst last + 1) z))%result.

Definition retval_of (num_levels level_id_offset : Z) (d : odict Tensor) : odict Tensor :=
  fold_left (BiFPNBlock.retval_step (len d) num_levels level_id_offset)
            (enumerate (od_values d)) [].

(** One block: the contents of its argument afterwards, and the contents
    of the mapping it returns. *)
Definition block_pure (self : BiFPNBlock.t) (d0 : odict Tensor)
  : odict Tensor * result (odict Tensor) :=
  match od_first_key d0 with
  | Raise e => (d0, Raise e)
  | Ok level_id_offset =>
      match loop_pure node_pure
              (zip (map snd (BiFPNBlock.combines self))
                   (map snd (BiFPNBlock.post_combines self))) d0 with
      | (d, Some e) => (d, Raise e)
      | (d, None) => (d, Ok (retval_of (BiFPNBlock.num_levels self) level_id_offset d))
      end
  end.

(** A chain of blocks: the contents of the first argument afterwards, and
    the contents of what the last block returns. *)
Fixpoint blocks_pure (blocks : list BiFPNBlock.t) (d : odict Tensor)
  : odict Tensor * result (odict Tensor) :=
  match blocks with
  | [] => (d, Ok d)
  | b :: blocks' =>
      match block_pure b d with
      | (d1, Ok out) => (d1, snd (blocks_pure blocks' out))
      | (d1, Raise e) => (d1, Raise e)
      end
  end.

Definition call_pure (self : BiFPN.t) (d : odict Tensor)
  : odict Tensor * result (odict Tensor) :=
  match BiFPN.downsample_convs self with
  | None => (d, Raise AttributeError)
  | Some layers =>
      match loop_pure downsample_pure layers d with
      | (d1, Some e) => (d1, Raise e)
      | (d1, None) => blocks_pure (map snd (BiFPN.bifp_layers self)) d1
      end
  end.

(** Where an entry gathered by the loop of [CombineLevels.__call__] comes
    from: the lateral convolution of the raw entry, or the raw entry. *)
Definition gathered_from (self : CombineLevels.t) (x : odict Tensor)
           (k : Z) (v : Tensor) : Prop :=
  (CombineLevels.lateral_node self = Some k /\
   exists conv xk, CombineLevels.lateral_conv self = Some conv /\
                   od_get x k = Some xk /\ forward conv xk = Ok v)
  \/
  (CombineLevels.lateral_node self <> Some k /\
   py_in k (CombineLevels.offsets self) = true /\
   py_max (CombineLevels.offsets self) <> Ok k /\
   od_get x k = Some v).

End Contents.

(** Keys in strictly ascending order, as a forward call expects them. *)
Fixpoint is_ascending (ks : list Z) : bool :=
  match ks with
  | [] => true
  | k :: ks' =>
      match ks' with
      | [] => true
      | k' :: _ => (k <? k') && is_ascending ks'
      end
  end.

(** The key and the shape of every entry of a mapping. *)
Definition shapes (d : odict Tensor) : list (Z * (Z * Z * Z)) :=
  map (fun kt => (fst kt, shape (snd kt))) d.

(** A tensor engine to run examples with: it leaves every element list
    empty, refuses degenerate convolutions and works on single images. *)
Definition null_torch : Torch :=
  {| kernel := fun _ _ => []; reset_parameters := fun _ => [];
     degenerate := fun _ _ => None; batch_size := 1%positive |}.


(** What a heap looks like after a call on the object at [l]: the object
    now holds [d'], and nothing else that was there before has changed. *)
Definition updated (l : loc) (d' : odict Tensor) (s s' : heap) : Prop :=
  s' !! l = Some d' /\
  (length s <= length s')%nat /\
  forall l', (l' < length s)%nat -> l' <> l -> s' !! l' = s !! l'.

(** The entries of [extra] are keyed by the integers that follow the last
    key of [d], one after the other; nothing follows an empty mapping. *)
Definition appended_after (d extra : odict Tensor) : Prop :=
  match od_last_item d with
  | Ok last => od_keys extra = map (fun i => fst last + 1 + i) (py_range (len extra))
  | Raise _ => extra = []
  end.

(** ** Configurations and inputs used in the examples *)

(** A model, or an empty one if construction raised. *)
Definition built (r : result BiFPN.t) : BiFPN.t :=
  match r with
  | Ok m => m
  | Raise _ => BiFPN.mk [] 0 [] None []
  end.

(** A feature map of a given shape whose elements are left out. *)
Definition blank (c h w : Z) : Tensor := mkTensor c h w [].

(** The scenario of the specification: levels 3 to 5 of a backbone, a
    pyramid of height 5, one block. *)
Definition bifpn_345 : BiFPN.t :=
  Eval vm_compute in built (@BiFPN.__init__ null_torch [40; 80; 160] 64 1 5 [3; 4; 5]).

Definition input_345 : odict Tensor :=
  [(3, blank 40 64 64); (4, blank 80 32 32); (5, blank 160 16 16)].

(** A backbone that already supplies all five levels, every one at the
    width of the pyramid. *)
Definition bifpn_12345 : BiFPN.t :=
  Eval vm_compute in
    built (@BiFPN.__init__ null_torch [64; 64; 64; 64; 64] 64 1 5 [1; 2; 3; 4; 5]).

Definition input_12345 : odict Tensor :=
  [(1, blank 64 64 64); (2, blank 64 32 32); (3, blank 64 16 16);
   (4, blank 64 8 8); (5, blank 64 4 4)].

(** A node, or an empty one if construction raised. *)
Definition built_node (r : result CombineLevels.t) : CombineLevels.t :=
  match r with
  | Ok c => c
  | Raise _ => CombineLevels.mk 0 false [] [] None None (Sequential []) []
  end.

(** The first node of [_NODE_PARAMS] with [index_offset] 1 over levels 3
    to 5: its offsets are 4 and 5, and the lateral convolution it chooses
    is the one of level 5, its largest offset. *)
Definition combine_45 : CombineLevels.t :=
  Eval vm_compute in
    built_node (@CombineLevels.__init__ null_torch (mk_node_param 6 [3; 4] true) 1 64
                  [(3, 40); (4, 80); (5, 160)]).

(** ** The weighted sum, as a formula *)

(** The weight an input ends up with: [relu(w) / sum(relu(weights) + eps)]. *)
Definition effective_weights (self : CombineLevels.t) : list Q :=
  map (fun w => relu w / CombineLevels.denominator self)%Q (CombineLevels.weights self).

(** The same node with another epsilon. *)
Definition with_eps (self : CombineLevels.t) (e : Q) : CombineLevels.t :=
  CombineLevels.mk e (CombineLevels.upsample self) (CombineLevels.offsets self)
    (CombineLevels.levels_in self) (CombineLevels.lateral_node self)
    (CombineLevels.lateral_conv self) (CombineLevels.resample self)
    (CombineLevels.weights self).

(** The weighted sum at one element, for raw weights [ws] and the
    elements [xs] of the inputs at that position, with [e] added once to
    the sum of the rectified weights: the formula the specification gives. *)
Definition single_epsilon_output (e : Q) (ws xs : list Q) : Q :=
  (Qsum (zip_with (fun w x => relu w * x) ws xs) / (Qsum (map relu ws) + e))%Q.

(** The weighted sum at one element with [e] added to every rectified
    weight before they are summed. *)
Definition fused_output (e : Q) (ws xs : list Q) : Q :=
  (Qsum (zip_with (fun w x => relu w * x) ws xs)
   / (Qsum (map relu ws) + inject_Z (len ws) * e))%Q.

(** The largest finite number of the single-precision format that the
    tensors of the source hold. *)
Definition float32_max : Q := inject_Z 340282346638528859811704183484516925440.

Definition representable (v : Q) : Prop := (Qabs v <= float32_max)%Q.

(** No intermediate result of the weighted sum at one position leaves the
    range of the format: the sum of the rectified weights with [e] added
    to each (its partial sums are smaller), every product of an element
    and its rectified weight, and the sum of the quotients; the quotients
    are summed in absolute value, which bounds each of them and their
    partial sums in whatever order they are added. *)
Definition no_overflow (e : Q) (ws xs : list Q) : Prop :=
  let d := Qsum (map (fun w => relu w + e)%Q ws) in
  representable d /\
  Forall (fun wx => representable (relu (fst wx) * snd wx)) (zip ws xs) /\
  representable (Qsum (map (fun wx => Qabs (relu (fst wx) * snd wx / d)) (zip ws xs))).

(** The elements of a list of feature maps at position [p]. *)
Definition elements_at (p : nat) (ts : list Tensor) : list Q :=
  map (fun t => nth p (data t) 0%Q) ts.

(** The inputs of a node all have the shape and the size of the first. *)
Definition uniform (ts : list Tensor) : bool :=
  match ts with
  | [] => false
  | t :: ts' =>
      forallb (fun t' => same_shape t t' && (length (data t') =? length (data t))%nat) ts'
  end.

(** A node with two inputs, both of weight 1. *)
Definition combine_01 : CombineLevels.t :=
  CombineLevels.mk (1 # 10000) true [0; 1] [] None None (UpsamplingNearest2d 2) [1%Q; 1%Q].

(** The same node after training has driven both weights below zero. *)
Definition combine_01_neg : CombineLevels.t :=
  CombineLevels.mk (1 # 10000) true [0; 1] [] None None (UpsamplingNearest2d 2)
    [(-1)%Q; (-2 # 3)%Q].

(** One element of the list comprehension of [CombineLevels.__call__]:
    an input scaled by its rectified weight over the denominator. *)
Definition term_of (self : CombineLevels.t) (t : Tensor) (w : Q) : Tensor :=
  tensor_div (tensor_mul t (relu w)) (CombineLevels.denominator self).

Arguments term_of : simpl never.

(** A tensor engine to run numeric examples with: nearest-neighbour
    upsampling repeats every element (exact for maps of size 1 by 1),
    every other layer passes the elements through. *)
Definition demo_torch : Torch :=
  {| kernel := fun l t =>
       match l with
       | UpsamplingNearest2d sf =>
           flat_map (fun v => replicate (Z.to_nat (sf * sf)) v) (data t)
       | _ => data t
       end;
     reset_parameters := fun _ => [];
     degenerate := fun _ _ => None;
     batch_size := 1%positive |}.

(** A level of size 2 by 2 and the coarser level of size 1 by 1 above it,
    what [combine_01] gathers from them, and its inputs in offset order. *)
Definition x_01 : odict Tensor :=
  [(0, mkTensor 1 2 2 [1%Q; 2%Q; 3%Q; 4%Q]); (1, mkTensor 1 1 1 [10%Q])].

Definition gathered_01 : odict Tensor :=
  [(0, mkTensor 1 2 2 [1%Q; 2%Q; 3%Q; 4%Q]);
   (1, mkTensor 1 2 2 [10%Q; 10%Q; 10%Q; 10%Q])].

Definition inputs_01 : list Tensor := map snd gathered_01.

(** A backbone whose levels are numbered 2 to 4. *)
Definition bifpn_234 : BiFPN.t :=
  Eval vm_compute in built (@BiFPN.__init__ null_torch [40; 80; 160] 64 1 5 [2; 3; 4]).

Definition input_234 : odict Tensor :=
  [(2, blank 40 64 64); (3, blank 80 32 32); (4, blank 160 16 16)].

(** Channel counts that a layer can be allocated for. *)
Definition nonneg_channels (channels_in : odict Z) : Prop :=
  Forall (fun kc => 0 <= snd kc) channels_in.

(** Every level has at least one channel. *)
Definition pos_channels (channels_in : odict Z) : Prop :=
  Forall (fun kc => 0 < snd kc) channels_in.

(** ** Pyramids of feature maps *)

Definition has_shape (t : Tensor) (c h w : Z) : Prop :=
  channels t = c /\ height t = h /\ width t = w.

(** The size a resampled input has to have for the output to be of size
    [h]: half of it when the node upsamples, twice as much when it pools. *)
Definition resampled_size (upsample : bool) (h hm : Z) : Prop :=
  if upsample then h = 2 * hm else hm = 2 * h.

(** The keys and shapes of consecutive levels from [first] on, with the
    channel counts [cs]: the level at position [i] is [2 ^ (4 - i)] times
    as large as [a] by [b], the size of the coarsest of five levels. *)
Definition pyramid_shapes (first : Z) (cs : list Z) (a b : Z) : list (Z * (Z * Z * Z)) :=
  map (fun ic => (first + fst ic, (snd ic, a * 2 ^ (4 - fst ic), b * 2 ^ (4 - fst ic))))
      (enumerate cs).

(** The level lists the fixed topology is written for: one to four
    consecutive levels of which the last is level 5. *)
Definition standard_levels (levels : list Z) : Prop :=
  1 <= len levels <= 4 /\
  levels = map (fun i => 6 - len levels + i) (py_range (len levels)).

(** A pyramid of height 4 over levels 3 to 5. *)
Definition bifpn_345_h4 : BiFPN.t :=
  Eval vm_compute in built (@BiFPN.__init__ null_torch [40; 80; 160] 64 1 4 [3; 4; 5]).

(** Levels that halve exactly from 60 to 30 to 15. *)
Definition input_odd : odict Tensor :=
  [(3, blank 40 60 60); (4, blank 80 30 30); (5, blank 160 15 15)].

(** ** Notions used in the further properties *)

(** A layer that holds no batch normalisation. *)
Fixpoint free_of_batch_norm (l : Layer) : bool :=
  match l with
  | BatchNorm2d _ _ _ _ _ _ _ => false
  | Sequential children =>
      (fix all (ls : list Layer) : bool :=
         match ls with
         | [] => true
         | l' :: ls' => free_of_batch_norm l' && all ls'
         end) children
  | _ => true
  end.

(** The exceptions a model with an expander is left with on a non-empty
    mapping: the tensor engine refusing a shape, batch normalisation
    refusing a single value per channel (which takes a batch of one
    image), or a key that is missing. *)
Definition is_lookup_or_engine_error `{Torch} (e : exn) : Prop :=
  e = RuntimeError \/ (e = ValueError /\ batch_size = 1%positive) \/
  exists k, e = KeyError k.

(** Two mappings with the same entries, in whatever order. *)
Definition same_entries {V : Type} (d1 d2 : odict V) : Prop :=
  forall k, od_get d1 k = od_get d2 k.

(** Two runs that raise the same exception or return mappings with the
    same entries. *)
Definition same_outcome {V : Type} (r1 r2 : result (odict V)) : Prop :=
  match r1, r2 with
  | Ok d1, Ok d2 => same_entries d1 d2
  | Raise e1, Raise e2 => e1 = e2
  | _, _ => False
  end.

(** [n] halved [j] times, rounding up each time: the size max-pooling
    with kernel 3, padding 1 and stride 2 leaves after [j] rounds. *)
Definition halved (n j : Z) : Z := (n + 2 ^ j - 1) / 2 ^ j.

(** Whether [CombineLevels.__init__] assigns a lateral convolution at an
    offset (the test of source line 240). *)
Definition needs_lateral (levels_in : odict Z) (channels offset : Z) : bool :=
  match od_get levels_in offset with
  | Some c => negb (c =? channels)
  | None => false
  end.

(** The keys a node looks at: its offsets and its lateral node. *)
Definition reads_key (self : CombineLevels.t) (k : Z) : bool :=
  py_in k (CombineLevels.offsets self)
  || match CombineLevels.lateral_node self with
     | Some l => k =? l
     | None => false
     end.

(** A block, or an empty one if construction raised. *)
Definition built_block (r : result BiFPNBlock.t) : BiFPNBlock.t :=
  match r with
  | Ok b => b
  | Raise _ => BiFPNBlock.mk 0 [] [] 0
  end.

(** The first block of the scenario of the specification. *)
Definition block_345 : BiFPNBlock.t :=
  Eval vm_compute in
    built_block (@BiFPNBlock.__init__ null_torch 64 5 [(3, 40); (4, 80); (5, 160)]).

(** The mapping that block is called on: levels 3 to 5 of the backbone and
    the two levels the expander has synthesized. *)
Definition pyramid_345 : odict Tensor :=
  [(3, blank 40 64 64); (4, blank 80 32 32); (5, blank 160 16 16);
   (6, blank 64 8 8); (7, blank 64 4 4)].

(** The model of the scenario, built without blocks. *)
Definition bifpn_345_n0 : BiFPN.t :=
  Eval vm_compute in built (@BiFPN.__init__ null_torch [40; 80; 160] 64 0 5 [3; 4; 5]).

(** The last node of [_NODE_PARAMS], which pools, with [index_offset] 3. *)
Definition combine_down : CombineLevels.t :=
  Eval vm_compute in
    built_node (@CombineLevels.__init__ null_torch (mk_node_param 7 [4; 11] false) 3 64 []).

(** Levels 5 and 4 in descending order, both with the channels the
    expander expects: the key after the last one is taken. *)
Definition input_54 : odict Tensor :=
  [(5, blank 160 16 16); (4, blank 160 32 32)].

(** What [depthwise(3, 8)] returns when parameters are left empty. *)
Definition depthwise_3_8 : list Layer :=
  [Conv2d 3 3 3 1 3 [] None; Conv2d 3 8 1 0 1 [] (Some [])].

(** * Properties *)

(** ** The result monad *)

Lemma rbind_ok {A B : Type} (r : result A) (k : A -> result B) (b : B) :
  rbind r k = Ok b -> exists a, r = Ok a /\ k a = Ok b.
Proof. destruct r as [a|e]; simpl; [eauto | discriminate]. Qed.

Lemma raises_rbind_l {A B : Type} (r : result A) (k : A -> result B) :
  raises r -> raises (rbind r k).
Proof. destruct r; simpl; tauto. Qed.

Lemma raises_rbind_r {A B : Type} (r : result A) (k : A -> result B) :
  (forall a, r = Ok a -> raises (k a)) -> raises (rbind r k).
Proof. destruct r; simpl; eauto. Qed.

Lemma not_raises_ok {A : Type} (r : result A) :
  ~ raises r -> exists a, r = Ok a.
Proof. destruct r; simpl; [eauto | tauto]. Qed.

(** ** Ordered dictionaries *)

Lemma od_get_app {V : Type} (d1 d2 : odict V) (k : Z) :
  od_get (d1 ++ d2) k =
  match od_get d1 k with
  | Some v => Some v
  | None => od_get d2 k
  end.
Proof.
  induction d1 as [|[k' v'] d1 IH]; simpl; [reflexivity|].
  destruct (k' =? k); [reflexivity | apply IH].
Qed.

Lemma od_get_None_keys {V : Type} (d : odict V) (k : Z) :
  od_get d k = None <-> ~ In k (od_keys d).
Proof.
  induction d as [|[k' v'] d IH]; simpl; [tauto|].
  destruct (Z.eqb_spec k' k); split; intros; try discriminate; try tauto.
Qed.

Lemma od_set_fresh {V : Type} (d : odict V) (k : Z) (v : V) :
  od_get d k = None -> od_set d k v = d ++ [(k, v)].
Proof.
  induction d as [|[k' v'] d IH]; simpl; [reflexivity|].
  destruct (k' =? k); [discriminate|]. intros Hk. now rewrite IH.
Qed.

Lemma od_get_set_eq {V : Type} (d : odict V) (k : Z) (v : V) :
  od_get (od_set d k v) k = Some v.
Proof.
  induction d as [|[k' v'] d IH]; simpl.
  - now rewrite Z.eqb_refl.
  - destruct (k' =? k) eqn:E; simpl; rewrite E; [reflexivity | apply IH].
Qed.

Lemma od_get_set_ne {V : Type} (d : odict V) (k k' : Z) (v : V) :
  k <> k' -> od_get (od_set d k v) k' = od_get d k'.
Proof.
  intros Hne. induction d as [|[k0 v0] d IH]; simpl.
  - destruct (Z.eqb_spec k k'); [contradiction | reflexivity].
  - destruct (Z.eqb_spec k0 k) as [->|Hk0]; simpl.
    + destruct (Z.eqb_spec k k'); [contradiction | reflexivity].
    + destruct (k0 =? k'); [reflexivity | apply IH].
Qed.

Lemma od_last_item_app {V : Type} (d : odict V) (kv : Z * V) :
  od_last_item (d ++ [kv]) = Ok kv.
Proof. unfold od_last_item. now rewrite last_snoc. Qed.

Lemma od_last_item_ok {V : Type} (d : odict V) (kv : Z * V) :
  od_last_item d = Ok kv -> exists d', d = d' ++ [kv].
Proof.
  unfold od_last_item. destruct (last d) as [kv'|] eqn:E; [|discriminate].
  intros [= ->]. apply last_Some in E. exact E.
Qed.

(** In an ascending list every key is below the last one. *)
Lemma is_ascending_snoc (ks : list Z) (k : Z) :
  is_ascending (ks ++ [k]) = true ->
  is_ascending ks = true /\ forall k', In k' ks -> k' < k.
Proof.
  induction ks as [|k0 ks IH]; simpl; [intros _; split; [reflexivity | tauto]|].
  destruct ks as [|k1 ks]; simpl in *.
  - rewrite andb_true_r. intros Hlt%Z.ltb_lt. split; [reflexivity|].
    intros k' [<-|[]]. exact Hlt.
  - intros [Hlt Hrest]%andb_true_iff. destruct (IH Hrest) as [Hasc Hbelow].
    split; [now rewrite Hlt, Hasc|].
    intros k' [<-|Hin]; [|now apply Hbelow].
    apply Z.ltb_lt in Hlt. specialize (Hbelow k1 (or_introl eq_refl)). lia.
Qed.

Lemma is_ascending_app_snoc (ks : list Z) (k k' : Z) :
  is_ascending (ks ++ [k]) = true -> k < k' ->
  is_ascending ((ks ++ [k]) ++ [k']) = true.
Proof.
  induction ks as [|k0 ks IH]; simpl.
  - intros _ Hlt. now rewrite (proj2 (Z.ltb_lt _ _) Hlt).
  - destruct ks as [|k1 ks]; simpl in *.
    + rewrite !andb_true_r. intros H1 H2. rewrite H1. simpl.
      now rewrite (proj2 (Z.ltb_lt _ _) H2).
    + intros [Hlt Hrest]%andb_true_iff Hk. rewrite Hlt. simpl.
      now apply IH.
Qed.

(** Writing under the key after the last one appends an entry and keeps
    the keys ascending. *)
Lemma od_set_after_last {V : Type} (d : odict V) (k : Z) (v z : V) :
  is_ascending (od_keys d) = true ->
  od_last_item d = Ok (k, v) ->
  od_set d (k + 1) z = d ++ [(k + 1, z)] /\
  is_ascending (od_keys (d ++ [(k + 1, z)])) = true.
Proof.
  intros Hasc Hlast. apply od_last_item_ok in Hlast as [d' ->].
  unfold od_keys in *. rewrite map_app in Hasc. simpl in Hasc.
  split.
  - apply od_set_fresh. apply od_get_None_keys. unfold od_keys.
    rewrite map_app. simpl. intros Hin. apply in_app_or in Hin as [Hin|[Hin|[]]]; [|lia].
    apply is_ascending_snoc in Hasc as [_ Hbelow]. specialize (Hbelow _ Hin). lia.
  - rewrite !map_app. simpl. apply is_ascending_app_snoc; [exact Hasc | lia].
Qed.

(** ** The methods agree with the content semantics in every heap *)

Section Agreement.
Context `{Torch}.

Lemma updated_insert (l : loc) (d d' : odict Tensor) (s : heap) :
  s !! l = Some d -> updated l d' s (<[l := d']> s).
Proof.
  intros Hl. pose proof (lookup_lt_Some _ _ _ Hl) as Hlt.
  split; [|split].
  - now apply list_lookup_insert_eq.
  - now rewrite length_insert.
  - intros l' _ Hne. now apply list_lookup_insert_ne.
Qed.

Lemma updated_refl (l : loc) (d : odict Tensor) (s : heap) :
  s !! l = Some d -> updated l d s s.
Proof. intros Hl. split; [exact Hl | split; [lia | reflexivity]]. Qed.

Lemma downsample_step_spec (l : loc) (layer : Layer) (s : heap) (d : odict Tensor) :
  s !! l = Some d ->
  BiFPN.downsample_step l layer s =
  match downsample_pure layer d with
  | Ok d' => Return tt (<[l := d']> s)
  | Raise e => Throw e s
  end.
Proof.
  intros Hl. unfold BiFPN.downsample_step, downsample_pure, bind, load, store, lift.
  rewrite Hl. destruct (od_last_item d) as [top|e]; simpl; [|reflexivity].
  destruct (forward layer (snd top)) as [y|e]; simpl; [|reflexivity].
  now rewrite Hl.
Qed.

Lemma node_step_spec (l : loc) (cp : CombineLevels.t * Layer) (s : heap)
      (d : odict Tensor) :
  s !! l = Some d ->
  BiFPNBlock.node_step l cp s =
  match node_pure cp d with
  | Ok d' => Return tt (<[l := d']> s)
  | Raise e => Throw e s
  end.
Proof.
  intros Hl. unfold BiFPNBlock.node_step, node_pure, bind, load, store, lift.
  rewrite Hl. destruct (od_last_item d) as [top|e]; simpl; [|reflexivity].
  destruct (CombineLevels.__call__ (fst cp) d) as [y|e]; simpl; [|reflexivity].
  destruct (forward (snd cp) y) as [z|e]; simpl; [|reflexivity].
  now rewrite Hl.
Qed.

(** A loop of such steps on one object. *)
Lemma for_each_spec {A : Type} (step : A -> M unit)
      (body : A -> odict Tensor -> result (odict Tensor)) (l : loc) :
  (forall a s d, s !! l = Some d ->
     step a s = match body a d with
                | Ok d' => Return tt (<[l := d']> s)
                | Raise e => Throw e s
                end) ->
  forall (xs : list A) (s : heap) (d : odict Tensor),
    s !! l = Some d ->
    for_each step xs s =
    match loop_pure body xs d with
    | (d', None) => Return tt (<[l := d']> s)
    | (d', Some e) => Throw e (<[l := d']> s)
    end.
Proof.
  intros Hstep xs. induction xs as [|a xs IH]; intros s d Hl; simpl.
  - unfold ret. now rewrite list_insert_id.
  - unfold bind. rewrite (Hstep a s d Hl).
    destruct (body a d) as [d'|e].
    + pose proof (lookup_lt_Some _ _ _ Hl) as Hlt.
      rewrite (IH (<[l := d']> s) d'); [|now apply list_lookup_insert_eq].
      destruct (loop_pure body xs d') as [d'' [e|]]; now rewrite list_insert_insert_eq.
    + now rewrite list_insert_id.
Qed.

(** One block, in any heap. *)
Lemma block_call_spec (self : BiFPNBlock.t) (l : loc) (s : heap) (d0 : odict Tensor) :
  s !! l = Some d0 ->
  BiFPNBlock.__call__ self l s =
  match block_pure self d0 with
  | (d, Ok out) => Return (length s) (<[l := d]> s ++ [out])
  | (d, Raise e) => Throw e (<[l := d]> s)
  end.
Proof.
  intros Hl. pose proof (lookup_lt_Some _ _ _ Hl) as Hlt.
  unfold BiFPNBlock.__call__, block_pure.
  unfold bind at 1. unfold load at 1. rewrite Hl.
  unfold bind at 1. destruct (od_first_key d0) as [off|e]; simpl.
  - unfold bind at 1.
    rewrite (for_each_spec _ node_pure l (node_step_spec l) _ s d0 Hl).
    destruct (loop_pure node_pure _ d0) as [d [e|]]; [reflexivity|].
    unfold bind, load, alloc.
    rewrite list_lookup_insert_eq by exact Hlt.
    rewrite length_insert. reflexivity.
  - unfold throw. now rewrite list_insert_id.
Qed.

(** A chain of blocks, in any heap: what is returned, where it lives, and
    what has become of the argument. *)
Lemma run_blocks_spec (blocks : list BiFPNBlock.t) :
  forall (l : loc) (s : heap) (d : odict Tensor),
    s !! l = Some d ->
    match BiFPN.run_blocks blocks l s with
    | Return r s' =>
        exists out, snd (blocks_pure blocks d) = Ok out /\
                    s' !! r = Some out /\
                    updated l (fst (blocks_pure blocks d)) s s' /\
                    (blocks = [] -> r = l) /\
                    (blocks <> [] -> (length s <= r)%nat)
    | Throw e s' =>
        snd (blocks_pure blocks d) = Raise e /\
        updated l (fst (blocks_pure blocks d)) s s'
    end.
Proof.
  induction blocks as [|b blocks IH]; intros l s d Hl; simpl.
  - exists d. split; [reflexivity|]. split; [exact Hl|].
    split; [now apply updated_refl|]. split; [reflexivity | congruence].
  - pose proof (lookup_lt_Some _ _ _ Hl) as Hlt.
    unfold bind. rewrite (block_call_spec b l s d Hl).
    destruct (block_pure b d) as [d1 [out1|e]]; simpl.
    + assert (Hnew : (<[l := d1]> s ++ [out1]) !! length s = Some out1).
      { rewrite lookup_app_r; rewrite length_insert; [|lia].
        now rewrite Nat.sub_diag. }
      specialize (IH (length s) _ out1 Hnew).
      assert (Hkeep : forall s', updated (length s) (fst (blocks_pure blocks out1))
                                   (<[l := d1]> s ++ [out1]) s' ->
                                 updated l d1 s s').
      { intros s' (Hr & Hlen & Hframe).
        rewrite length_app, length_insert in Hlen. simpl in Hlen.
        split; [|split].
        - rewrite Hframe.
          + rewrite lookup_app_l by (rewrite length_insert; lia).
            now apply list_lookup_insert_eq.
          + rewrite length_app, length_insert. simpl. lia.
          + lia.
        - lia.
        - intros l' Hl' Hne. rewrite Hframe.
          + rewrite lookup_app_l by (rewrite length_insert; lia).
            now apply list_lookup_insert_ne.
          + rewrite length_app, length_insert. simpl. lia.
          + lia. }
      destruct (BiFPN.run_blocks blocks (length s) _) as [r s'|e s'].
      * destruct IH as (out & Hout & Hr & Hupd & Hnil & Hcons).
        exists out. repeat split; try (apply (Hkeep _ Hupd)); auto.
        -- discriminate.
        -- intros _. destruct blocks as [|b' blocks'].
           ++ rewrite (Hnil eq_refl). lia.
           ++ assert (Hne : b' :: blocks' <> []) by discriminate.
              specialize (Hcons Hne).
              rewrite length_app, length_insert in Hcons. simpl in Hcons. lia.
      * destruct IH as (Hout & Hupd). split; [exact Hout|].
        apply (Hkeep _ Hupd).
    + split; [reflexivity|]. now apply (updated_insert l d).
Qed.

(** The whole forward call, in any heap. *)
Lemma call_spec (self : BiFPN.t) (l : loc) (s : heap) (d : odict Tensor) :
  s !! l = Some d ->
  match BiFPN.__call__ self l s with
  | Return r s' =>
      exists out, snd (call_pure self d) = Ok out /\
                  s' !! r = Some out /\
                  updated l (fst (call_pure self d)) s s' /\
                  (BiFPN.bifp_layers self = [] -> r = l) /\
                  (BiFPN.bifp_layers self <> [] -> (length s <= r)%nat)
  | Throw e s' =>
      snd (call_pure self d) = Raise e /\
      updated l (fst (call_pure self d)) s s'
  end.
Proof.
  intros Hl. pose proof (lookup_lt_Some _ _ _ Hl) as Hlt.
  unfold BiFPN.__call__, call_pure.
  destruct (BiFPN.downsample_convs self) as [layers|]; simpl.
  - unfold bind at 1. unfold ret at 1. unfold bind at 1.
    rewrite (for_each_spec _ downsample_pure l (downsample_step_spec l) _ s d Hl).
    destruct (loop_pure downsample_pure layers d) as [d1 [e|]]; simpl.
    + split; [reflexivity | now apply (updated_insert l d)].
    + assert (Hl1 : <[l := d1]> s !! l = Some d1) by now apply list_lookup_insert_eq.
      pose proof (run_blocks_spec (map snd (BiFPN.bifp_layers self)) l _ d1 Hl1) as Hrun.
      assert (Hkeep : forall d' s', updated l d' (<[l := d1]> s) s' -> updated l d' s s').
      { intros d' s' (Hr & Hlen & Hframe). rewrite length_insert in Hlen, Hframe.
        split; [exact Hr | split; [exact Hlen|]].
        intros l' Hl' Hne. rewrite (Hframe l' Hl' Hne).
        now apply list_lookup_insert_ne. }
      destruct (BiFPN.run_blocks _ l _) as [r s'|e s'].
      * destruct Hrun as (out & Hout & Hr & Hupd & Hnil & Hcons).
        exists out. repeat split; try (apply (Hkeep _ _ Hupd)); auto.
        -- intros Hempty. apply Hnil. now rewrite Hempty.
        -- intros Hne. rewrite length_insert in Hcons. apply Hcons.
           destruct (BiFPN.bifp_layers self); [congruence | discriminate].
      * destruct Hrun as (Hout & Hupd). split; [exact Hout|].
        apply (Hkeep _ _ Hupd).
  - unfold bind, throw. split; [reflexivity | now apply updated_refl].
Qed.

End Agreement.

(** ** Determinism *)

Section Effects.
Context `{Torch}.

(** C8.  The forward pass is deterministic: for a model with any fixed
    parameter values, two forward calls on mappings with identical
    contents, in whatever heaps and at whatever addresses, either both
    return mappings with identical contents or both raise the same
    exception. *)
Theorem forward_deterministic (self : BiFPN.t) (s1 s2 : heap) (l1 l2 : loc)
        (d : odict Tensor) :
  s1 !! l1 = Some d ->
  s2 !! l2 = Some d ->
  match BiFPN.__call__ self l1 s1, BiFPN.__call__ self l2 s2 with
  | Return r1 s1', Return r2 s2' =>
      exists out, s1' !! r1 = Some out /\ s2' !! r2 = Some out
  | Throw e1 _, Throw e2 _ => e1 = e2
  | _, _ => False
  end.
Proof.
  intros H1 H2.
  pose proof (call_spec self l1 s1 d H1) as C1.
  pose proof (call_spec self l2 s2 d H2) as C2.
  destruct (BiFPN.__call__ self l1 s1) as [r1 s1'|e1 s1'];
    destruct (BiFPN.__call__ self l2 s2) as [r2 s2'|e2 s2'].
  - destruct C1 as (o1 & E1 & R1 & _), C2 as (o2 & E2 & R2 & _).
    exists o1. split; [exact R1|]. congruence.
  - destruct C1 as (o1 & E1 & _), C2 as (E2 & _). congruence.
  - destruct C1 as (E1 & _), C2 as (o2 & E2 & _). congruence.
  - destruct C1 as (E1 & _), C2 as (E2 & _). congruence.
Qed.

(** A loop whose steps append an entry to an ascending mapping leaves
    what was there in place. *)
Lemma loop_pure_extends {A : Type}
      (body : A -> odict Tensor -> result (odict Tensor)) :
  (forall a d d', is_ascending (od_keys d) = true -> body a d = Ok d' ->
                  is_ascending (od_keys d') = true /\ exists kv, d' = d ++ [kv]) ->
  forall xs d, is_ascending (od_keys d) = true ->
    is_ascending (od_keys (fst (loop_pure body xs d))) = true /\
    exists extra, fst (loop_pure body xs d) = d ++ extra.
Proof.
  intros Hbody xs. induction xs as [|a xs IH]; intros d Hasc; simpl.
  - split; [exact Hasc|]. exists []. now rewrite app_nil_r.
  - destruct (body a d) as [d'|e] eqn:E; simpl.
    + destruct (Hbody a d d' Hasc E) as (Hasc' & kv & ->).
      destruct (IH _ Hasc') as (Hasc'' & extra & Hex).
      split; [exact Hasc''|]. exists (kv :: extra). rewrite Hex.
      now rewrite <- app_assoc.
    + split; [exact Hasc|]. exists []. now rewrite app_nil_r.
Qed.

Lemma downsample_pure_extends (layer : Layer) (d d' : odict Tensor) :
  is_ascending (od_keys d) = true -> downsample_pure layer d = Ok d' ->
  is_ascending (od_keys d') = true /\ exists kv, d' = d ++ [kv].
Proof.
  intros Hasc. unfold downsample_pure.
  destruct (od_last_item d) as [[k v]|e] eqn:Elast; simpl; [|discriminate].
  destruct (forward layer v) as [y|e]; simpl; [|discriminate].
  intros [= <-]. destruct (od_set_after_last d k v y Hasc Elast) as [-> Hasc'].
  split; [exact Hasc' | eauto].
Qed.

End Effects.

(** C8 at the scenario of the specification, called at two addresses of
    two heaps. *)
Lemma forward_deterministic_witness :
  [input_345] !! 0%nat = Some input_345 /\
  [[]; input_345] !! 1%nat = Some input_345 /\
  match @BiFPN.__call__ null_torch bifpn_345 0%nat [input_345],
        @BiFPN.__call__ null_torch bifpn_345 1%nat [[]; input_345] with
  | Return r1 s1', Return r2 s2' =>
      exists out, s1' !! r1 = Some out /\ s2' !! r2 = Some out
  | Throw e1 _, Throw e2 _ => e1 = e2
  | _, _ => False
  end.
Proof.
  split; [reflexivity|]. split; [reflexivity|].
  apply (@forward_deterministic null_torch bifpn_345 [input_345] [[]; input_345]
           0%nat 1%nat input_345); reflexivity.
Defined.

(** ** Construction *)

Section Construction.
Context `{Torch}.

(** C1 (the code departs from the claim).  With [bifpn_height] equal to
    [len(levels)] construction does skip the expander: the attribute
    [downsample_convs] is never assigned.  The forward call reads that
    attribute all the same, so instead of succeeding and returning
    [bifpn_height] levels it raises [AttributeError] on every input,
    leaving the heap as it was. *)
Theorem exact_height_forward_raises (in_channels : list Z) (out_channels num_bifpns : Z)
        (levels : list Z) (self : BiFPN.t) :
  BiFPN.__init__ in_channels out_channels num_bifpns (len levels) levels = Ok self ->
  BiFPN.downsample_convs self = None /\
  forall (feature_maps : loc) (s : heap),
    BiFPN.__call__ self feature_maps s = Throw AttributeError s.
Proof.
  unfold BiFPN.__init__, BiFPN.init_downsample_convs.
  rewrite Z.eqb_refl. simpl.
  intros Hinit.
  apply rbind_ok in Hinit as (channel_dict & _ & Hinit).
  apply rbind_ok in Hinit as (layers & _ & Hinit).
  injection Hinit as <-. simpl. split; [reflexivity|].
  intros l s. reflexivity.
Qed.

End Construction.

(** The forward call on five levels of the width of the pyramid. *)
Example exact_height_failing_input :
  @BiFPN.__call__ null_torch bifpn_12345 0%nat [input_12345]
  = Throw AttributeError [input_12345].
Proof. reflexivity. Qed.

(** C1 at a backbone that supplies levels 1 to 5 for a pyramid of height 5. *)
Lemma exact_height_forward_raises_witness :
  @BiFPN.__init__ null_torch [64; 64; 64; 64; 64] 64 1 (len [1; 2; 3; 4; 5])
                  [1; 2; 3; 4; 5] = Ok bifpn_12345 /\
  BiFPN.downsample_convs bifpn_12345 = None /\
  forall (feature_maps : loc) (s : heap),
    @BiFPN.__call__ null_torch bifpn_12345 feature_maps s = Throw AttributeError s.
Proof.
  split; [reflexivity|].
  apply (@exact_height_forward_raises null_torch [64; 64; 64; 64; 64] 64 1
           [1; 2; 3; 4; 5] bifpn_12345).
  reflexivity.
Defined.

(** ** Gathering the inputs of a node *)

Section Gather.
Context `{Torch}.

Lemma od_item_ok {V : Type} (d : odict V) (k : Z) (v : V) :
  od_item d k = Ok v -> od_get d k = Some v.
Proof. unfold od_item. destruct (od_get d k); [intros [= ->]; reflexivity | discriminate]. Qed.

Lemma gather_step_sound (self : CombineLevels.t) (x nodes nodes' : odict Tensor) (node : Z) :
  (forall k v, od_get nodes k = Some v -> gathered_from self x k v) ->
  CombineLevels.gather_step self x nodes node = Ok nodes' ->
  forall k v, od_get nodes' k = Some v -> gathered_from self x k v.
Proof.
  intros Hinv. unfold CombineLevels.gather_step.
  destruct (CombineLevels.lateral_node self) as [l|] eqn:Elat.
  - destruct (Z.eqb_spec node l) as [->|Hne].
    + destruct (CombineLevels.lateral_conv self) as [conv|] eqn:Econv; simpl; [|discriminate].
      destruct (od_item x l) as [xl|e] eqn:Ex; simpl; [|discriminate].
      destruct (forward conv xl) as [y|e] eqn:Ey; simpl; [|discriminate].
      intros [= <-] k v. destruct (Z.eq_dec l k) as [<-|Hk].
      * rewrite od_get_set_eq. intros [= <-]. left. split; [exact Elat|].
        exists conv, xl. auto using od_item_ok.
      * rewrite od_get_set_ne by exact Hk. apply Hinv.
    + destruct (py_in node (CombineLevels.offsets self)) eqn:Ein; [|intros [= <-]; exact Hinv].
      destruct (py_max (CombineLevels.offsets self)) as [m|e] eqn:Emax; simpl; [|discriminate].
      destruct (Z.eqb_spec node m) as [->|Hm]; simpl; [intros [= <-]; exact Hinv|].
      destruct (od_item x node) as [xn|e] eqn:Ex; simpl; [|discriminate].
      intros [= <-] k v. destruct (Z.eq_dec node k) as [<-|Hk].
      * rewrite od_get_set_eq. intros [= <-]. right.
        repeat split; auto using od_item_ok; congruence.
      * rewrite od_get_set_ne by exact Hk. apply Hinv.
  - destruct (py_in node (CombineLevels.offsets self)) eqn:Ein; [|intros [= <-]; exact Hinv].
    destruct (py_max (CombineLevels.offsets self)) as [m|e] eqn:Emax; simpl; [|discriminate].
    destruct (Z.eqb_spec node m) as [->|Hm]; simpl; [intros [= <-]; exact Hinv|].
    destruct (od_item x node) as [xn|e] eqn:Ex; simpl; [|discriminate].
    intros [= <-] k v. destruct (Z.eq_dec node k) as [<-|Hk].
    + rewrite od_get_set_eq. intros [= <-]. right.
      repeat split; auto using od_item_ok; congruence.
    + rewrite od_get_set_ne by exact Hk. apply Hinv.
Qed.

Lemma gather_loop_sound (self : CombineLevels.t) (x : odict Tensor) (ks : list Z) :
  forall nodes nodes',
    (forall k v, od_get nodes k = Some v -> gathered_from self x k v) ->
    foldM (CombineLevels.gather_step self x) ks nodes = Ok nodes' ->
    forall k v, od_get nodes' k = Some v -> gathered_from self x k v.
Proof.
  induction ks as [|k0 ks IH]; intros nodes nodes' Hinv; simpl.
  - intros [= <-]. exact Hinv.
  - intros Hfold. apply rbind_ok in Hfold as (nodes1 & Hstep & Hfold).
    apply (IH nodes1 nodes'); [|exact Hfold].
    exact (gather_step_sound self x nodes nodes1 k0 Hinv Hstep).
Qed.

(** What [gather_nodes] has done when it returns. *)
Lemma gather_nodes_inv (self : CombineLevels.t) (x nodes : odict Tensor) :
  CombineLevels.gather_nodes self x = Ok nodes ->
  exists nodes0 m xm ym,
    foldM (CombineLevels.gather_step self x) (od_keys x) [] = Ok nodes0 /\
    py_max (CombineLevels.offsets self) = Ok m /\
    od_get x m = Some xm /\
    forward (CombineLevels.resample self) xm = Ok ym /\
    nodes = od_set nodes0 m ym.
Proof.
  unfold CombineLevels.gather_nodes. intros Hg.
  apply rbind_ok in Hg as (nodes0 & Hloop & Hg).
  apply rbind_ok in Hg as (m & Hmax & Hg).
  apply rbind_ok in Hg as (xm & Hxm & Hg).
  apply rbind_ok in Hg as (ym & Hym & Hg).
  injection Hg as <-.
  exists nodes0, m, xm, ym. auto using od_item_ok.
Qed.

(** The entries gathered for the offsets other than the largest. *)
Lemma gathered_entries (self : CombineLevels.t) (x nodes : odict Tensor) :
  CombineLevels.gather_nodes self x = Ok nodes ->
  exists m,
    py_max (CombineLevels.offsets self) = Ok m /\
    od_get x m <> None /\
    forall k v, k <> m -> od_get nodes k = Some v -> gathered_from self x k v.
Proof.
  intros Hg.
  apply gather_nodes_inv in Hg as (nodes0 & m & xm & ym & Hloop & Hmax & Hxm & _ & ->).
  exists m. split; [exact Hmax|]. split; [congruence|].
  intros k v Hk. rewrite od_get_set_ne by congruence.
  apply (gather_loop_sound self x (od_keys x) [] nodes0); [|exact Hloop].
  intros k' v' Hnone. discriminate.
Qed.

(** C10.  Whenever [CombineLevels.__call__] has gathered its inputs, the
    entry of the largest offset is the resample of the raw entry of the
    input mapping, never of its lateral projection (if the lateral node
    is the largest offset, what the loop stored for it is overwritten);
    every other gathered entry is either the lateral projection of the
    raw entry of the lateral node or a raw entry taken as it is. *)
Theorem resampled_input_is_raw (self : CombineLevels.t) (x nodes : odict Tensor) :
  CombineLevels.gather_nodes self x = Ok nodes ->
  exists m xm ym,
    py_max (CombineLevels.offsets self) = Ok m /\
    od_get x m = Some xm /\
    forward (CombineLevels.resample self) xm = Ok ym /\
    od_get nodes m = Some ym /\
    forall k v, k <> m -> od_get nodes k = Some v -> gathered_from self x k v.
Proof.
  intros Hg.
  destruct (gathered_entries self x nodes Hg) as (m' & Hmax' & _ & Hrest).
  apply gather_nodes_inv in Hg as (nodes0 & m & xm & ym & _ & Hmax & Hxm & Hym & ->).
  assert (m' = m) by congruence. subst m'.
  exists m, xm, ym.
  split; [exact Hmax|]. split; [exact Hxm|]. split; [exact Hym|].
  split; [apply od_get_set_eq | exact Hrest].
Qed.

End Gather.

(** C10 at a node whose lateral node is its largest offset: the entry of
    offset 5 is the upsampled raw level 5, with its 160 channels. *)
Lemma resampled_input_is_raw_witness :
  CombineLevels.lateral_node combine_45 = Some 5 /\
  exists nodes,
    @CombineLevels.gather_nodes null_torch combine_45 input_345 = Ok nodes /\
    od_get nodes 5 = Some (blank 160 32 32) /\
    exists m xm ym,
      py_max (CombineLevels.offsets combine_45) = Ok m /\
      od_get input_345 m = Some xm /\
      @forward null_torch (CombineLevels.resample combine_45) xm = Ok ym /\
      od_get nodes m = Some ym /\
      forall k v, k <> m -> od_get nodes k = Some v ->
                  @gathered_from null_torch combine_45 input_345 k v.
Proof.
  split; [reflexivity|].
  exists [(4, blank 80 32 32); (5, blank 160 32 32)].
  split; [reflexivity|]. split; [reflexivity|].
  apply (@resampled_input_is_raw null_torch combine_45 input_345).
  reflexivity.
Defined.


(** ** The weighted sum *)

Lemma relu_nonneg (w : Q) : (0 <= relu w)%Q.
Proof.
  unfold relu. destruct (Qle_bool w 0) eqn:E.
  - apply Qle_refl.
  - destruct (Qlt_le_dec 0 w) as [Hlt|Hle]; [now apply Qlt_le_weak|].
    apply Qle_bool_iff in Hle. congruence.
Qed.

Lemma relu_nonpos (w : Q) : (w <= 0)%Q -> relu w = 0%Q.
Proof. intros Hle. unfold relu. apply Qle_bool_iff in Hle. now rewrite Hle. Qed.

Lemma relu_pos (w : Q) : (0 < w)%Q -> relu w = w.
Proof.
  intros Hlt. unfold relu. destruct (Qle_bool w 0) eqn:E; [|reflexivity].
  apply Qle_bool_iff in E. lra.
Qed.

Lemma Qsum_nonneg (ws : list Q) : Forall (fun w => 0 <= w)%Q ws -> (0 <= Qsum ws)%Q.
Proof.
  induction 1 as [|w ws Hw _ IH]; simpl; [apply Qle_refl | lra].
Qed.

Lemma Qsum_map_relu_nonneg (ws : list Q) : (0 <= Qsum (map relu ws))%Q.
Proof.
  induction ws as [|w ws IH]; simpl; [apply Qle_refl|].
  pose proof (relu_nonneg w). lra.
Qed.

Lemma Qsum_add_eps (e : Q) (ws : list Q) :
  (Qsum (map (fun w => w + e) ws) == Qsum ws + inject_Z (len ws) * e)%Q.
Proof.
  induction ws as [|w ws IH]; simpl.
  - unfold len. simpl. ring.
  - rewrite IH. unfold len. simpl length.
    rewrite Nat2Z.inj_succ, <- Z.add_1_r, inject_Z_plus. ring.
Qed.

Lemma denominator_eq (self : CombineLevels.t) :
  (CombineLevels.denominator self ==
   Qsum (map relu (CombineLevels.weights self))
   + inject_Z (len (CombineLevels.weights self)) * CombineLevels.eps self)%Q.
Proof.
  unfold CombineLevels.denominator. rewrite Qsum_add_eps.
  unfold len. now rewrite length_map.
Qed.

Lemma inject_Z_len_pos {A : Type} (l : list A) :
  l <> [] -> (1 <= inject_Z (len l))%Q.
Proof.
  intros Hne. destruct l as [|a l]; [contradiction|].
  unfold len. simpl length. rewrite Nat2Z.inj_succ, <- Z.add_1_r, inject_Z_plus.
  assert (0 <= inject_Z (Z.of_nat (length l)))%Q.
  { change 0%Q with (inject_Z 0). rewrite <- Zle_Qle. lia. }
  change (inject_Z 1) with 1%Q. lra.
Qed.

Lemma denominator_pos (self : CombineLevels.t) :
  (0 < CombineLevels.eps self)%Q -> CombineLevels.weights self <> [] ->
  (inject_Z (len (CombineLevels.weights self)) * CombineLevels.eps self
     <= CombineLevels.denominator self)%Q /\
  (0 < CombineLevels.denominator self)%Q.
Proof.
  intros He Hne. rewrite denominator_eq.
  pose proof (Qsum_map_relu_nonneg (CombineLevels.weights self)) as Hs.
  pose proof (inject_Z_len_pos _ Hne) as Hn.
  split; [lra|]. nra.
Qed.

Section Combine.
Context `{Torch}.

Lemma py_index_nat {A : Type} (l : list A) (a : nat) :
  py_index l (Z.of_nat a) =
  match l !! a with
  | Some x => Ok x
  | None => Raise IndexError
  end.
Proof.
  unfold py_index.
  destruct (Z.ltb_spec (Z.of_nat a) 0) as [Hlt|_]; [lia|].
  destruct (Z.ltb_spec (Z.of_nat a) 0) as [Hlt|_]; [lia|].
  now rewrite Nat2Z.id.
Qed.

Lemma enumerate_eq {A : Type} (l : list A) :
  enumerate l = zip (map Z.of_nat (seq 0 (length l))) l.
Proof. unfold enumerate, py_range, len. now rewrite Nat2Z.id. Qed.


Lemma lookup_map {A B : Type} (f : A -> B) (l : list A) (i : nat) :
  map f l !! i = option_map f (l !! i).
Proof.
  revert i. induction l as [|a l IH]; intros [|i]; simpl; auto.
Qed.

Lemma weighted_terms_from (self : CombineLevels.t) (nodes : odict Tensor) :
  forall (os : list Z) (inputs : list Tensor) (pre ws : list Q),
    mapM (od_item nodes) os = Ok inputs ->
    length ws = length os ->
    CombineLevels.weights self = pre ++ ws ->
    mapM (CombineLevels.weighted_term self nodes)
         (zip (map Z.of_nat (seq (length pre) (length os))) os)
    = Ok (zip_with (term_of self) inputs ws).
Proof.
  induction os as [|o os IH]; intros inputs pre ws Hin Hlen Hws; simpl in *.
  - injection Hin as <-. reflexivity.
  - apply rbind_ok in Hin as (t & Ht & Hin).
    apply rbind_ok in Hin as (ts & Hts & Hin). injection Hin as <-.
    destruct ws as [|w ws]; [discriminate|]. simpl in Hlen.
    unfold CombineLevels.weighted_term at 1. simpl.
    rewrite Ht. simpl. rewrite py_index_nat, lookup_map, Hws, list_lookup_middle by reflexivity.
    simpl.
    specialize (IH ts (pre ++ [w]) ws Hts).
    rewrite length_app in IH. simpl in IH. rewrite Nat.add_1_r in IH.
    rewrite IH; [reflexivity | lia |]. now rewrite <- app_assoc.
Qed.

Lemma weighted_terms_ok (self : CombineLevels.t) (nodes : odict Tensor)
      (inputs : list Tensor) :
  mapM (od_item nodes) (CombineLevels.offsets self) = Ok inputs ->
  length (CombineLevels.weights self) = length (CombineLevels.offsets self) ->
  mapM (CombineLevels.weighted_term self nodes) (enumerate (CombineLevels.offsets self))
  = Ok (zip_with (term_of self) inputs (CombineLevels.weights self)).
Proof.
  intros Hin Hlen. rewrite enumerate_eq.
  now apply (weighted_terms_from self nodes _ inputs []).
Qed.

Lemma same_shape_term (self : CombineLevels.t) (t t' : Tensor) (w w' : Q) :
  same_shape (term_of self t w) (term_of self t' w') = same_shape t t'.
Proof. reflexivity. Qed.

Lemma same_shape_terms (self : CombineLevels.t) (t : Tensor) (w : Q) :
  forall (ts : list Tensor) (ws : list Q),
    forallb (same_shape t) ts = true ->
    forallb (same_shape (term_of self t w)) (zip_with (term_of self) ts ws) = true.
Proof.
  induction ts as [|t' ts IH]; intros [|w' ws]; simpl; try reflexivity.
  intros [Ht Hts]%andb_true_iff. rewrite same_shape_term, Ht. simpl. now apply IH.
Qed.

Lemma nth_zip_with_plus (l1 l2 : list Q) (p : nat) :
  (p < length l1)%nat -> (p < length l2)%nat ->
  nth p (zip_with Qplus l1 l2) 0%Q = (nth p l1 0 + nth p l2 0)%Q.
Proof.
  revert l2 p. induction l1 as [|a l1 IH]; intros [|b l2] [|p]; simpl; intros; try lia; auto.
  apply IH; lia.
Qed.

Lemma length_fold_zip_plus (n : nat) :
  forall (ls : list (list Q)) (l0 : list Q),
    length l0 = n -> Forall (fun l => length l = n) ls ->
    length (fold_left (zip_with Qplus) ls l0) = n.
Proof.
  intros ls. induction ls as [|l ls IH]; intros l0 Hl0 Hls; simpl; [exact Hl0|].
  inversion Hls as [|? ? Hl Hls']; subst.
  apply IH; [|assumption]. rewrite length_zip_with_l_eq; congruence.
Qed.

Lemma nth_fold_zip_plus (n p : nat) :
  (p < n)%nat ->
  forall (ls : list (list Q)) (l0 : list Q),
    length l0 = n -> Forall (fun l => length l = n) ls ->
    length (fold_left (zip_with Qplus) ls l0) = n /\
    nth p (fold_left (zip_with Qplus) ls l0) 0%Q
    = fold_left Qplus (map (fun l => nth p l 0%Q) ls) (nth p l0 0%Q).
Proof.
  intros Hp ls. induction ls as [|l ls IH]; intros l0 Hl0 Hls; simpl; [auto|].
  inversion Hls as [|? ? Hl Hls']; subst.
  assert (Hz : length (zip_with Qplus l0 l) = length l0)
    by (apply length_zip_with_l_eq; congruence).
  destruct (IH (zip_with Qplus l0 l)) as [Hlen Hnth]; [congruence | assumption |].
  split; [congruence|]. rewrite Hnth, nth_zip_with_plus by lia. reflexivity.
Qed.

Lemma nth_term (self : CombineLevels.t) (t : Tensor) (w : Q) (p : nat) :
  (p < length (data t))%nat ->
  nth p (data (term_of self t w)) 0%Q
  = (nth p (data t) 0 * relu w / CombineLevels.denominator self)%Q.
Proof.
  intros Hp. unfold term_of. simpl.
  rewrite (nth_indep _ 0%Q ((0 * relu w) / CombineLevels.denominator self)%Q)
    by now rewrite !length_map.
  rewrite (map_nth (fun v => (v / CombineLevels.denominator self)%Q)).
  f_equal. apply (map_nth (fun v => (v * relu w)%Q)).
Qed.

Lemma fold_left_Qplus (l : list Q) (a : Q) :
  (fold_left Qplus l a == a + Qsum l)%Q.
Proof.
  revert a. induction l as [|b l IH]; intros a; simpl; [ring|].
  rewrite IH. ring.
Qed.

Lemma Qsum_terms (d : Q) (ws xs : list Q) :
  (Qsum (zip_with (fun x w => x * relu w / d) xs ws)
   == Qsum (zip_with (fun w x => relu w * x) ws xs) / d)%Q.
Proof.
  revert xs. induction ws as [|w ws IH]; intros [|x xs]; simpl;
    try (unfold Qdiv; ring).
  rewrite IH. unfold Qdiv. ring.
Qed.

Lemma uniform_cons (t : Tensor) (ts : list Tensor) :
  uniform (t :: ts) = true ->
  forallb (same_shape t) ts = true /\
  Forall (fun t' => length (data t') = length (data t)) ts.
Proof.
  simpl. induction ts as [|t' ts IH]; simpl; [auto|].
  intros [[Hs Hl%Nat.eqb_eq]%andb_true_iff Hrest]%andb_true_iff.
  destruct (IH Hrest) as [Hss Hls]. split; [now rewrite Hs | now constructor].
Qed.

Lemma mapM_length {A B : Type} (f : A -> result B) (l : list A) (bs : list B) :
  mapM f l = Ok bs -> length bs = length l.
Proof.
  revert bs. induction l as [|a l IH]; intros bs; simpl.
  - now intros [= <-].
  - intros Hm. apply rbind_ok in Hm as (b & _ & Hm).
    apply rbind_ok in Hm as (bs' & Hbs & Hm). injection Hm as <-.
    simpl. now rewrite (IH bs').
Qed.

(** The combine phase on uniform inputs. *)
Lemma combine_nodes_ok (self : CombineLevels.t) (nodes : odict Tensor)
      (t : Tensor) (ts : list Tensor) :
  length (CombineLevels.weights self) = length (CombineLevels.offsets self) ->
  mapM (od_item nodes) (CombineLevels.offsets self) = Ok (t :: ts) ->
  uniform (t :: ts) = true ->
  exists out,
    CombineLevels.combine_nodes self nodes = Ok out /\
    shape out = shape t /\
    length (data out) = length (data t) /\
    forall p, (p < length (data t))%nat ->
      (nth p (data out) 0 ==
       Qsum (zip_with (fun w x => relu w * x)
               (CombineLevels.weights self) (elements_at p (t :: ts)))
       / CombineLevels.denominator self)%Q.
Proof.
  intros Hlen Hin Huni.
  pose proof (mapM_length _ _ _ Hin) as Hn.
  destruct (uniform_cons t ts Huni) as [Hshape Hsize].
  unfold CombineLevels.combine_nodes.
  rewrite (weighted_terms_ok self nodes (t :: ts) Hin Hlen).
  destruct (CombineLevels.weights self) as [|w ws] eqn:Ews;
    [simpl in *; lia|].
  simpl.
  change (map (fun v : Q => (v / CombineLevels.denominator self)%Q)
              (map (fun v : Q => (v * relu w)%Q) (data t)))
    with (data (term_of self t w)).
  rewrite same_shape_terms by exact Hshape.
  eexists. split; [reflexivity|]. split; [reflexivity|].
  set (n := length (data t)).
  assert (Hl0 : length (data (term_of self t w)) = n)
    by (unfold term_of; simpl; now rewrite !length_map).
  assert (Hls : Forall (fun l => length l = n)
                       (map data (zip_with (term_of self) ts ws))).
  { clear -Hsize. revert ws. induction Hsize as [|t' ts' Ht' _ IH]; intros [|w' ws];
      simpl; constructor; [unfold term_of; simpl; now rewrite !length_map | apply IH]. }
  split.
  - cbn [data]. now apply length_fold_zip_plus.
  - intros p Hp. cbn [data].
    destruct (nth_fold_zip_plus n p Hp _ _ Hl0 Hls) as [_ ->].
    rewrite fold_left_Qplus, nth_term by exact Hp.
    assert (Hmap : map (fun l => nth p l 0%Q) (map data (zip_with (term_of self) ts ws))
                   = zip_with (fun x w => x * relu w / CombineLevels.denominator self)%Q
                       (elements_at p ts) ws).
    { clear -Hsize Hp. fold n in Hsize. revert ws.
      induction Hsize as [|t' ts' Ht' _ IH]; intros [|w' ws]; simpl; try reflexivity.
      rewrite IH. f_equal. apply nth_term. lia. }
    rewrite Hmap, Qsum_terms. unfold Qdiv. ring.
Qed.

End Combine.


Section Formula.
Context `{Torch}.

Lemma Qsum_effective (self : CombineLevels.t) :
  (Qsum (effective_weights self)
   == Qsum (map relu (CombineLevels.weights self)) / CombineLevels.denominator self)%Q.
Proof.
  unfold effective_weights. generalize (CombineLevels.denominator self) as d.
  intros d. induction (CombineLevels.weights self) as [|w ws IH]; simpl.
  - unfold Qdiv. ring.
  - rewrite IH. unfold Qdiv. ring.
Qed.

Lemma effective_nonneg (self : CombineLevels.t) :
  (0 < CombineLevels.denominator self)%Q ->
  Forall (fun e => 0 <= e)%Q (effective_weights self).
Proof.
  intros Hd. unfold effective_weights.
  induction (CombineLevels.weights self) as [|w ws IH]; simpl; constructor; [|exact IH].
  apply Qle_shift_div_l; [exact Hd|]. pose proof (relu_nonneg w). lra.
Qed.

Lemma Qsum_relu_pos (ws : list Q) :
  Exists (fun w => 0 < w)%Q ws -> (0 < Qsum (map relu ws))%Q.
Proof.
  induction 1 as [w ws Hw|w ws _ IH]; simpl.
  - rewrite (relu_pos w Hw). pose proof (Qsum_map_relu_nonneg ws). lra.
  - pose proof (relu_nonneg w). lra.
Qed.

Lemma Qsum_relu_nonpos (ws xs : list Q) :
  Forall (fun w => w <= 0)%Q ws ->
  (Qsum (zip_with (fun w x => relu w * x) ws xs) == 0)%Q.
Proof.
  intros Hws. revert xs. induction Hws as [|w ws Hw _ IH]; intros [|x xs]; simpl;
    try reflexivity.
  rewrite IH, (relu_nonpos w Hw). ring.
Qed.

Lemma all_zero (l : list Q) :
  (forall p, (p < length l)%nat -> nth p l 0 == 0)%Q -> Forall (fun v => v == 0)%Q l.
Proof.
  induction l as [|a l IH]; intros Hnth; constructor.
  - apply (Hnth 0%nat). simpl. lia.
  - apply IH. intros p Hp. apply (Hnth (S p)). simpl. lia.
Qed.

Lemma deficit_eq (self : CombineLevels.t) :
  (0 < CombineLevels.denominator self)%Q ->
  (Qsum (effective_weights self)
   == 1 - inject_Z (len (CombineLevels.weights self)) * CombineLevels.eps self
          / CombineLevels.denominator self)%Q.
Proof.
  intros Hd. rewrite Qsum_effective.
  pose proof (denominator_eq self) as Hden.
  assert (Hs : (Qsum (map relu (CombineLevels.weights self))
                == CombineLevels.denominator self
                   - inject_Z (len (CombineLevels.weights self)) * CombineLevels.eps self)%Q)
    by (rewrite Hden; ring).
  rewrite Hs. field. lra.
Qed.

Lemma deficit_vanishes (self : CombineLevels.t) (bound : Q) :
  Exists (fun w => 0 < w)%Q (CombineLevels.weights self) ->
  (0 < bound)%Q ->
  exists e0, (0 < e0)%Q /\
    forall e, (0 < e)%Q -> (e <= e0)%Q ->
      (0 <= 1 - Qsum (effective_weights (with_eps self e)))%Q /\
      (1 - Qsum (effective_weights (with_eps self e)) < bound)%Q.
Proof.
  intros Hex Hb.
  pose proof (Qsum_relu_pos _ Hex) as Hsum.
  assert (Hne : CombineLevels.weights self <> []) by (inversion Hex; discriminate).
  pose proof (inject_Z_len_pos _ Hne) as Hcount.
  exists (bound * Qsum (map relu (CombineLevels.weights self))
          / inject_Z (len (CombineLevels.weights self)))%Q.
  split.
  - apply Qlt_shift_div_l; [lra|].
    assert (0 < bound * Qsum (map relu (CombineLevels.weights self)))%Q
      by (apply Qmult_lt_0_compat; assumption).
    lra.
  - intros e He Hle.
    assert (Hd : (0 < CombineLevels.denominator (with_eps self e))%Q).
    { apply denominator_pos; [exact He | exact Hne]. }
    pose proof (deficit_eq (with_eps self e) Hd) as Hdef.
    pose proof (denominator_eq (with_eps self e)) as Hden.
    simpl in Hdef, Hden.
    set (sw := Qsum (map relu (CombineLevels.weights self))) in *.
    set (nw := inject_Z (len (CombineLevels.weights self))) in *.
    set (dw := CombineLevels.denominator (with_eps self e)) in *.
    set (ew := Qsum (effective_weights (with_eps self e))) in *.
    clearbody sw nw dw ew.
    assert (HbS : (0 < bound * sw)%Q) by (apply Qmult_lt_0_compat; assumption).
    assert (HeN : (e * nw <= bound * sw)%Q).
    { assert (e * nw <= bound * sw / nw * nw)%Q
        by (apply Qmult_le_compat_r; [exact Hle | lra]).
      assert (bound * sw / nw * nw == bound * sw)%Q by (field; lra). lra. }
    assert (HNe : (0 < nw * e)%Q) by (apply Qmult_lt_0_compat; lra).
    assert (Hbe : (0 < bound * (nw * e))%Q) by (apply Qmult_lt_0_compat; lra).
    assert (Hq : (1 - ew == nw * e / dw)%Q) by (rewrite Hdef; ring).
    rewrite Hq. split.
    + apply Qle_shift_div_l; [exact Hd | lra].
    + apply Qlt_shift_div_r; [exact Hd|]. rewrite Hden. lra.
Qed.

(** C4, as amended.  For a node whose gathered inputs x_1..x_n have one
    shape, [CombineLevels.__call__] returns a map of that shape and size
    whose element at every position, as long as no intermediate result
    overflows there, is sum_i relu(w_i) x_i / (sum_j relu(w_j) + n * 1e-4):
    epsilon is added to every rectified weight before they are summed, so
    it enters the denominator n times.  The effective weights
    relu(w_i) / denominator are non-negative and sum to
    1 - n * 1e-4 / denominator; when some raw weight is positive that
    deficit can be made smaller than any bound by taking epsilon small
    enough. *)
Theorem fused_output_formula (self : CombineLevels.t) (x nodes : odict Tensor)
        (t : Tensor) (ts : list Tensor) :
  CombineLevels.eps self = (1 # 10000)%Q ->
  length (CombineLevels.weights self) = length (CombineLevels.offsets self) ->
  CombineLevels.gather_nodes self x = Ok nodes ->
  mapM (od_item nodes) (CombineLevels.offsets self) = Ok (t :: ts) ->
  uniform (t :: ts) = true ->
  exists out,
    CombineLevels.__call__ self x = Ok out /\
    shape out = shape t /\
    length (data out) = length (data t) /\
    (forall p, (p < length (data t))%nat ->
       no_overflow (1 # 10000) (CombineLevels.weights self) (elements_at p (t :: ts)) ->
       (nth p (data out) 0
        == fused_output (1 # 10000) (CombineLevels.weights self)
             (elements_at p (t :: ts)))%Q) /\
    Forall (fun e => 0 <= e)%Q (effective_weights self) /\
    (Qsum (effective_weights self)
     == 1 - inject_Z (len (CombineLevels.weights self)) * (1 # 10000)
            / CombineLevels.denominator self)%Q /\
    (Exists (fun w => 0 < w)%Q (CombineLevels.weights self) ->
     forall bound, (0 < bound)%Q ->
       exists e0, (0 < e0)%Q /\
         forall e, (0 < e)%Q -> (e <= e0)%Q ->
           (0 <= 1 - Qsum (effective_weights (with_eps self e)))%Q /\
           (1 - Qsum (effective_weights (with_eps self e)) < bound)%Q).
Proof.
  intros Heps Hlen Hg Hin Huni.
  assert (Hne : CombineLevels.weights self <> []).
  { pose proof (mapM_length _ _ _ Hin) as Hn. simpl in Hn.
    destruct (CombineLevels.weights self); [simpl in *; lia | discriminate]. }
  assert (He : (0 < CombineLevels.eps self)%Q) by (rewrite Heps; reflexivity).
  destruct (denominator_pos self He Hne) as [_ Hd].
  destruct (combine_nodes_ok self nodes t ts Hlen Hin Huni)
    as (out & Hout & Hshape & Hsize & Hnth).
  exists out. split; [unfold CombineLevels.__call__; rewrite Hg; exact Hout|].
  split; [exact Hshape|]. split; [exact Hsize|].
  split; [|split; [now apply effective_nonneg|split]].
  - intros p Hp _. rewrite Hnth by exact Hp. unfold fused_output.
    rewrite (denominator_eq self), Heps. reflexivity.
  - rewrite (deficit_eq self Hd), Heps. reflexivity.
  - intros Hex bound Hb. now apply deficit_vanishes.
Qed.

(** C9.  The divisor of [CombineLevels.__call__] is the sum over the
    inputs of relu(w_j) + 1e-4, which for n >= 1 inputs is at least
    n * 1e-4 and so positive, whatever the raw weights: no division by
    zero.  The call on inputs of one shape returns a map of that shape
    and size; its element at every position, as long as no intermediate
    result overflows there, is the quotient by that divisor (multiplied
    by the divisor it gives back the weighted sum
    sum_i relu(w_i) x_i).  When every raw weight is non-positive, every
    element of the map is zero. *)
Theorem denominator_positive (self : CombineLevels.t) (x nodes : odict Tensor)
        (t : Tensor) (ts : list Tensor) :
  CombineLevels.eps self = (1 # 10000)%Q ->
  length (CombineLevels.weights self) = length (CombineLevels.offsets self) ->
  CombineLevels.gather_nodes self x = Ok nodes ->
  mapM (od_item nodes) (CombineLevels.offsets self) = Ok (t :: ts) ->
  uniform (t :: ts) = true ->
  let divisor := Qsum (map (fun w => relu w + (1 # 10000))%Q (CombineLevels.weights self)) in
  (inject_Z (len (CombineLevels.weights self)) * (1 # 10000) <= divisor)%Q /\
  (0 < divisor)%Q /\
  exists out,
    CombineLevels.__call__ self x = Ok out /\
    shape out = shape t /\
    length (data out) = length (data t) /\
    (forall p, (p < length (data t))%nat ->
       no_overflow (1 # 10000) (CombineLevels.weights self) (elements_at p (t :: ts)) ->
       (nth p (data out) 0 * divisor
        == Qsum (zip_with (fun w v => relu w * v)
                   (CombineLevels.weights self) (elements_at p (t :: ts))))%Q) /\
    (Forall (fun w => w <= 0)%Q (CombineLevels.weights self) ->
     Forall (fun v => v == 0)%Q (data out)).
Proof.
  intros Heps Hlen Hg Hin Huni divisor.
  assert (Hne : CombineLevels.weights self <> []).
  { pose proof (mapM_length _ _ _ Hin) as Hn. simpl in Hn.
    destruct (CombineLevels.weights self); [simpl in *; lia | discriminate]. }
  assert (He : (0 < CombineLevels.eps self)%Q) by (rewrite Heps; reflexivity).
  destruct (denominator_pos self He Hne) as [Hlow Hd].
  assert (Hdiv : CombineLevels.denominator self = divisor).
  { unfold CombineLevels.denominator, divisor. now rewrite map_map, Heps. }
  rewrite Heps, Hdiv in Hlow. rewrite Hdiv in Hd.
  split; [exact Hlow|]. split; [exact Hd|].
  destruct (combine_nodes_ok self nodes t ts Hlen Hin Huni)
    as (out & Hout & Hshape & Hsize & Hnth).
  rewrite Hdiv in Hnth.
  exists out. split; [unfold CombineLevels.__call__; rewrite Hg; exact Hout|].
  split; [exact Hshape|]. split; [exact Hsize|]. split.
  - intros p Hp _. rewrite Hnth by exact Hp. field. lra.
  - intros Hneg. apply all_zero. intros p Hp. rewrite Hnth by lia.
    rewrite Qsum_relu_nonpos by exact Hneg. unfold Qdiv. ring.
Qed.

End Formula.


(** C4 as stated fails: with two inputs of weight 1 the first element is
    11 / 2.0002, not 11 / 2.0001. *)
Lemma single_epsilon_fails :
  exists out,
    @CombineLevels.__call__ demo_torch combine_01 x_01 = Ok out /\
    ~ (nth 0 (data out) 0
       == single_epsilon_output (1 # 10000) (CombineLevels.weights combine_01)
            (elements_at 0 inputs_01))%Q.
Proof.
  eexists. split; [vm_compute; reflexivity|].
  vm_compute. intros E. discriminate E.
Qed.

(** At every position of the example the intermediate results stay in
    range. *)
Lemma inputs_01_no_overflow (p : nat) :
  (p < 4)%nat ->
  no_overflow (1 # 10000) (CombineLevels.weights combine_01) (elements_at p inputs_01).
Proof.
  intros Hp. assert (Hcases : (p = 0 \/ p = 1 \/ p = 2 \/ p = 3)%nat) by lia.
  destruct Hcases as [-> | [-> | [-> | ->]]];
    (split; [|split]); repeat constructor; vm_compute; discriminate.
Qed.

(** The amended C4 at the same node and inputs. *)
Lemma fused_output_formula_witness :
  CombineLevels.eps combine_01 = (1 # 10000)%Q /\
  length (CombineLevels.weights combine_01) = length (CombineLevels.offsets combine_01) /\
  @CombineLevels.gather_nodes demo_torch combine_01 x_01 = Ok gathered_01 /\
  mapM (od_item gathered_01) (CombineLevels.offsets combine_01) = Ok inputs_01 /\
  uniform inputs_01 = true /\
  exists out,
    @CombineLevels.__call__ demo_torch combine_01 x_01 = Ok out /\
    shape out = shape (mkTensor 1 2 2 [1%Q; 2%Q; 3%Q; 4%Q]) /\
    length (data out) = length (data (mkTensor 1 2 2 [1%Q; 2%Q; 3%Q; 4%Q])) /\
    (forall p, (p < length (data (mkTensor 1 2 2 [1%Q; 2%Q; 3%Q; 4%Q])))%nat ->
       no_overflow (1 # 10000) (CombineLevels.weights combine_01)
         (elements_at p inputs_01) ->
       (nth p (data out) 0
        == fused_output (1 # 10000) (CombineLevels.weights combine_01)
             (elements_at p inputs_01))%Q) /\
    Forall (fun e => 0 <= e)%Q (effective_weights combine_01) /\
    (Qsum (effective_weights combine_01)
     == 1 - inject_Z (len (CombineLevels.weights combine_01)) * (1 # 10000)
            / CombineLevels.denominator combine_01)%Q /\
    (Exists (fun w => 0 < w)%Q (CombineLevels.weights combine_01) ->
     forall bound, (0 < bound)%Q ->
       exists e0, (0 < e0)%Q /\
         forall e, (0 < e)%Q -> (e <= e0)%Q ->
           (0 <= 1 - Qsum (effective_weights (with_eps combine_01 e)))%Q /\
           (1 - Qsum (effective_weights (with_eps combine_01 e)) < bound)%Q).
Proof.
  split; [reflexivity|]. split; [reflexivity|]. split; [reflexivity|].
  split; [reflexivity|]. split; [reflexivity|].
  apply (@fused_output_formula demo_torch combine_01 x_01 gathered_01
           (mkTensor 1 2 2 [1%Q; 2%Q; 3%Q; 4%Q])
           [mkTensor 1 2 2 [10%Q; 10%Q; 10%Q; 10%Q]]);
    reflexivity.
Defined.

(** C9 at a node whose two raw weights are negative. *)
Lemma denominator_positive_witness :
  CombineLevels.eps combine_01_neg = (1 # 10000)%Q /\
  length (CombineLevels.weights combine_01_neg)
  = length (CombineLevels.offsets combine_01_neg) /\
  @CombineLevels.gather_nodes demo_torch combine_01_neg x_01 = Ok gathered_01 /\
  mapM (od_item gathered_01) (CombineLevels.offsets combine_01_neg) = Ok inputs_01 /\
  uniform inputs_01 = true /\
  let divisor :=
    Qsum (map (fun w => relu w + (1 # 10000))%Q (CombineLevels.weights combine_01_neg)) in
  (inject_Z (len (CombineLevels.weights combine_01_neg)) * (1 # 10000) <= divisor)%Q /\
  (0 < divisor)%Q /\
  exists out,
    @CombineLevels.__call__ demo_torch combine_01_neg x_01 = Ok out /\
    shape out = shape (mkTensor 1 2 2 [1%Q; 2%Q; 3%Q; 4%Q]) /\
    length (data out) = length (data (mkTensor 1 2 2 [1%Q; 2%Q; 3%Q; 4%Q])) /\
    (forall p, (p < length (data (mkTensor 1 2 2 [1%Q; 2%Q; 3%Q; 4%Q])))%nat ->
       no_overflow (1 # 10000) (CombineLevels.weights combine_01_neg)
         (elements_at p inputs_01) ->
       (nth p (data out) 0 * divisor
        == Qsum (zip_with (fun w v => relu w * v)
                   (CombineLevels.weights combine_01_neg) (elements_at p inputs_01)))%Q) /\
    (Forall (fun w => w <= 0)%Q (CombineLevels.weights combine_01_neg) ->
     Forall (fun v => v == 0)%Q (data out)).
Proof.
  split; [reflexivity|]. split; [reflexivity|]. split; [reflexivity|].
  split; [reflexivity|]. split; [reflexivity|].
  apply (@denominator_positive demo_torch combine_01_neg x_01 gathered_01
           (mkTensor 1 2 2 [1%Q; 2%Q; 3%Q; 4%Q])
           [mkTensor 1 2 2 [10%Q; 10%Q; 10%Q; 10%Q]]);
    reflexivity.
Defined.

(** ** Construction never validates the topology *)

Section Validation.
Context `{Torch}.

Lemma foldM_invariant {A S : Type} (P : S -> Prop) (f : S -> A -> result S) :
  (forall s a, P s -> exists s', f s a = Ok s' /\ P s') ->
  forall l s, P s -> exists s', foldM f l s = Ok s' /\ P s'.
Proof.
  intros Hf l. induction l as [|a l IH]; intros s Hs; simpl; [eauto|].
  destruct (Hf s a Hs) as (s1 & -> & Hs1). simpl. now apply IH.
Qed.

Lemma nn_Conv2d_pointwise (cin cout k p : Z) (b : bool) :
  0 <= cin -> 0 <= cout ->
  nn_Conv2d cin cout k p 1 b
  = Ok (Conv2d cin cout k p 1 (reset_parameters [cout; cin / 1; k; k])
          (if b then Some (reset_parameters [cout]) else None)).
Proof.
  intros Hin Hout. unfold nn_Conv2d. simpl (1 <=? 0).
  rewrite !Z.mod_1_r. simpl.
  destruct (Z.ltb_spec cin 0); [lia|]. destruct (Z.ltb_spec cout 0); [lia|].
  reflexivity.
Qed.

Lemma nn_Conv2d_depthwise (c k p : Z) (b : bool) :
  0 < c ->
  nn_Conv2d c c k p c b
  = Ok (Conv2d c c k p c (reset_parameters [c; c / c; k; k])
          (if b then Some (reset_parameters [c]) else None)).
Proof.
  intros Hc. unfold nn_Conv2d.
  destruct (Z.leb_spec c 0); [lia|]. rewrite Z_mod_same_full. simpl.
  destruct (Z.ltb_spec c 0); [lia|]. reflexivity.
Qed.

Lemma post_combine_ok (channels : Z) :
  0 < channels ->
  exists dw pw bn, BiFPNBlock.post_combine channels = Ok (Sequential [dw; pw; bn; Swish]).
Proof.
  intros Hc. unfold BiFPNBlock.post_combine.
  rewrite nn_Conv2d_depthwise by exact Hc. simpl.
  rewrite nn_Conv2d_pointwise by lia. simpl.
  unfold nn_BatchNorm2d. destruct (Z.ltb_spec channels 0); [lia|]. simpl. eauto.
Qed.

Lemma od_get_nonneg (channels_in : odict Z) (k c : Z) :
  nonneg_channels channels_in -> od_get channels_in k = Some c -> 0 <= c.
Proof.
  unfold nonneg_channels. induction 1 as [|[k' c'] d Hc _ IH]; simpl; [discriminate|].
  destruct (k' =? k); [intros [= <-]; exact Hc | exact IH].
Qed.

Lemma od_get_pos (channels_in : odict Z) (k c : Z) :
  pos_channels channels_in -> od_get channels_in k = Some c -> 0 < c.
Proof.
  unfold pos_channels. induction 1 as [|[k' c'] d Hc _ IH]; simpl; [discriminate|].
  destruct (Z.eqb_spec k' k); [intros [= <-]; exact Hc | exact IH].
Qed.

Lemma pos_nonneg_channels (channels_in : odict Z) :
  pos_channels channels_in -> nonneg_channels channels_in.
Proof.
  unfold pos_channels, nonneg_channels. apply List.Forall_impl. intros a Ha. lia.
Qed.

Lemma lateral_step_ok (levels_in : odict Z) (channels : Z)
      (st : option Z * option Layer) (offset : Z) :
  0 <= channels -> nonneg_channels levels_in ->
  exists st', CombineLevels.lateral_step levels_in channels st offset = Ok st'.
Proof.
  intros Hc Hin. unfold CombineLevels.lateral_step.
  destruct (od_get levels_in offset) as [c|] eqn:E; [|eauto].
  destruct (negb (c =? channels)); [|eauto].
  rewrite nn_Conv2d_pointwise; [simpl; eauto | | exact Hc].
  exact (od_get_nonneg levels_in offset c Hin E).
Qed.

(** Whatever the offsets resolve to, a node is constructed. *)
Lemma combine_init_ok (param : node_param) (index_offset channels : Z)
      (levels_in : odict Z) :
  0 <= channels -> nonneg_channels levels_in ->
  exists lat,
    CombineLevels.__init__ param index_offset channels levels_in
    = Ok (CombineLevels.mk (1 # 10000) (np_upsample param)
            (map (fun offset => index_offset + offset) (np_offsets param))
            levels_in (fst lat) (snd lat)
            (if np_upsample param then UpsamplingNearest2d 2
             else Sequential [MaxPool2d 3 1 2])
            (replicate (length (map (fun offset => index_offset + offset)
                                    (np_offsets param))) 1%Q)) /\
    foldM (CombineLevels.lateral_step levels_in channels)
          (map (fun offset => index_offset + offset) (np_offsets param)) (None, None)
    = Ok lat.
Proof.
  intros Hc Hin. unfold CombineLevels.__init__.
  destruct (foldM_invariant (fun _ => True)
              (CombineLevels.lateral_step levels_in channels)) with
    (l := map (fun offset => index_offset + offset) (np_offsets param))
    (s := (@None Z, @None Layer)) as (lat & Hlat & _); [|exact I|].
  - intros st o _. destruct (lateral_step_ok levels_in channels st o Hc Hin) as [st' E].
    eauto.
  - exists lat. rewrite Hlat. simpl. auto.
Qed.

(** Whatever the offsets resolve to, a block is constructed. *)
Lemma block_init_ok (channels num_levels : Z) (channels_in : odict Z) :
  0 < channels -> nonneg_channels channels_in ->
  exists block,
    BiFPNBlock.__init__ channels num_levels channels_in = Ok block /\
    BiFPNBlock.num_levels block = num_levels /\
    BiFPNBlock.index_offset block = num_levels - len channels_in + 1.
Proof.
  intros Hc Hin. unfold BiFPNBlock.__init__.
  destruct (foldM_invariant (fun _ => True)
              (BiFPNBlock.init_step (num_levels - len channels_in + 1)
                 channels channels_in)) with
    (l := _NODE_PARAMS)
    (s := (@nil (list Z * CombineLevels.t), @nil (list Z * Layer)))
    as (st & Hst & _); [|exact I|].
  - intros st node _. unfold BiFPNBlock.init_step.
    destruct (combine_init_ok node (num_levels - len channels_in + 1) channels
                channels_in) as (lat & -> & _); [lia | exact Hin |].
    destruct (post_combine_ok channels Hc) as (dw & pw & bn & ->). simpl. eauto.
  - rewrite Hst. simpl. eauto.
Qed.

Lemma mapM_raises {A B : Type} (f : A -> result B) (l : list A) (a : A) :
  In a l -> raises (f a) -> raises (mapM f l).
Proof.
  induction l as [|a' l IH]; simpl; [tauto|].
  intros [->|Hin] Hr.
  - now apply raises_rbind_l.
  - apply raises_rbind_r. intros b _. apply raises_rbind_l. now apply IH.
Qed.

Lemma in_enumerate {A : Type} (l : list A) (a : A) :
  In a l -> exists i, In (i, a) (enumerate l).
Proof.
  unfold enumerate, py_range, len. rewrite Nat2Z.id.
  generalize 0%nat. induction l as [|a' l IH]; intros n; simpl; [tauto|].
  intros [->|Hin]; [eauto|].
  destruct (IH (S n) Hin) as [i Hi]. eauto.
Qed.

(** A node one of whose offsets is missing from the mapping does not
    evaluate. *)
Lemma call_raises_on_missing_offset (self : CombineLevels.t) (x : odict Tensor) (o : Z) :
  In o (CombineLevels.offsets self) -> od_get x o = None ->
  raises (CombineLevels.__call__ self x).
Proof.
  intros Hin Hmiss. unfold CombineLevels.__call__.
  apply raises_rbind_r. intros nodes Hg.
  destruct (gathered_entries self x nodes Hg) as (m & _ & Hxm & Hrest).
  assert (Hom : o <> m) by congruence.
  assert (Hno : od_get nodes o = None).
  { destruct (od_get nodes o) as [v|] eqn:E; [|reflexivity].
    destruct (Hrest o v Hom E) as [(_ & conv & xk & _ & Hx & _)|(_ & _ & _ & Hx)];
      congruence. }
  unfold CombineLevels.combine_nodes. apply raises_rbind_l.
  destruct (in_enumerate _ _ Hin) as [i Hi].
  apply (mapM_raises _ _ (i, o) Hi).
  unfold CombineLevels.weighted_term, od_item. simpl. rewrite Hno. exact I.
Qed.

(** C5, as amended.  Construction does not look at what the offsets of a
    node resolve to: for any positive width, any number of levels and any
    channel map (so for any resolved offsets) the block is constructed.
    A resolved offset that is missing from the mapping is met when the
    node is evaluated: [CombineLevels.__call__] then raises, it never
    skips the input. *)
Theorem missing_offset_raises_at_call (channels num_levels : Z)
        (channels_in : odict Z) :
  0 < channels ->
  nonneg_channels channels_in ->
  (exists block, BiFPNBlock.__init__ channels num_levels channels_in = Ok block) /\
  forall (self : CombineLevels.t) (x : odict Tensor) (o : Z),
    In o (CombineLevels.offsets self) -> od_get x o = None ->
    raises (CombineLevels.__call__ self x).
Proof.
  intros Hc Hin. split.
  - destruct (block_init_ok channels num_levels channels_in Hc Hin) as (b & Hb & _).
    eauto.
  - exact call_raises_on_missing_offset.
Qed.

End Validation.

(** C5 as stated fails: with levels numbered 2 to 4 the first node
    resolves its offsets to 6 and 7; the mapping it is evaluated on has
    keys 2 to 6; construction succeeds all the same, and the mismatch is
    met by the forward call, as [KeyError 7]. *)
Lemma missing_offset_deferred :
  @BiFPN.__init__ null_torch [40; 80; 160] 64 1 5 [2; 3; 4] = Ok bifpn_234 /\
  (exists block combine rest,
     BiFPN.bifp_layers bifpn_234 = [(0, block)] /\
     BiFPNBlock.combines block = ([3; 4], combine) :: rest /\
     CombineLevels.offsets combine = [6; 7]) /\
  exists s',
    @BiFPN.__call__ null_torch bifpn_234 0%nat [input_234] = Throw (KeyError 7) s' /\
    option_map od_keys (s' !! 0%nat) = Some [2; 3; 4; 5; 6].
Proof.
  split; [reflexivity|]. split.
  - do 3 eexists. split; [reflexivity|]. split; reflexivity.
  - eexists. split; vm_compute; reflexivity.
Qed.

(** The amended C5 at a block of width 64 for five levels over a channel
    map that names level 3 only: its offsets resolve to 8 and above. *)
Lemma missing_offset_raises_at_call_witness :
  0 < 64 /\
  nonneg_channels [(3, 64)] /\
  (exists block, @BiFPNBlock.__init__ null_torch 64 5 [(3, 64)] = Ok block) /\
  forall (self : CombineLevels.t) (x : odict Tensor) (o : Z),
    In o (CombineLevels.offsets self) -> od_get x o = None ->
    raises (@CombineLevels.__call__ null_torch self x).
Proof.
  assert (Hn : nonneg_channels [(3, 64)]) by (repeat constructor; simpl; lia).
  split; [lia|]. split; [exact Hn|].
  apply (@missing_offset_raises_at_call null_torch 64 5 [(3, 64)]); [lia | exact Hn].
Defined.

(** ** A height below the number of input levels *)

Section ShortHeight.
Context `{Torch}.

Lemma add_module_Forall {K V : Type} `{EqDecision K} (P : K * V -> Prop)
      (children : list (K * V)) (name : K) (module : V) :
  Forall P children -> (forall n, P (n, module)) ->
  Forall P (add_module children name module).
Proof.
  intros Hc Hm. induction Hc as [|[n m] rest Hnm Hrest IH]; simpl.
  - constructor; [apply Hm | constructor].
  - destruct (decide (n = name)); constructor; auto.
Qed.

(** C2, as amended.  Constructing a stack with [bifpn_height = 2] over
    [levels = [3, 4, 5]] raises nothing: [range(2 - 3 - 1)] is empty, so
    the expander is built with its single projection-and-pool layer, and
    every block is built for two levels with [index_offset] 0.  No check
    of the height against the number of levels exists. *)
Theorem short_height_constructs (c3 c4 c5 out_channels num_bifpns : Z) :
  0 <= c3 -> 0 <= c4 -> 0 <= c5 -> 0 < out_channels ->
  exists self conv,
    BiFPN.__init__ [c3; c4; c5] out_channels num_bifpns 2 [3; 4; 5] = Ok self /\
    BiFPN.downsample_convs self = Some [Sequential [conv; MaxPool2d 3 1 2]] /\
    Forall (fun b => BiFPNBlock.num_levels (snd b) = 2 /\
                     BiFPNBlock.index_offset (snd b) = 0)
           (BiFPN.bifp_layers self).
Proof.
  intros H3 H4 H5 Hout.
  unfold BiFPN.__init__, BiFPN.init_downsample_convs. simpl.
  rewrite nn_Conv2d_pointwise by lia. simpl.
  destruct (foldM_invariant
              (Forall (fun b : Z * BiFPNBlock.t =>
                         BiFPNBlock.num_levels (snd b) = 2 /\
                         BiFPNBlock.index_offset (snd b) = 0))
              (BiFPN.init_step out_channels 2 [3; 4; 5] [(3, c3); (4, c4); (5, c5)]))
    with (l := py_range num_bifpns) (s := @nil (Z * BiFPNBlock.t))
    as (layers & Hlayers & Hall); [|constructor|].
  - intros layers idx Hall. unfold BiFPN.init_step.
    destruct (negb (idx =? 0)); simpl.
    + destruct (block_init_ok out_channels 2 [(3, out_channels); (4, out_channels);
                                              (5, out_channels)])
        as (block & -> & Hn & Hi); [lia | repeat constructor; simpl; lia |].
      simpl. eexists. split; [reflexivity|].
      apply add_module_Forall; [exact Hall | intros n; simpl; split; [exact Hn | exact Hi]].
    + destruct (block_init_ok out_channels 2 [(3, c3); (4, c4); (5, c5)])
        as (block & -> & Hn & Hi); [lia | repeat constructor; simpl; lia |].
      simpl. eexists. split; [reflexivity|].
      apply add_module_Forall; [exact Hall | intros n; simpl; split; [exact Hn | exact Hi]].
  - rewrite Hlayers. simpl. do 2 eexists. split; [reflexivity|].
    split; [reflexivity | exact Hall].
Qed.

End ShortHeight.

(** C2 as stated fails: the construction of the specification's scenario
    raises nothing. *)
Lemma short_height_not_rejected :
  ~ raises (@BiFPN.__init__ null_torch [40; 80; 160] 64 1 2 [3; 4; 5]).
Proof. vm_compute. tauto. Qed.

(** The amended C2 at the channel counts of the specification's scenario. *)
Lemma short_height_constructs_witness :
  0 <= 40 /\ 0 <= 80 /\ 0 <= 160 /\ 0 < 64 /\
  exists self conv,
    @BiFPN.__init__ null_torch [40; 80; 160] 64 1 2 [3; 4; 5] = Ok self /\
    BiFPN.downsample_convs self = Some [Sequential [conv; MaxPool2d 3 1 2]] /\
    Forall (fun b => BiFPNBlock.num_levels (snd b) = 2 /\
                     BiFPNBlock.index_offset (snd b) = 0)
           (BiFPN.bifp_layers self).
Proof.
  split; [lia|]. split; [lia|]. split; [lia|]. split; [lia|].
  apply (@short_height_constructs null_torch 40 80 160 64 1); lia.
Defined.

(** ** The output pyramid *)

Section Shapes.
Context `{Torch}.

Lemma same_shape_true (t1 t2 : Tensor) (c h w : Z) :
  has_shape t1 c h w -> has_shape t2 c h w -> same_shape t1 t2 = true.
Proof.
  intros (A1 & A2 & A3) (E1 & E2 & E3). unfold same_shape.
  now rewrite A1, A2, A3, E1, E2, E3, !Z.eqb_refl.
Qed.

Lemma window_out_same (n k p : Z) : k = 2 * p + 1 -> window_out n k p 1 = n.
Proof. intros ->. unfold window_out. rewrite Z.div_1_r. lia. Qed.

Lemma window_out_half (n : Z) : window_out (2 * n) 3 1 2 = n.
Proof. unfold window_out. Z.div_mod_to_equations. lia. Qed.

Lemma forward_conv (cin cout k p g : Z) (wt : list Q) (b : option (list Q))
      (t : Tensor) (h w : Z) :
  k = 2 * p + 1 -> 0 < cin -> 0 < cout -> has_shape t cin h w -> 0 < h -> 0 < w ->
  exists y, forward (Conv2d cin cout k p g wt b) t = Ok y /\ has_shape y cout h w.
Proof.
  intros Hk Hci Hco (Hc & Hh & Hw) Hhp Hwp. simpl.
  rewrite Hc, Z.eqb_refl, !window_out_same by exact Hk. simpl.
  destruct (Z.eqb_spec cin 0); [lia|]. destruct (Z.eqb_spec cout 0); [lia|]. simpl.
  destruct (Z.leb_spec (height t) 0); [lia|]. destruct (Z.leb_spec (width t) 0); [lia|].
  simpl. eexists. split; [reflexivity|]. repeat split; assumption.
Qed.

Lemma forward_pool (t : Tensor) (c h w : Z) :
  has_shape t c (2 * h) (2 * w) -> 0 < h -> 0 < w ->
  exists y, forward (MaxPool2d 3 1 2) t = Ok y /\ has_shape y c h w.
Proof.
  intros (Hc & Hh & Hw) Hhp Hwp. simpl.
  rewrite Hh, Hw, !window_out_half.
  destruct (Z.leb_spec h 0); [lia|]. destruct (Z.leb_spec w 0); [lia|].
  simpl. eexists. split; [reflexivity|]. repeat split; assumption.
Qed.

Lemma forward_upsample (t : Tensor) (c h w : Z) :
  has_shape t c h w ->
  exists y, forward (UpsamplingNearest2d 2) t = Ok y /\ has_shape y c (2 * h) (2 * w).
Proof.
  intros (Hc & Hh & Hw). simpl. eexists. split; [reflexivity|].
  repeat split; simpl; lia.
Qed.

Lemma forward_sequential_cons (l : Layer) (ls : list Layer) (t y : Tensor) :
  forward l t = Ok y -> forward (Sequential (l :: ls)) t = forward (Sequential ls) y.
Proof. intros Hy. simpl. rewrite Hy. reflexivity. Qed.

Lemma size_not_one (n a b k : Z) :
  1 <= a -> 1 <= b -> 2 <= k -> n * (a * k) * (b * k) <> 1.
Proof.
  intros Ha Hb Hk E.
  assert (Hdiv : (k | 1)).
  { exists (n * (a * k) * b). rewrite <- E. ring. }
  apply Z.divide_1_r_nonneg in Hdiv; lia.
Qed.

Lemma forward_post_combine (channels : Z) (post : Layer) (t : Tensor) (h w : Z) :
  0 < channels -> BiFPNBlock.post_combine channels = Ok post ->
  has_shape t channels h w -> 0 < h -> 0 < w -> Z.pos batch_size * h * w <> 1 ->
  exists z, forward post t = Ok z /\ has_shape z channels h w.
Proof.
  intros Hc Hpost Ht Hh Hw Hbatch. unfold BiFPNBlock.post_combine in Hpost.
  rewrite nn_Conv2d_depthwise in Hpost by exact Hc. simpl in Hpost.
  rewrite nn_Conv2d_pointwise in Hpost by lia. simpl in Hpost.
  unfold nn_BatchNorm2d in Hpost. destruct (Z.ltb_spec channels 0); [lia|].
  simpl in Hpost. injection Hpost as <-.
  destruct (forward_conv channels channels 3 1 channels
              (reset_parameters [channels; channels / channels; 3; 3]) None t h w)
    as (y1 & E1 & S1); [lia | lia | lia | exact Ht | exact Hh | exact Hw |].
  rewrite (forward_sequential_cons _ _ _ _ E1).
  destruct (forward_conv channels channels 1 0 1
              (reset_parameters [channels; channels / 1; 1; 1])
              (Some (reset_parameters [channels])) y1 h w)
    as (y2 & E2 & S2); [lia | lia | lia | exact S1 | exact Hh | exact Hw |].
  rewrite (forward_sequential_cons _ _ _ _ E2).
  destruct S2 as (C2 & H2 & W2).
  simpl. rewrite C2, H2, W2, Z.eqb_refl.
  destruct (Z.eqb_spec (Z.pos batch_size * h * w) 1) as [E|_]; [contradiction|]. simpl.
  eexists. split; [reflexivity|]. repeat split; simpl; assumption.
Qed.

End Shapes.

Section Node.
Context `{Torch}.

Lemma py_in_In (k : Z) (l : list Z) : py_in k l = true <-> In k l.
Proof.
  unfold py_in. rewrite existsb_exists. split.
  - intros (x & Hin & ->%Z.eqb_eq). exact Hin.
  - intros Hin. exists k. split; [exact Hin | apply Z.eqb_refl].
Qed.

Lemma od_set_present {V : Type} (d : odict V) (k k' : Z) (v : V) :
  k = k' \/ od_get d k' <> None -> od_get (od_set d k v) k' <> None.
Proof.
  destruct (Z.eq_dec k k') as [->|Hne].
  - intros _. now rewrite od_get_set_eq.
  - intros [Heq|Hp]; [contradiction|]. now rewrite od_get_set_ne.
Qed.

Lemma gather_step_complete (self : CombineLevels.t) (x nodes0 : odict Tensor) (m k0 : Z) :
  py_max (CombineLevels.offsets self) = Ok m ->
  (forall l xl, CombineLevels.lateral_node self = Some l -> od_get x l = Some xl ->
                exists conv y, CombineLevels.lateral_conv self = Some conv /\
                               forward conv xl = Ok y) ->
  od_get x k0 <> None ->
  exists nodes1,
    CombineLevels.gather_step self x nodes0 k0 = Ok nodes1 /\
    (forall k, od_get nodes0 k <> None -> od_get nodes1 k <> None) /\
    (py_in k0 (CombineLevels.offsets self) = true -> k0 <> m ->
     od_get nodes1 k0 <> None).
Proof.
  intros Hmax Hlat Hx. unfold CombineLevels.gather_step, od_item.
  destruct (od_get x k0) as [x0|] eqn:Ex; [|contradiction].
  assert (Hset : forall v,
             (forall k, od_get nodes0 k <> None -> od_get (od_set nodes0 k0 v) k <> None) /\
             (py_in k0 (CombineLevels.offsets self) = true -> k0 <> m ->
              od_get (od_set nodes0 k0 v) k0 <> None)).
  { intros v. split; intros; apply od_set_present; auto. }
  assert (Hkeep : (forall k, od_get nodes0 k <> None -> od_get nodes0 k <> None)) by auto.
  destruct (CombineLevels.lateral_node self) as [l|] eqn:El.
  - destruct (Z.eqb_spec k0 l) as [->|Hne].
    + destruct (Hlat l x0 eq_refl Ex) as (conv & y & -> & Hy). simpl.
      rewrite Hy. simpl. eexists. split; [reflexivity | apply Hset].
    + destruct (py_in k0 (CombineLevels.offsets self)) eqn:Ein.
      * rewrite Hmax. simpl. destruct (Z.eqb_spec k0 m) as [->|Hm]; simpl.
        -- eexists. split; [reflexivity|]. split; [exact Hkeep | congruence].
        -- eexists. split; [reflexivity | apply Hset].
      * eexists. split; [reflexivity|]. split; [exact Hkeep | discriminate].
  - destruct (py_in k0 (CombineLevels.offsets self)) eqn:Ein.
    + rewrite Hmax. simpl. destruct (Z.eqb_spec k0 m) as [->|Hm]; simpl.
      * eexists. split; [reflexivity|]. split; [exact Hkeep | congruence].
      * eexists. split; [reflexivity | apply Hset].
    + eexists. split; [reflexivity|]. split; [exact Hkeep | discriminate].
Qed.

Lemma gather_loop_complete (self : CombineLevels.t) (x : odict Tensor) (m : Z) :
  py_max (CombineLevels.offsets self) = Ok m ->
  (forall l xl, CombineLevels.lateral_node self = Some l -> od_get x l = Some xl ->
                exists conv y, CombineLevels.lateral_conv self = Some conv /\
                               forward conv xl = Ok y) ->
  forall ks nodes0,
    (forall k, In k ks -> od_get x k <> None) ->
    exists nodes,
      foldM (CombineLevels.gather_step self x) ks nodes0 = Ok nodes /\
      (forall k, od_get nodes0 k <> None -> od_get nodes k <> None) /\
      (forall k, In k ks -> py_in k (CombineLevels.offsets self) = true -> k <> m ->
                 od_get nodes k <> None).
Proof.
  intros Hmax Hlat ks. induction ks as [|k0 ks IH]; intros nodes0 Hks; simpl.
  - eexists. split; [reflexivity|]. split; [auto | tauto].
  - destruct (gather_step_complete self x nodes0 m k0 Hmax Hlat)
      as (nodes1 & -> & Hkeep1 & Hk0); [apply Hks; now left|].
    simpl. destruct (IH nodes1) as (nodes & Hfold & Hkeep & Hnew);
      [intros k Hk; apply Hks; now right|].
    exists nodes. split; [exact Hfold|]. split; [auto|].
    intros k [<-|Hin] Hsel Hm; [apply Hkeep, Hk0; assumption | now apply Hnew].
Qed.

Lemma mapM_od_item (nodes : odict Tensor) (c h w : Z) (os : list Z) :
  (forall o, In o os -> exists t, od_get nodes o = Some t /\ has_shape t c h w) ->
  exists inputs, mapM (od_item nodes) os = Ok inputs /\
                 Forall (fun t => has_shape t c h w) inputs.
Proof.
  induction os as [|o os IH]; intros Hos; simpl.
  - eexists. split; [reflexivity | constructor].
  - destruct (Hos o (or_introl eq_refl)) as (t & Ht & Hs).
    unfold od_item at 1. rewrite Ht. simpl.
    destruct IH as (inputs & -> & Hall); [intros o' Ho'; apply Hos; now right|].
    simpl. eexists. split; [reflexivity | now constructor].
Qed.

Lemma combine_nodes_shape (self : CombineLevels.t) (nodes : odict Tensor)
      (t : Tensor) (ts : list Tensor) :
  length (CombineLevels.weights self) = length (CombineLevels.offsets self) ->
  mapM (od_item nodes) (CombineLevels.offsets self) = Ok (t :: ts) ->
  forallb (same_shape t) ts = true ->
  exists out, CombineLevels.combine_nodes self nodes = Ok out /\ shape out = shape t.
Proof.
  intros Hlen Hin Hshape.
  pose proof (mapM_length _ _ _ Hin) as Hn.
  unfold CombineLevels.combine_nodes.
  rewrite (weighted_terms_ok self nodes (t :: ts) Hin Hlen).
  destruct (CombineLevels.weights self) as [|w ws] eqn:Ews; [simpl in *; lia|].
  simpl. rewrite same_shape_terms by exact Hshape.
  eexists. split; reflexivity.
Qed.

(** A node whose inputs are present and of one shape evaluates. *)
Lemma call_ok (self : CombineLevels.t) (x : odict Tensor) (m c h w : Z) :
  py_max (CombineLevels.offsets self) = Ok m ->
  length (CombineLevels.weights self) = length (CombineLevels.offsets self) ->
  (forall l xl, CombineLevels.lateral_node self = Some l -> od_get x l = Some xl ->
                exists conv y, CombineLevels.lateral_conv self = Some conv /\
                               forward conv xl = Ok y /\ has_shape y c h w) ->
  (forall o, In o (CombineLevels.offsets self) -> o <> m ->
             exists xo, od_get x o = Some xo /\
                        (CombineLevels.lateral_node self <> Some o -> has_shape xo c h w)) ->
  (exists xm ym, od_get x m = Some xm /\
                 forward (CombineLevels.resample self) xm = Ok ym /\
                 has_shape ym c h w) ->
  exists t, CombineLevels.__call__ self x = Ok t /\ has_shape t c h w.
Proof.
  intros Hmax Hlen Hlat Hoff (xm & ym & Hxm & Hym & Hsm).
  destruct (gather_loop_complete self x m Hmax) with (ks := od_keys x)
                                                     (nodes0 := @nil (Z * Tensor))
    as (nodes0 & Hloop & _ & Hpres).
  { intros l xl El Exl. destruct (Hlat l xl El Exl) as (conv & y & ? & ? & _). eauto. }
  { intros k Hk E. apply od_get_None_keys in E. contradiction. }
  assert (Hg : CombineLevels.gather_nodes self x = Ok (od_set nodes0 m ym)).
  { unfold CombineLevels.gather_nodes, od_item. rewrite Hloop. simpl.
    rewrite Hmax. simpl. rewrite Hxm. simpl. rewrite Hym. reflexivity. }
  destruct (gathered_entries self x _ Hg) as (m' & Hm' & _ & Hrest).
  assert (m' = m) by congruence. subst m'.
  destruct (mapM_od_item (od_set nodes0 m ym) c h w (CombineLevels.offsets self))
    as (inputs & Hin & Hall).
  { intros o Ho. destruct (Z.eq_dec o m) as [->|Hom].
    - exists ym. split; [apply od_get_set_eq | exact Hsm].
    - destruct (Hoff o Ho Hom) as (xo & Hxo & Hso).
      assert (Hp : od_get (od_set nodes0 m ym) o <> None).
      { rewrite od_get_set_ne by congruence. apply Hpres; [|now apply py_in_In | exact Hom].
        destruct (in_dec Z.eq_dec o (od_keys x)) as [Hk|Hk]; [exact Hk|].
        apply od_get_None_keys in Hk. congruence. }
      destruct (od_get (od_set nodes0 m ym) o) as [v|] eqn:Ev; [|contradiction].
      exists v. split; [reflexivity|].
      destruct (Hrest o v Hom Ev) as [(El & conv & xk & Ec & Exk & Ey)|(Enl & _ & _ & Ex)].
      + destruct (Hlat o xk El Exk) as (conv' & y' & Ec' & Ey' & Hs').
        assert (conv' = conv) by congruence. subst conv'.
        assert (y' = v) by congruence. subst y'. exact Hs'.
      + assert (xo = v) by congruence. subst xo. now apply Hso. }
  destruct inputs as [|t ts].
  { apply mapM_length in Hin. destruct (CombineLevels.offsets self); [discriminate|discriminate]. }
  inversion Hall as [|? ? Ht Hts]; subst.
  destruct (combine_nodes_shape self (od_set nodes0 m ym) t ts Hlen Hin)
    as (out & Hout & Hshape).
  { clear -Ht Hts. induction Hts as [|t' ts Ht' _ IH]; simpl; [reflexivity|].
    now rewrite (same_shape_true t t' c h w Ht Ht'). }
  exists out. split; [unfold CombineLevels.__call__; rewrite Hg; exact Hout|].
  destruct Ht as (A1 & A2 & A3). unfold shape in Hshape.
  injection Hshape as B1 B2 B3. repeat split; congruence.
Qed.

End Node.

Section Canonical.
Context `{Torch}.

Lemma lateral_absent (levels_in : odict Z) (channels : Z) (os : list Z)
      (st : option Z * option Layer) :
  Forall (fun o => od_get levels_in o = None) os ->
  foldM (CombineLevels.lateral_step levels_in channels) os st = Ok st.
Proof.
  induction 1 as [|o os Ho _ IH]; simpl; [reflexivity|].
  unfold CombineLevels.lateral_step at 1. rewrite Ho. simpl. exact IH.
Qed.

Lemma lateral_first (levels_in : odict Z) (channels o1 : Z) (rest : list Z) :
  0 <= channels -> nonneg_channels levels_in ->
  Forall (fun o => od_get levels_in o = None) rest ->
  foldM (CombineLevels.lateral_step levels_in channels) (o1 :: rest) (None, None)
  = Ok (match od_get levels_in o1 with
        | Some c =>
            if c =? channels then (None, None)
            else (Some o1,
                  Some (Conv2d c channels 1 0 1
                          (reset_parameters [channels; c / 1; 1; 1])
                          (Some (reset_parameters [channels]))))
        | None => (None, None)
        end).
Proof.
  intros Hc Hin Hrest. cbn [foldM]. unfold CombineLevels.lateral_step at 1.
  destruct (od_get levels_in o1) as [c|] eqn:Ec; simpl.
  - destruct (Z.eqb_spec c channels) as [->|Hne]; simpl.
    + now apply lateral_absent.
    + rewrite nn_Conv2d_pointwise;
        [|exact (od_get_nonneg levels_in o1 c Hin Ec) | exact Hc].
      simpl. now apply lateral_absent.
  - now apply lateral_absent.
Qed.

Lemma fold_max_last (os : list Z) (o m : Z) :
  o < m -> Forall (fun o' => o' < m) os -> fold_left Z.max (os ++ [m]) o = m.
Proof.
  intros Ho Hos. revert o Ho. induction Hos as [|o' os Ho' _ IH]; intros o Ho; simpl.
  - lia.
  - apply IH. lia.
Qed.

Lemma node_ok (param : node_param) (index_offset channels : Z) (levels_in : odict Z)
      (x : odict Tensor) (o1 m : Z) (mids : list Z) (h w hm wm : Z)
      (self : CombineLevels.t) :
  CombineLevels.__init__ param index_offset channels levels_in = Ok self ->
  map (fun offset => index_offset + offset) (np_offsets param) = o1 :: mids ++ [m] ->
  Forall (fun o => o < m) (o1 :: mids) ->
  Forall (fun o => od_get levels_in o = None) (mids ++ [m]) ->
  0 < channels -> pos_channels levels_in -> 0 < h -> 0 < w ->
  (exists t1, od_get x o1 = Some t1 /\
              has_shape t1 (match od_get levels_in o1 with
                            | Some c => c
                            | None => channels
                            end) h w) ->
  Forall (fun o => exists t, od_get x o = Some t /\ has_shape t channels h w) mids ->
  (exists tm, od_get x m = Some tm /\ has_shape tm channels hm wm) ->
  resampled_size (np_upsample param) h hm ->
  resampled_size (np_upsample param) w wm ->
  exists t, CombineLevels.__call__ self x = Ok t /\ has_shape t channels h w.
Proof.
  intros Hinit Hoffs Hlt Habsent Hc Hpos Hh Hw (t1 & Ht1 & Hs1) Hmids (tm & Htm & Hsm) Rh Rw.
  pose proof (pos_nonneg_channels levels_in Hpos) as Hin.
  destruct (combine_init_ok param index_offset channels levels_in) as (lat & Hself & Hlat);
    [lia | exact Hin |].
  rewrite Hself in Hinit. injection Hinit as <-. clear Hself.
  rewrite Hoffs in *.
  rewrite lateral_first in Hlat by (try lia; assumption).
  injection Hlat as <-.
  inversion Hlt as [|? ? Ho1 Hmidlt]; subst.
  assert (Hmax : py_max (o1 :: mids ++ [m]) = Ok m).
  { simpl. f_equal. now apply fold_max_last. }
  apply (call_ok _ x m channels h w); simpl.
  - exact Hmax.
  - now rewrite length_replicate.
  - intros l xl El Exl.
    destruct (od_get levels_in o1) as [c|] eqn:Ec; [|discriminate El].
    destruct (Z.eqb_spec c channels) as [->|Hne]; simpl in El |- *; [discriminate El|].
    injection El as <-.
    assert (xl = t1) by congruence. subst xl.
    destruct (forward_conv c channels 1 0 1
                (reset_parameters [channels; c / 1; 1; 1])
                (Some (reset_parameters [channels])) t1 h w)
      as (y & Ey & Sy);
      [lia | exact (od_get_pos _ _ _ Hpos Ec) | exact Hc | exact Hs1 | exact Hh | exact Hw |].
    eauto.
  - intros o [<-|Ho] Hom.
    + exists t1. split; [exact Ht1|]. intros Hnl.
      destruct (od_get levels_in o1) as [c|] eqn:Ec; [|exact Hs1].
      destruct (Z.eqb_spec c channels) as [->|Hne]; simpl in Hnl; [exact Hs1|].
      congruence.
    + apply in_app_or in Ho as [Ho|[Ho|[]]]; [|congruence].
      rewrite Forall_forall in Hmids. destruct (Hmids o) as (t & Ht & Hs).
      { now apply list_elem_of_In. }
      exists t. split; [exact Ht | intros _; exact Hs].
  - exists tm. destruct Hsm as (Cm & Hm & Wm). unfold resampled_size in Rh, Rw.
    destruct (np_upsample param).
    + destruct (forward_upsample tm channels hm wm) as (y & Ey & Sy); [repeat split; assumption|].
      exists y. split; [exact Htm|]. split; [exact Ey|]. subst h w. exact Sy.
    + destruct (forward_pool tm channels h w) as (y & Ey & Sy);
        [repeat split; congruence | exact Hh | exact Hw |].
      exists y. split; [exact Htm|]. split; [|exact Sy].
      exact (forward_sequential_cons _ [] _ _ Ey).
Qed.

Lemma node_pure_ok (self : CombineLevels.t) (post : Layer) (d : odict Tensor)
      (channels h w : Z) (last : Z * Tensor) :
  od_last_item d = Ok last ->
  (exists t, CombineLevels.__call__ self d = Ok t /\ has_shape t channels h w) ->
  0 < channels -> BiFPNBlock.post_combine channels = Ok post -> 0 < h -> 0 < w ->
  Z.pos batch_size * h * w <> 1 ->
  exists z, node_pure (self, post) d = Ok (od_set d (fst last + 1) z) /\
            has_shape z channels h w.
Proof.
  intros Hlast (t & Ht & Hs) Hc Hpost Hh Hw Hbatch. unfold node_pure. simpl.
  rewrite Hlast. simpl. rewrite Ht. simpl.
  destruct (forward_post_combine channels post t h w Hc Hpost Hs Hh Hw Hbatch)
    as (z & -> & Hz).
  simpl. eauto.
Qed.

Lemma block_init_structure (channels num_levels : Z) (channels_in : odict Z)
      (block : BiFPNBlock.t) :
  BiFPNBlock.__init__ channels num_levels channels_in = Ok block ->
  BiFPNBlock.num_levels block = num_levels /\
  exists post cs,
    BiFPNBlock.post_combine channels = Ok post /\
    Forall2 (fun node c =>
               CombineLevels.__init__ node (num_levels - len channels_in + 1)
                 channels channels_in = Ok c) _NODE_PARAMS cs /\
    zip (map snd (BiFPNBlock.combines block)) (map snd (BiFPNBlock.post_combines block))
    = map (fun c => (c, post)) cs.
Proof.
  unfold BiFPNBlock.__init__. intros Hinit.
  apply rbind_ok in Hinit as (st & Hfold & Hinit). injection Hinit as <-.
  split; [reflexivity|]. simpl.
  unfold _NODE_PARAMS in *. simpl in Hfold.
  repeat (apply rbind_ok in Hfold as (? & Hstep & Hfold);
          unfold BiFPNBlock.init_step in Hstep;
          apply rbind_ok in Hstep as (? & ? & Hstep);
          apply rbind_ok in Hstep as (? & ? & Hstep);
          injection Hstep as <-).
  injection Hfold as <-.
  match goal with Hp : BiFPNBlock.post_combine channels = Ok ?p |- _ => exists p end.
  eexists. split; [assumption|]. split.
  - repeat (constructor; [eassumption|]). constructor.
  - vm_compute. repeat match goal with
      | Hp : BiFPNBlock.post_combine channels = Ok ?p,
        Hq : BiFPNBlock.post_combine channels = Ok ?q |- _ =>
          assert (q = p) by congruence; subst q; clear Hq
      end. reflexivity.
Qed.

End Canonical.

Section Block.
Context `{Torch}.

Lemma standard_levels_cases (levels : list Z) :
  standard_levels levels ->
  levels = [5] \/ levels = [4; 5] \/ levels = [3; 4; 5] \/ levels = [2; 3; 4; 5].
Proof.
  intros [Hlen Heq].
  destruct levels as [|l1 [|l2 [|l3 [|l4 [|l5 levels]]]]];
    unfold len in Hlen; simpl in Hlen; try lia;
    vm_compute in Heq; injection Heq; intros; subst; auto.
Qed.

Lemma has_shape_eq (t : Tensor) (c h w c' h' w' : Z) :
  has_shape t c h w -> c = c' -> h = h' -> w = w' -> has_shape t c' h' w'.
Proof. intros Hs <- <- <-. exact Hs. Qed.

Lemma loop_pure_cons {A : Type} (body : A -> odict Tensor -> result (odict Tensor))
      (a : A) (l : list A) (d d' : odict Tensor) :
  body a d = Ok d' -> loop_pure body (a :: l) d = loop_pure body l d'.
Proof. intros E. simpl. now rewrite E. Qed.

Lemma shapes_cons_inv (d : odict Tensor) (k c h w : Z) (rest : list (Z * (Z * Z * Z))) :
  shapes d = (k, (c, h, w)) :: rest ->
  exists t d', d = (k, t) :: d' /\ has_shape t c h w /\ shapes d' = rest.
Proof.
  destruct d as [|[k' t] d']; simpl; [discriminate|].
  unfold shape. intros [= -> Hc Hh Hw Hrest].
  exists t, d'. repeat split; assumption.
Qed.

Lemma shapes_nil_inv (d : odict Tensor) : shapes d = [] -> d = [].
Proof. destruct d; [reflexivity | discriminate]. Qed.

End Block.

Ltac is_pos_num p :=
  lazymatch p with
  | xH => idtac
  | xO ?q => is_pos_num q
  | xI ?q => is_pos_num q
  end.

Ltac is_num z :=
  lazymatch z with
  | Z0 => idtac
  | Zpos ?p => is_pos_num p
  | Zneg ?p => is_pos_num p
  end.

Ltac is_nat_num n :=
  lazymatch n with
  | O => idtac
  | S ?m => is_nat_num m
  end.

Ltac is_arith f :=
  lazymatch f with
  | Z.add => idtac
  | Z.sub => idtac
  | Z.pow => idtac
  end.

(* Evaluates the arithmetic on numerals that stepping through the keys
   and sizes of a pyramid leaves behind. *)
Ltac norm_num :=
  repeat match goal with
         | |- context [Z.of_nat ?n] =>
             is_nat_num n;
             let v := eval vm_compute in (Z.of_nat n) in
             change (Z.of_nat n) with v
         | H : context [Z.of_nat ?n] |- _ =>
             is_nat_num n;
             let v := eval vm_compute in (Z.of_nat n) in
             change (Z.of_nat n) with v in H
         | |- context [?f ?x ?y] =>
             is_arith f; is_num x; is_num y;
             let v := eval vm_compute in (f x y) in
             change (f x y) with v
         | H : context [?f ?x ?y] |- _ =>
             is_arith f; is_num x; is_num y;
             let v := eval vm_compute in (f x y) in
             change (f x y) with v in H
         end.

Ltac shape_goal :=
  eapply has_shape_eq; [eassumption | first [reflexivity | lia] | lia | lia].

Ltac invert_shapes Hd :=
  repeat (let t := fresh "t" in
          let St := fresh "St" in
          apply shapes_cons_inv in Hd as (t & ? & -> & St & Hd));
  apply shapes_nil_inv in Hd; subst.

(* One node of the block: [hh] and [ww] are the sizes of its output,
   [mids] its offsets other than the first and the largest. *)
Ltac step_node ch Hc Hpost Hinit mids hh ww :=
  match goal with
  | |- context [loop_pure node_pure ((?c, ?post) :: ?rest) ?d] =>
      let z := fresh "z" in
      let Hz := fresh "Hz" in
      let Sz := fresh "Sz" in
      edestruct (node_pure_ok c post d ch hh ww) as (z & Hz & Sz);
      [ reflexivity
      | eapply (node_ok _ _ _ _ d _ _ mids hh ww _ _ c Hinit);
        [ reflexivity
        | repeat constructor; lia
        | repeat constructor
        | lia
        | assumption
        | lia
        | lia
        | eexists; split; [reflexivity | simpl; shape_goal]
        | repeat (constructor; [eexists; split; [reflexivity | shape_goal]|]); constructor
        | eexists; split; [reflexivity | eassumption]
        | simpl; lia
        | simpl; lia ]
      | exact Hc | exact Hpost | lia | lia
      | first [assumption | apply size_not_one; lia]
      | rewrite (loop_pure_cons _ _ _ _ _ Hz); simpl od_set; simpl fst; clear Hz ]
  end.

Section NodeTable.
Context `{Torch}.

Lemma node_params_inv (P : node_param -> CombineLevels.t -> Prop) (cs : list CombineLevels.t) :
  Forall2 P _NODE_PARAMS cs ->
  exists n0 n1 n2 n3 n4 n5 n6 n7,
    cs = [n0; n1; n2; n3; n4; n5; n6; n7] /\
    P (mk_node_param 6 [3; 4] true) n0 /\
    P (mk_node_param 5 [2; 5] true) n1 /\
    P (mk_node_param 4 [1; 6] true) n2 /\
    P (mk_node_param 3 [0; 7] true) n3 /\
    P (mk_node_param 4 [1; 7; 8] false) n4 /\
    P (mk_node_param 5 [2; 6; 9] false) n5 /\
    P (mk_node_param 6 [3; 5; 10] false) n6 /\
    P (mk_node_param 7 [4; 11] false) n7.
Proof.
  unfold _NODE_PARAMS. intros Hf.
  repeat match goal with
         | Hf : Forall2 _ (_ :: _) _ |- _ =>
             apply Forall2_cons_inv_l in Hf as (? & ? & ? & Hf & ->)
         | Hf : Forall2 _ [] _ |- _ => apply Forall2_nil_inv_l in Hf as ->
         end.
  do 8 eexists. split; [reflexivity|]. repeat split; assumption.
Qed.

End NodeTable.

(* The eight nodes of a block on a pyramid of five levels; [m4], [m5]
   and [m6] are the keys of the top-down nodes that the bottom-up nodes
   4, 5 and 6 take as their middle input. *)
Ltac run_block out a b Hout Hinit Hd m4 m5 m6 :=
  let Hnl := fresh "Hnl" in
  let post := fresh "post" in
  let cs := fresh "cs" in
  let Hpost := fresh "Hpost" in
  let Hcs := fresh "Hcs" in
  let Hzip := fresh "Hzip" in
  let I0 := fresh "I" in let I1 := fresh "I" in let I2 := fresh "I" in
  let I3 := fresh "I" in let I4 := fresh "I" in let I5 := fresh "I" in
  let I6 := fresh "I" in let I7 := fresh "I" in
  destruct (block_init_structure _ _ _ _ Hinit) as (Hnl & post & cs & Hpost & Hcs & Hzip);
  apply node_params_inv in Hcs
    as (? & ? & ? & ? & ? & ? & ? & ? & -> & I0 & I1 & I2 & I3 & I4 & I5 & I6 & I7);
  unfold len, pyramid_shapes, enumerate, py_range, len in *;
  simpl in I0, I1, I2, I3, I4, I5, I6, I7, Hzip, Hd |- *; norm_num;
  rewrite ?Z.mul_1_r in *;
  invert_shapes Hd;
  unfold block_pure; simpl od_first_key; cbv iota; rewrite Hzip, Hnl;
  step_node out Hout Hpost I0 (@nil Z) (a * 2) (b * 2); norm_num;
  step_node out Hout Hpost I1 (@nil Z) (a * 4) (b * 4); norm_num;
  step_node out Hout Hpost I2 (@nil Z) (a * 8) (b * 8); norm_num;
  step_node out Hout Hpost I3 (@nil Z) (a * 16) (b * 16); norm_num;
  step_node out Hout Hpost I4 [m4] (a * 8) (b * 8); norm_num;
  step_node out Hout Hpost I5 [m5] (a * 4) (b * 4); norm_num;
  step_node out Hout Hpost I6 [m6] (a * 2) (b * 2); norm_num;
  step_node out Hout Hpost I7 (@nil Z) a b; norm_num;
  simpl loop_pure;
  eexists; eexists; split; [reflexivity|];
  match goal with
  | |- context [retval_of ?n ?k ?d] =>
      let v := eval vm_compute in (retval_of n k d) in
      change (retval_of n k d) with v
  end;
  simpl; unfold shape;
  repeat match goal with
         | S : has_shape _ _ _ _ |- _ => destruct S as (-> & -> & ->)
         end;
  reflexivity.

Section BlockPyramid.
Context `{Torch}.

Lemma pos_zip (levels channels_in : list Z) :
  Forall (fun c => 0 < c) channels_in -> pos_channels (zip levels channels_in).
Proof.
  intros Hnn. revert levels. induction Hnn as [|c cs Hc _ IH]; intros [|l levels];
    simpl; constructor; [exact Hc | apply IH].
Qed.

Lemma nonneg_zip (levels channels_in : list Z) :
  Forall (fun c => 0 <= c) channels_in -> nonneg_channels (zip levels channels_in).
Proof.
  intros Hnn. revert levels. induction Hnn as [|c cs Hc _ IH]; intros [|l levels];
    simpl; constructor; [exact Hc | apply IH].
Qed.

Lemma block_pure_pyramid (out a b : Z) (levels channels_in : list Z)
      (block : BiFPNBlock.t) (d : odict Tensor) :
  standard_levels levels ->
  length channels_in = length levels ->
  Forall (fun c => 0 < c) channels_in ->
  0 < out -> 1 <= a -> 1 <= b -> Z.pos batch_size * a * b <> 1 ->
  BiFPNBlock.__init__ out 5 (zip levels channels_in) = Ok block ->
  shapes d = pyramid_shapes (6 - len levels)
               (channels_in ++ replicate (5 - length levels) out) a b ->
  exists d' o, block_pure block d = (d', Ok o) /\
               shapes o = pyramid_shapes (6 - len levels) (replicate 5 out) a b.
Proof.
  intros Hlv Hlen Hnn Hout Ha Hb Hbatch Hinit Hd.
  pose proof (pos_zip levels channels_in Hnn) as Hin.
  apply standard_levels_cases in Hlv as [-> | [-> | [-> | ->]]].
  - destruct channels_in as [|c5 [|? ?]]; try discriminate Hlen.
    simpl zip in Hinit, Hin. simpl app in Hd. simpl replicate in Hd |- *.
    run_block out a b Hout Hinit Hd 12 11 10.
  - destruct channels_in as [|c4 [|c5 [|? ?]]]; try discriminate Hlen.
    simpl zip in Hinit, Hin. simpl app in Hd. simpl replicate in Hd |- *.
    run_block out a b Hout Hinit Hd 11 10 9.
  - destruct channels_in as [|c3 [|c4 [|c5 [|? ?]]]]; try discriminate Hlen.
    simpl zip in Hinit, Hin. simpl app in Hd. simpl replicate in Hd |- *.
    run_block out a b Hout Hinit Hd 10 9 8.
  - destruct channels_in as [|c2 [|c3 [|c4 [|c5 [|? ?]]]]]; try discriminate Hlen.
    simpl zip in Hinit, Hin. simpl app in Hd. simpl replicate in Hd |- *.
    run_block out a b Hout Hinit Hd 9 8 7.
Qed.

End BlockPyramid.

Section Expander.
Context `{Torch}.

Lemma downsample_pure_first (cin cout : Z) (wt : list Q) (bs : option (list Q))
      (d : odict Tensor) (h w : Z) (last : Z * Tensor) :
  od_last_item d = Ok last ->
  0 < cin -> 0 < cout ->
  has_shape (snd last) cin (2 * h) (2 * w) -> 0 < h -> 0 < w ->
  exists y,
    downsample_pure (Sequential [Conv2d cin cout 1 0 1 wt bs; MaxPool2d 3 1 2]) d
    = Ok (od_set d (fst last + 1) y) /\
    has_shape y cout h w.
Proof.
  intros Hlast Hci Hco Hs Hh Hw. unfold downsample_pure. rewrite Hlast. cbn [rbind].
  destruct (forward_conv cin cout 1 0 1 wt bs (snd last) (2 * h) (2 * w))
    as (y1 & E1 & S1); [lia | exact Hci | exact Hco | exact Hs | lia | lia |].
  rewrite (forward_sequential_cons _ _ _ _ E1).
  destruct (forward_pool y1 cout h w S1 Hh Hw) as (y & E & Sy).
  rewrite (forward_sequential_cons _ _ _ _ E). cbn [forward rbind]. eauto.
Qed.

Lemma downsample_pure_pool (d : odict Tensor) (h w c : Z) (last : Z * Tensor) :
  od_last_item d = Ok last ->
  has_shape (snd last) c (2 * h) (2 * w) -> 0 < h -> 0 < w ->
  exists y,
    downsample_pure (MaxPool2d 3 1 2) d = Ok (od_set d (fst last + 1) y) /\
    has_shape y c h w.
Proof.
  intros Hlast Hs Hh Hw. unfold downsample_pure. rewrite Hlast. cbn [rbind].
  destruct (forward_pool (snd last) c h w Hs Hh Hw) as (y & E & Sy).
  rewrite E. cbn [rbind]. eauto.
Qed.

End Expander.

Ltac step_first hh ww :=
  match goal with
  | |- context [loop_pure downsample_pure
                  (Sequential [Conv2d ?cin ?cout 1 0 1 ?wt ?bs; MaxPool2d 3 1 2] :: _) ?d] =>
      let y := fresh "y" in
      let Hy := fresh "Hy" in
      let Sy := fresh "Sy" in
      edestruct (downsample_pure_first cin cout wt bs d hh ww) as (y & Hy & Sy);
      [ reflexivity | lia | lia | simpl; shape_goal | lia | lia
      | rewrite (loop_pure_cons _ _ _ _ _ Hy); simpl od_set; simpl fst; clear Hy ]
  end.

Ltac step_pool hh ww :=
  match goal with
  | |- context [loop_pure downsample_pure (MaxPool2d 3 1 2 :: _) ?d] =>
      let y := fresh "y" in
      let Hy := fresh "Hy" in
      let Sy := fresh "Sy" in
      edestruct (downsample_pure_pool d hh ww) as (y & Hy & Sy);
      [ reflexivity | simpl; shape_goal | lia | lia
      | rewrite (loop_pure_cons _ _ _ _ _ Hy); simpl od_set; simpl fst; clear Hy ]
  end.

Ltac finish_expander :=
  simpl loop_pure; eexists; split; [reflexivity|];
  simpl; norm_num; rewrite ?Z.mul_1_r; unfold shape;
  repeat match goal with
         | S : has_shape _ _ _ _ |- _ => destruct S as (-> & -> & ->)
         end;
  reflexivity.

Ltac start_expander Hd :=
  unfold len, pyramid_shapes, enumerate, py_range, len in *;
  simpl in Hd; norm_num; rewrite ?Z.mul_1_r in *;
  invert_shapes Hd.

Section Stack.
Context `{Torch}.

Lemma expander_pyramid (out a b : Z) (levels in_channels : list Z) :
  standard_levels levels ->
  length in_channels = length levels ->
  Forall (fun c => 0 < c) in_channels ->
  0 < out -> 1 <= a -> 1 <= b ->
  exists layers,
    BiFPN.init_downsample_convs in_channels out 5 levels = Ok (Some layers) /\
    forall d,
      shapes d = pyramid_shapes (6 - len levels) in_channels a b ->
      exists d1,
        loop_pure downsample_pure layers d = (d1, None) /\
        shapes d1 = pyramid_shapes (6 - len levels)
                      (in_channels ++ replicate (5 - length levels) out) a b.
Proof.
  intros Hlv Hlen Hnn Hout Ha Hb.
  apply standard_levels_cases in Hlv as [-> | [-> | [-> | ->]]].
  - destruct in_channels as [|c5 [|? ?]]; try discriminate Hlen.
    inversion Hnn as [|? ? H5 _]; subst.
    unfold BiFPN.init_downsample_convs.
    change (negb (5 =? len [5])) with true. cbv iota.
    change (py_index [c5] (-1)) with (Ok c5). simpl rbind.
    rewrite nn_Conv2d_pointwise by lia. simpl rbind.
    change (py_range (5 - len [5] - 1)) with [0; 1; 2]. simpl map.
    eexists. split; [reflexivity|]. intros d Hd.
    start_expander Hd.
    step_first (a * 8) (b * 8). norm_num.
    step_pool (a * 4) (b * 4). norm_num.
    step_pool (a * 2) (b * 2). norm_num.
    step_pool a b. norm_num.
    finish_expander.
  - destruct in_channels as [|c4 [|c5 [|? ?]]]; try discriminate Hlen.
    inversion Hnn as [|? ? H4 Hnn']; subst. inversion Hnn' as [|? ? H5 _]; subst.
    unfold BiFPN.init_downsample_convs.
    change (negb (5 =? len [4; 5])) with true. cbv iota.
    change (py_index [c4; c5] (-1)) with (Ok c5). simpl rbind.
    rewrite nn_Conv2d_pointwise by lia. simpl rbind.
    change (py_range (5 - len [4; 5] - 1)) with [0; 1]. simpl map.
    eexists. split; [reflexivity|]. intros d Hd.
    start_expander Hd.
    step_first (a * 4) (b * 4). norm_num.
    step_pool (a * 2) (b * 2). norm_num.
    step_pool a b. norm_num.
    finish_expander.
  - destruct in_channels as [|c3 [|c4 [|c5 [|? ?]]]]; try discriminate Hlen.
    inversion Hnn as [|? ? H3 Hnn']; subst. inversion Hnn' as [|? ? H4 Hnn'']; subst.
    inversion Hnn'' as [|? ? H5 _]; subst.
    unfold BiFPN.init_downsample_convs.
    change (negb (5 =? len [3; 4; 5])) with true. cbv iota.
    change (py_index [c3; c4; c5] (-1)) with (Ok c5). simpl rbind.
    rewrite nn_Conv2d_pointwise by lia. simpl rbind.
    change (py_range (5 - len [3; 4; 5] - 1)) with [0]. simpl map.
    eexists. split; [reflexivity|]. intros d Hd.
    start_expander Hd.
    step_first (a * 2) (b * 2). norm_num.
    step_pool a b. norm_num.
    finish_expander.
  - destruct in_channels as [|c2 [|c3 [|c4 [|c5 [|? ?]]]]]; try discriminate Hlen.
    inversion Hnn as [|? ? H2 Hnn']; subst. inversion Hnn' as [|? ? H3 Hnn'']; subst.
    inversion Hnn'' as [|? ? H4 Hnn3]; subst. inversion Hnn3 as [|? ? H5 _]; subst.
    unfold BiFPN.init_downsample_convs.
    change (negb (5 =? len [2; 3; 4; 5])) with true. cbv iota.
    change (py_index [c2; c3; c4; c5] (-1)) with (Ok c5). simpl rbind.
    rewrite nn_Conv2d_pointwise by lia. simpl rbind.
    change (py_range (5 - len [2; 3; 4; 5] - 1)) with (@nil Z). simpl map.
    eexists. split; [reflexivity|]. intros d Hd.
    start_expander Hd.
    step_first a b. norm_num.
    finish_expander.
Qed.

End Stack.

Section Final.
Context `{Torch}.

Lemma add_module_fresh {K V : Type} `{EqDecision K} (children : list (K * V))
      (name : K) (module : V) :
  ~ In name (map fst children) ->
  add_module children name module = children ++ [(name, module)].
Proof.
  induction children as [|[n m] rest IH]; simpl; [reflexivity|].
  intros Hfresh. destruct (decide (n = name)) as [->|Hne]; [tauto|].
  rewrite IH; [reflexivity | tauto].
Qed.

(** The loop that builds the blocks: the first block is built over the
    channels of the backbone, every later one over the width of the
    pyramid. *)
Lemma init_blocks (out : Z) (levels : list Z) (channel_dict : odict Z)
      (b0 b1 : BiFPNBlock.t) :
  BiFPNBlock.__init__ out 5 channel_dict = Ok b0 ->
  BiFPNBlock.__init__ out 5 (fold_left (fun d level => od_set d level out) levels []) = Ok b1 ->
  forall (m i : nat) (layers : list (Z * BiFPNBlock.t)),
    map fst layers = map Z.of_nat (seq 0 i) ->
    exists layers',
      foldM (BiFPN.init_step out 5 levels channel_dict) (map Z.of_nat (seq i m)) layers
      = Ok layers' /\
      map snd layers'
      = map snd layers ++ map (fun j => match j with O => b0 | S _ => b1 end) (seq i m).
Proof.
  intros B0 B1 m. induction m as [|m IH]; intros i layers Hkeys; simpl.
  - eexists. split; [reflexivity|]. now rewrite app_nil_r.
  - unfold BiFPN.init_step at 1.
    assert (Hblock : BiFPNBlock.__init__ out 5
                       (if negb (Z.of_nat i =? 0)
                        then fold_left (fun d level => od_set d level out) levels []
                        else channel_dict)
                     = Ok (match i with O => b0 | S _ => b1 end)).
    { destruct i as [|i]; [exact B0|].
      destruct (Z.eqb_spec (Z.of_nat (S i)) 0); [lia | exact B1]. }
    rewrite Hblock. cbn [rbind].
    rewrite add_module_fresh.
    + destruct (IH (S i) (layers ++ [(Z.of_nat i, match i with O => b0 | S _ => b1 end)]))
        as (layers' & Hfold & Hsnd).
      { rewrite map_app, Hkeys, seq_S, map_app. reflexivity. }
      exists layers'. split; [exact Hfold|].
      rewrite Hsnd, map_app. simpl. now rewrite <- app_assoc.
    + rewrite Hkeys. intros Hin. apply in_map_iff in Hin as (j & Hj & Hin).
      apply Nat2Z.inj in Hj. subst j. apply in_seq in Hin. lia.
Qed.

Lemma map_const_seq {A : Type} (x : A) (i m : nat) :
  map (fun j => match j with O => x | S _ => x end) (seq i m) = replicate m x.
Proof.
  revert i. induction m as [|m IH]; intros i; simpl; [reflexivity|].
  rewrite IH. now destruct i.
Qed.

Lemma map_later_seq {A : Type} (x y : A) (i m : nat) :
  map (fun j => match j with O => x | S _ => y end) (seq (S i) m) = replicate m y.
Proof.
  revert i. induction m as [|m IH]; intros i; simpl; [reflexivity|].
  now rewrite IH.
Qed.

(** What construction yields on a standard configuration. *)
Lemma init_structure (in_channels levels : list Z) (out n : Z) :
  standard_levels levels ->
  length in_channels = length levels ->
  Forall (fun c => 0 < c) in_channels ->
  0 < out -> 1 <= n ->
  exists self layers b0 b1,
    BiFPN.__init__ in_channels out n 5 levels = Ok self /\
    BiFPN.downsample_convs self = Some layers /\
    BiFPN.init_downsample_convs in_channels out 5 levels = Ok (Some layers) /\
    map snd (BiFPN.bifp_layers self) = b0 :: replicate (Z.to_nat n - 1) b1 /\
    BiFPNBlock.__init__ out 5 (zip levels in_channels) = Ok b0 /\
    BiFPNBlock.__init__ out 5 (zip levels (replicate (length levels) out)) = Ok b1.
Proof.
  intros Hlv Hlen Hnn Hout Hn.
  destruct (expander_pyramid out 1 1 levels in_channels Hlv Hlen Hnn Hout)
    as (layers & Hlayers & _); [lia | lia |].
  destruct (block_init_ok out 5 (zip levels in_channels)) as (b0 & B0 & _);
    [exact Hout | now apply pos_nonneg_channels, pos_zip |].
  destruct (block_init_ok out 5 (zip levels (replicate (length levels) out)))
    as (b1 & B1 & _); [exact Hout | |].
  { apply nonneg_zip. apply Forall_replicate. lia. }
  assert (Hdict : BiFPN.init_channel_dict
                    (py_slice_from in_channels (- len levels)
                       ++ py_repeat out (5 - len levels)) levels
                  = Ok (zip levels in_channels) /\
                  fold_left (fun d level => od_set d level out) levels []
                  = zip levels (replicate (length levels) out)).
  { apply standard_levels_cases in Hlv as [-> | [-> | [-> | ->]]].
    - destruct in_channels as [|c5 [|? ?]]; try discriminate Hlen.
      split; reflexivity.
    - destruct in_channels as [|c4 [|c5 [|? ?]]]; try discriminate Hlen.
      split; reflexivity.
    - destruct in_channels as [|c3 [|c4 [|c5 [|? ?]]]]; try discriminate Hlen.
      split; reflexivity.
    - destruct in_channels as [|c2 [|c3 [|c4 [|c5 [|? ?]]]]]; try discriminate Hlen.
      split; reflexivity. }
  destruct Hdict as [Hdict Hunif].
  rewrite <- Hunif in B1.
  destruct (init_blocks out levels (zip levels in_channels) b0 b1 B0 B1
              (Z.to_nat n) 0 []) as (blocks & Hblocks & Hsnd); [reflexivity|].
  exists (BiFPN.mk levels 5 in_channels (Some layers) blocks), layers, b0, b1.
  split; [|split; [reflexivity|split; [exact Hlayers|split; [|split]]]].
  - unfold BiFPN.__init__. rewrite Hlayers. cbn [rbind].
    rewrite Hdict. cbn [rbind]. unfold py_range. rewrite Hblocks. reflexivity.
  - simpl. rewrite Hsnd. simpl.
    destruct (Z.to_nat n) as [|m] eqn:Em; [lia|].
    simpl. rewrite map_later_seq. f_equal. f_equal. lia.
  - exact B0.
  - rewrite <- Hunif. exact B1.
Qed.

Lemma uniform_channels (k : nat) (out : Z) :
  (k <= 5)%nat -> replicate k out ++ replicate (5 - k) out = replicate 5 out.
Proof.
  intros Hk. rewrite <- replicate_add. f_equal. lia.
Qed.

Lemma standard_levels_length (levels : list Z) :
  standard_levels levels -> (1 <= length levels <= 4)%nat.
Proof. intros [Hlen _]. unfold len in Hlen. lia. Qed.

(** A chain of later blocks maps a pyramid of the internal width to a
    pyramid of the internal width. *)
Lemma blocks_pure_uniform (out a b : Z) (levels : list Z) (b1 : BiFPNBlock.t) :
  standard_levels levels -> 0 < out -> 1 <= a -> 1 <= b ->
  Z.pos batch_size * a * b <> 1 ->
  BiFPNBlock.__init__ out 5 (zip levels (replicate (length levels) out)) = Ok b1 ->
  forall (m : nat) (d : odict Tensor),
    shapes d = pyramid_shapes (6 - len levels) (replicate 5 out) a b ->
    exists o, snd (blocks_pure (replicate m b1) d) = Ok o /\
              shapes o = pyramid_shapes (6 - len levels) (replicate 5 out) a b.
Proof.
  intros Hlv Hout Ha Hb Hbatch B1 m. induction m as [|m IH]; intros d Hd; simpl.
  - eauto.
  - destruct (block_pure_pyramid out a b levels (replicate (length levels) out) b1 d)
      as (d' & o & Hblock & Ho); try assumption.
    + now rewrite length_replicate.
    + apply Forall_replicate. lia.
    + rewrite uniform_channels; [exact Hd|].
      pose proof (standard_levels_length levels Hlv). lia.
    + rewrite Hblock. simpl. now apply IH.
Qed.

(** The content semantics of the whole call on a standard configuration. *)
Lemma call_pure_pyramid (in_channels levels : list Z) (out n a b : Z)
      (d : odict Tensor) :
  standard_levels levels ->
  length in_channels = length levels ->
  Forall (fun c => 0 < c) in_channels ->
  0 < out -> 1 <= n -> 1 <= a -> 1 <= b ->
  Z.pos batch_size * a * b <> 1 ->
  shapes d = pyramid_shapes (6 - len levels) in_channels a b ->
  exists self o,
    BiFPN.__init__ in_channels out n 5 levels = Ok self /\
    snd (call_pure self d) = Ok o /\
    shapes o = pyramid_shapes (6 - len levels) (replicate 5 out) a b.
Proof.
  intros Hlv Hlen Hnn Hout Hn Ha Hb Hbatch Hd.
  destruct (init_structure in_channels levels out n Hlv Hlen Hnn Hout Hn)
    as (self & layers & b0 & b1 & Hinit & Hdown & Hlayers & Hblocks & B0 & B1).
  destruct (expander_pyramid out a b levels in_channels Hlv Hlen Hnn Hout Ha Hb)
    as (layers' & Hlayers' & Hexp).
  assert (layers' = layers) by congruence. subst layers'.
  destruct (Hexp d Hd) as (d1 & Hloop & Hd1).
  destruct (block_pure_pyramid out a b levels in_channels b0 d1)
    as (d1' & o1 & Hblock & Ho1); try assumption.
  destruct (blocks_pure_uniform out a b levels b1 Hlv Hout Ha Hb Hbatch B1
              (Z.to_nat n - 1) o1 Ho1) as (o & Hrest & Ho).
  exists self, o. split; [exact Hinit|]. split; [|exact Ho].
  unfold call_pure. rewrite Hdown, Hloop, Hblocks. simpl.
  rewrite Hblock. simpl. exact Hrest.
Qed.

Lemma standard_levels_first (levels : list Z) (first : Z) :
  standard_levels levels -> head levels = Some first -> first = 6 - len levels.
Proof.
  intros Hlv Hhead.
  apply standard_levels_cases in Hlv as [-> | [-> | [-> | ->]]];
    injection Hhead as <-; reflexivity.
Qed.

(** What the shapes of a full pyramid of the internal width say about
    its entries. *)
Lemma pyramid_entries (first out a b : Z) (o : odict Tensor) :
  shapes o = pyramid_shapes first (replicate 5 out) a b ->
  len o = 5 /\
  od_keys o = map (fun i => first + i) (py_range 5) /\
  Forall (fun kt => channels (snd kt) = out) o.
Proof.
  intros Ho. unfold pyramid_shapes, enumerate, py_range, len in Ho.
  simpl in Ho. invert_shapes Ho.
  split; [reflexivity|]. split; [reflexivity|].
  repeat match goal with
         | S : has_shape _ _ _ _ |- _ => destruct S as (? & _ & _)
         end.
  repeat constructor; assumption.
Qed.

(** C6, as amended.  For a pyramid of height 5 over one to four
    consecutive input levels ending at level 5, with positive input
    channel counts, a positive [out_channels] and at least one block, and
    for an input whose levels carry the configured channel counts and
    halve exactly down to a coarsest pyramid level of size [a] by [b]
    (so that the coarsest input level is divisible as often as levels are
    synthesized and upsampled back), where the coarsest pyramid level
    holds more than one value per channel over the batch (batch size
    times [a] times [b] is not 1, as batch normalisation in training mode
    requires): construction succeeds, the forward call returns, and the
    mapping returned has exactly five entries, keyed by the five
    consecutive levels that start at the finest input level, every one
    with [out_channels] channels and sizes halving from [16 a] by [16 b]
    down to [a] by [b]. *)
Theorem forward_output_pyramid (in_channels levels : list Z) (out n a b first : Z)
        (d : odict Tensor) (s : heap) (feature_maps : loc) :
  standard_levels levels ->
  head levels = Some first ->
  length in_channels = length levels ->
  Forall (fun c => 0 < c) in_channels ->
  0 < out -> 1 <= n -> 1 <= a -> 1 <= b ->
  Z.pos batch_size * a * b <> 1 ->
  shapes d = pyramid_shapes first in_channels a b ->
  s !! feature_maps = Some d ->
  exists self r s' o,
    BiFPN.__init__ in_channels out n 5 levels = Ok self /\
    BiFPN.__call__ self feature_maps s = Return r s' /\
    s' !! r = Some o /\
    len o = 5 /\
    od_keys o = map (fun i => first + i) (py_range 5) /\
    Forall (fun kt => channels (snd kt) = out) o /\
    shapes o = pyramid_shapes first (replicate 5 out) a b.
Proof.
  intros Hlv Hfirst Hlen Hnn Hout Hn Ha Hb Hbatch Hd Hl.
  pose proof (standard_levels_first levels first Hlv Hfirst) as ->.
  destruct (call_pure_pyramid in_channels levels out n a b d
              Hlv Hlen Hnn Hout Hn Ha Hb Hbatch Hd)
    as (self & o & Hinit & Hpure & Ho).
  pose proof (call_spec self feature_maps s d Hl) as Hcall.
  destruct (BiFPN.__call__ self feature_maps s) as [r s'|e s'] eqn:Ecall.
  - destruct Hcall as (o' & Ho' & Hr & _).
    assert (o' = o) by congruence. subst o'.
    destruct (pyramid_entries _ _ _ _ _ Ho) as (Hcount & Hkeys & Hchannels).
    exists self, r, s', o. auto 10.
  - destruct Hcall as (Hraise & _). congruence.
Qed.

End Final.

(** C6 as stated fails.  A height of 4 over levels 3 to 5 is at least
    the number of levels, yet the forward call raises [KeyError 2]; and
    on the standard configuration an input whose levels halve exactly
    from 60 to 30 to 15 makes the forward call raise [RuntimeError],
    because 15 does not halve. *)
Lemma forward_output_fails :
  (@BiFPN.__init__ null_torch [40; 80; 160] 64 1 4 [3; 4; 5] = Ok bifpn_345_h4 /\
   exists s', @BiFPN.__call__ null_torch bifpn_345_h4 0%nat [input_345]
              = Throw (KeyError 2) s') /\
  (@BiFPN.__init__ null_torch [40; 80; 160] 64 1 5 [3; 4; 5] = Ok bifpn_345 /\
   exists s', @BiFPN.__call__ null_torch bifpn_345 0%nat [input_odd]
              = Throw RuntimeError s').
Proof.
  split; (split; [reflexivity|]); eexists; vm_compute; reflexivity.
Qed.

(** The amended C6 at the scenario of the specification. *)
Lemma forward_output_pyramid_witness :
  standard_levels [3; 4; 5] /\
  head [3; 4; 5] = Some 3 /\
  length [40; 80; 160] = length [3; 4; 5] /\
  Forall (fun c => 0 < c) [40; 80; 160] /\
  0 < 64 /\ 1 <= 1 /\ 1 <= 4 /\ 1 <= 4 /\
  Z.pos (@batch_size null_torch) * 4 * 4 <> 1 /\
  shapes input_345 = pyramid_shapes 3 [40; 80; 160] 4 4 /\
  [input_345] !! 0%nat = Some input_345 /\
  exists self r s' o,
    @BiFPN.__init__ null_torch [40; 80; 160] 64 1 5 [3; 4; 5] = Ok self /\
    @BiFPN.__call__ null_torch self 0%nat [input_345] = Return r s' /\
    s' !! r = Some o /\
    len o = 5 /\
    od_keys o = map (fun i => 3 + i) (py_range 5) /\
    Forall (fun kt => channels (snd kt) = 64) o /\
    shapes o = pyramid_shapes 3 (replicate 5 64) 4 4.
Proof.
  assert (Hlv : standard_levels [3; 4; 5]) by (split; [vm_compute; split; discriminate | reflexivity]).
  assert (Hnn : Forall (fun c => 0 < c) [40; 80; 160]) by (repeat constructor; lia).
  assert (Hbatch : Z.pos (@batch_size null_torch) * 4 * 4 <> 1) by (vm_compute; discriminate).
  split; [exact Hlv|]. split; [reflexivity|]. split; [reflexivity|].
  split; [exact Hnn|]. split; [lia|]. split; [lia|]. split; [lia|]. split; [lia|].
  split; [exact Hbatch|].
  split; [reflexivity|]. split; [reflexivity|].
  apply (@forward_output_pyramid null_torch [40; 80; 160] [3; 4; 5] 64 1 4 4 3
           input_345 [input_345] 0%nat);
    first [exact Hlv | exact Hnn | exact Hbatch | reflexivity | lia].
Defined.

(** ** The scenario of the specification *)

Section Scenario.
Context `{Torch}.

(** C7.  With [in_channels = [40, 80, 160]], [levels = [3, 4, 5]],
    [out_channels = 64], [bifpn_height = 5] and one block, on levels of
    shapes (40, 64, 64), (80, 32, 32) and (160, 16, 16), whatever their
    elements: the expander adds level 6 of shape (64, 8, 8) and level 7 of
    shape (64, 4, 4), and the forward call returns a mapping with keys 3
    to 7, 64 channels at every level and sizes 64, 32, 16, 8 and 4. *)
Theorem scenario_345 (e3 e4 e5 : list Q) (s : heap) (feature_maps : loc) :
  s !! feature_maps
  = Some [(3, mkTensor 40 64 64 e3); (4, mkTensor 80 32 32 e4);
          (5, mkTensor 160 16 16 e5)] ->
  exists self,
    BiFPN.__init__ [40; 80; 160] 64 1 5 [3; 4; 5] = Ok self /\
    (exists layers s1 d1,
       BiFPN.downsample_convs self = Some layers /\
       for_each (BiFPN.downsample_step feature_maps) layers s = Return tt s1 /\
       s1 !! feature_maps = Some d1 /\
       shapes d1 = [(3, (40, 64, 64)); (4, (80, 32, 32)); (5, (160, 16, 16));
                    (6, (64, 8, 8)); (7, (64, 4, 4))]) /\
    exists r s' out,
      BiFPN.__call__ self feature_maps s = Return r s' /\
      s' !! r = Some out /\
      shapes out = [(3, (64, 64, 64)); (4, (64, 32, 32)); (5, (64, 16, 16));
                    (6, (64, 8, 8)); (7, (64, 4, 4))].
Proof.
  intros Hl. pose proof (lookup_lt_Some _ _ _ Hl) as Hlt.
  eexists. split; [vm_compute; reflexivity|]. split.
  - eexists. eexists. eexists. split; [reflexivity|].
    rewrite (for_each_spec _ downsample_pure feature_maps
               (downsample_step_spec feature_maps) _ s _ Hl).
    vm_compute loop_pure.
    split; [reflexivity|]. split; [now apply list_lookup_insert_eq | reflexivity].
  - destruct (call_pure_pyramid [40; 80; 160] [3; 4; 5] 64 1 4 4
                [(3, mkTensor 40 64 64 e3); (4, mkTensor 80 32 32 e4);
                 (5, mkTensor 160 16 16 e5)])
      as (self & o & Hinit & Hpure & Ho);
      [ split; [vm_compute; split; discriminate | reflexivity]
      | reflexivity | repeat constructor; lia | lia | lia | lia | lia | lia
      | reflexivity |].
    vm_compute in Hinit. injection Hinit as <-.
    match goal with
    | |- exists r s' out, BiFPN.__call__ ?m _ _ = _ /\ _ =>
        pose proof (call_spec m feature_maps s _ Hl) as Hcall;
        destruct (BiFPN.__call__ m feature_maps s) as [r s'|e s']
    end.
    + destruct Hcall as (out & Hout & Hr & _).
      exists r, s', out. split; [reflexivity|]. split; [exact Hr|].
      rewrite Hpure in Hout. injection Hout as <-. exact Ho.
    + destruct Hcall as (Hout & _). rewrite Hpure in Hout. discriminate Hout.
Qed.

End Scenario.

(** C7 with blank feature maps in a heap of their own. *)
Lemma scenario_345_witness :
  [input_345] !! 0%nat
  = Some [(3, mkTensor 40 64 64 []); (4, mkTensor 80 32 32 []);
          (5, mkTensor 160 16 16 [])] /\
  exists self,
    @BiFPN.__init__ null_torch [40; 80; 160] 64 1 5 [3; 4; 5] = Ok self /\
    (exists layers s1 d1,
       BiFPN.downsample_convs self = Some layers /\
       for_each (@BiFPN.downsample_step null_torch 0%nat) layers [input_345]
       = Return tt s1 /\
       s1 !! 0%nat = Some d1 /\
       shapes d1 = [(3, (40, 64, 64)); (4, (80, 32, 32)); (5, (160, 16, 16));
                    (6, (64, 8, 8)); (7, (64, 4, 4))]) /\
    exists r s' out,
      @BiFPN.__call__ null_torch self 0%nat [input_345] = Return r s' /\
      s' !! r = Some out /\
      shapes out = [(3, (64, 64, 64)); (4, (64, 32, 32)); (5, (64, 16, 16));
                    (6, (64, 8, 8)); (7, (64, 4, 4))].
Proof.
  split; [reflexivity|].
  apply (@scenario_345 null_torch [] [] [] [input_345] 0%nat). reflexivity.
Defined.

(** * Further properties of the code *)

(** ** The layers *)

Section LayerErrors.
Context `{Torch}.

Lemma single_value_batch (h w : Z) :
  Z.pos batch_size * h * w = 1 -> batch_size = 1%positive.
Proof.
  intros E. rewrite <- Z.mul_assoc in E.
  apply Z.eq_mul_1 in E as [E|E]; [now injection E | discriminate E].
Qed.

(** A primitive layer raises [RuntimeError], except that batch
    normalisation raises [ValueError] on a single value per channel. *)
Lemma forward_primitive_error (l : Layer) (t : Tensor) (e : exn) :
  forward_primitive l t = Raise e ->
  e = RuntimeError \/ (e = ValueError /\ batch_size = 1%positive).
Proof.
  destruct l; simpl; unfold swish_forward;
    try match goal with
        | |- context [Z.pos batch_size * ?h * ?w =? 1] =>
            destruct (Z.eqb_spec (Z.pos batch_size * h * w) 1) as [E|_];
            [intros [= <-]; right; split; [reflexivity | exact (single_value_batch _ _ E)]|]
        end;
    repeat match goal with
           | |- context [if ?b then _ else _] => destruct b
           | |- context [match degenerate ?l ?t with _ => _ end] => destruct (degenerate l t)
           end; try discriminate; intros [= <-]; now left.
Qed.

Lemma forward_primitive_plain_error (l : Layer) (t : Tensor) (e : exn) :
  free_of_batch_norm l = true -> forward_primitive l t = Raise e -> e = RuntimeError.
Proof.
  destruct l; simpl; unfold swish_forward; try discriminate; intros _;
    repeat match goal with
           | |- context [if ?b then _ else _] => destruct b
           | |- context [match degenerate ?l ?t with _ => _ end] => destruct (degenerate l t)
           end; congruence.
Qed.

Lemma forward_error : forall (l : Layer) (t : Tensor) (e : exn),
  forward l t = Raise e ->
  e = RuntimeError \/ (e = ValueError /\ batch_size = 1%positive).
Proof.
  fix IH 1. intros l. destruct l as [| | | | |children];
    try (intros t e; apply (forward_primitive_error _ t e)).
  simpl. induction children as [|l' ls IHls]; intros t e; [discriminate|].
  destruct (forward l' t) as [t'|e'] eqn:E; simpl.
  - apply IHls.
  - intros [= <-]. exact (IH l' t e' E).
Qed.

(** Without batch normalisation only [RuntimeError] is left. *)
Lemma forward_plain_error : forall (l : Layer) (t : Tensor) (e : exn),
  free_of_batch_norm l = true -> forward l t = Raise e -> e = RuntimeError.
Proof.
  fix IH 1. intros l. destruct l as [| | | | |children];
    try (intros t e; apply (forward_primitive_plain_error _ t e)).
  simpl. induction children as [|l' ls IHls]; intros t e; [discriminate|].
  intros [Hl' Hls]%andb_prop.
  destruct (forward l' t) as [t'|e'] eqn:E; simpl.
  - now apply IHls.
  - intros [= <-]. exact (IH l' t e' Hl' E).
Qed.

Lemma nn_Conv2d_plain (cin cout k p g : Z) (bias : bool) (conv : Layer) :
  nn_Conv2d cin cout k p g bias = Ok conv -> free_of_batch_norm conv = true.
Proof.
  unfold nn_Conv2d.
  repeat match goal with
         | |- context [if ?b then _ else _] => destruct b
         end; try discriminate.
  all: now intros [= <-].
Qed.

End LayerErrors.

(** ** What a block returns and what it leaves behind *)

Section BlockReturn.
Context `{Torch}.

Lemma py_range_len {A : Type} (l : list A) :
  py_range (len l) = map Z.of_nat (seq 0 (length l)).
Proof. unfold py_range, len. now rewrite Nat2Z.id. Qed.

(** The loop that fills [retval] (source lines 209-213), started at
    position [i] with [acc] already filled. *)
Lemma retval_loop (n num_levels off : Z) :
  forall (vs : list Tensor) (i : nat) (acc : odict Tensor),
    od_keys acc = map (fun j => Z.of_nat j + off) (seq 0 (length acc)) ->
    let r := fold_left (BiFPNBlock.retval_step n num_levels off)
                       (zip (map Z.of_nat (seq i (length vs))) vs) acc in
    od_values r = od_values acc ++ drop (Z.to_nat (n - num_levels) - i) vs /\
    od_keys r = map (fun j => Z.of_nat j + off) (seq 0 (length r)).
Proof.
  induction vs as [|v vs IH]; intros i acc Hkeys; cbn zeta.
  - simpl. rewrite drop_nil, app_nil_r. auto.
  - assert (Hunfold :
      fold_left (BiFPNBlock.retval_step n num_levels off)
        (zip (map Z.of_nat (seq i (length (v :: vs)))) (v :: vs)) acc
      = fold_left (BiFPNBlock.retval_step n num_levels off)
          (zip (map Z.of_nat (seq (S i) (length vs))) vs)
          (BiFPNBlock.retval_step n num_levels off acc (Z.of_nat i, v)))
      by reflexivity.
    rewrite Hunfold. clear Hunfold.
    unfold BiFPNBlock.retval_step at 2 4 6. cbn [fst snd].
    destruct (Z.ltb_spec (Z.of_nat i) (n - num_levels)) as [Hlt|Hge].
    + destruct (IH (S i) acc Hkeys) as [Hv Hk]. split; [|exact Hk].
      rewrite Hv. f_equal.
      replace (Z.to_nat (n - num_levels) - i)%nat
        with (S (Z.to_nat (n - num_levels) - S i))%nat by lia.
      reflexivity.
    + assert (Hfresh : od_get acc (len acc + off) = None).
      { apply od_get_None_keys. rewrite Hkeys. intros Hin.
        apply in_map_iff in Hin as (j & Hj & Hin). apply in_seq in Hin.
        unfold len in Hj. lia. }
      rewrite (od_set_fresh acc _ v Hfresh).
      destruct (IH (S i) (acc ++ [(len acc + off, v)])) as [Hv Hk].
      { unfold od_keys. rewrite map_app, length_app. simpl.
        rewrite Nat.add_1_r, seq_S, map_app. simpl.
        unfold od_keys in Hkeys. rewrite Hkeys. reflexivity. }
      split; [|exact Hk].
      rewrite Hv.
      unfold od_values. rewrite map_app. simpl. rewrite <- app_assoc. simpl.
      replace (Z.to_nat (n - num_levels) - i)%nat with 0%nat by lia.
      replace (Z.to_nat (n - num_levels) - S i)%nat with 0%nat by lia.
      reflexivity.
Qed.

(** What a block returns, from the contents its argument ends with. *)
Lemma retval_of_last (num_levels off : Z) (d : odict Tensor) :
  od_values (retval_of num_levels off d)
  = drop (Z.to_nat (len d - num_levels)) (od_values d) /\
  od_keys (retval_of num_levels off d)
  = map (fun i => i + off) (py_range (len (retval_of num_levels off d))).
Proof.
  unfold retval_of. rewrite enumerate_eq.
  destruct (retval_loop (len d) num_levels off (od_values d) 0 []) as [Hv Hk];
    [reflexivity|].
  cbn zeta in Hv, Hk. split.
  - rewrite Hv. simpl. now rewrite Nat.sub_0_r.
  - rewrite Hk, py_range_len, map_map. reflexivity.
Qed.

Lemma od_first_key_set {V : Type} (d : odict V) (k k' : Z) (v : V) :
  od_first_key d = Ok k -> od_first_key (od_set d k' v) = Ok k.
Proof.
  destruct d as [|[k0 v0] d]; simpl; [discriminate|].
  intros [= ->]. now destruct (k =? k').
Qed.

Lemma node_pure_first_key (cp : CombineLevels.t * Layer) (d d' : odict Tensor) (k : Z) :
  od_first_key d = Ok k -> node_pure cp d = Ok d' -> od_first_key d' = Ok k.
Proof.
  intros Hk. unfold node_pure. intros Hn.
  apply rbind_ok in Hn as (last & _ & Hn).
  apply rbind_ok in Hn as (y & _ & Hn).
  apply rbind_ok in Hn as (z & _ & Hn).
  injection Hn as <-. now apply od_first_key_set.
Qed.

Lemma loop_pure_first_key {A : Type}
      (body : A -> odict Tensor -> result (odict Tensor)) (k : Z) :
  (forall a d d', od_first_key d = Ok k -> body a d = Ok d' -> od_first_key d' = Ok k) ->
  forall (xs : list A) (d : odict Tensor),
    od_first_key d = Ok k -> od_first_key (fst (loop_pure body xs d)) = Ok k.
Proof.
  intros Hbody xs. induction xs as [|a xs IH]; intros d Hk; simpl; [exact Hk|].
  destruct (body a d) as [d'|e] eqn:E; [|exact Hk].
  apply IH. exact (Hbody a d d' Hk E).
Qed.

(** X13.  What a block returns is a mapping of its own, not one the
    caller held: it holds the last [num_levels] feature maps of the
    argument as the loop over the nodes left it (all of them if there are
    fewer, none if [num_levels <= 0]), in their order, keyed
    consecutively from the first key of the argument, which the loop
    leaves in place. *)
Theorem block_returns_last_levels (self : BiFPNBlock.t) (l r : loc) (s s' : heap)
        (d0 : odict Tensor) :
  s !! l = Some d0 ->
  BiFPNBlock.__call__ self l s = Return r s' ->
  (length s <= r)%nat /\
  exists d o first,
    s' !! l = Some d /\ s' !! r = Some o /\
    od_first_key d0 = Ok first /\ od_first_key d = Ok first /\
    od_values o = drop (Z.to_nat (len d - BiFPNBlock.num_levels self)) (od_values d) /\
    od_keys o = map (fun i => i + first) (py_range (len o)).
Proof.
  intros Hl. pose proof (lookup_lt_Some _ _ _ Hl) as Hlt.
  rewrite (block_call_spec self l s d0 Hl). unfold block_pure.
  destruct (od_first_key d0) as [first|e] eqn:Efirst; [|discriminate].
  pose proof (loop_pure_first_key node_pure first
                (fun cp d d' => node_pure_first_key cp d d' first)
                (zip (map snd (BiFPNBlock.combines self))
                     (map snd (BiFPNBlock.post_combines self))) d0 Efirst) as Hfirst.
  destruct (loop_pure node_pure _ d0) as [d [e|]]; [discriminate|].
  simpl in Hfirst. intros [= <- <-].
  destruct (retval_of_last (BiFPNBlock.num_levels self) first d) as [Hv Hk].
  split; [lia|].
  exists d, (retval_of (BiFPNBlock.num_levels self) first d), first.
  split; [|split; [|auto]].
  - rewrite lookup_app_l by (rewrite length_insert; exact Hlt).
    now apply list_lookup_insert_eq.
  - rewrite lookup_app_r; rewrite length_insert; [|lia]. now rewrite Nat.sub_diag.
Qed.

End BlockReturn.

(** X13 at the first block of the scenario of the specification. *)
Lemma block_returns_last_levels_witness :
  exists r s',
    [pyramid_345] !! 0%nat = Some pyramid_345 /\
    @BiFPNBlock.__call__ null_torch block_345 0%nat [pyramid_345] = Return r s' /\
    (length [pyramid_345] <= r)%nat /\
    exists d o first,
      s' !! 0%nat = Some d /\ s' !! r = Some o /\
      od_first_key pyramid_345 = Ok first /\ od_first_key d = Ok first /\
      od_values o = drop (Z.to_nat (len d - BiFPNBlock.num_levels block_345)) (od_values d) /\
      od_keys o = map (fun i => i + first) (py_range (len o)).
Proof.
  destruct (@BiFPNBlock.__call__ null_torch block_345 0%nat [pyramid_345])
    as [r s'|e s'] eqn:E; [|vm_compute in E; discriminate E].
  exists r, s'. split; [reflexivity|]. split; [reflexivity|].
  apply (@block_returns_last_levels null_torch block_345 0%nat r [pyramid_345] s'
           pyramid_345); [reflexivity | exact E].
Defined.

Section BlockNodes.
Context `{Torch}.

Lemma py_range_len_cons {A : Type} (f : Z -> Z) (a : A) (l : list A) :
  map f (py_range (len (a :: l))) = f 0 :: map (fun i => f (1 + i)) (py_range (len l)).
Proof.
  rewrite !py_range_len. simpl. f_equal.
  rewrite <- seq_shift, !map_map. apply map_ext. intros j. f_equal. lia.
Qed.

(** The loop over the nodes of a block (source lines 203-205) on a
    mapping with ascending keys: every turn that succeeds appends one
    entry under the next key. *)
Lemma node_loop_appends :
  forall (cps : list (CombineLevels.t * Layer)) (d : odict Tensor)
         (klast : Z) (vlast : Tensor),
    is_ascending (od_keys d) = true ->
    od_last_item d = Ok (klast, vlast) ->
    exists new,
      fst (loop_pure node_pure cps d) = d ++ new /\
      od_keys new = map (fun i => klast + 1 + i) (py_range (len new)) /\
      match snd (loop_pure node_pure cps d) with
      | None => length new = length cps
      | Some _ => (length new < length cps)%nat
      end.
Proof.
  induction cps as [|cp cps IH]; intros d klast vlast Hasc Hlast; simpl.
  - exists []. rewrite app_nil_r. auto.
  - destruct (node_pure cp d) as [d'|e] eqn:Enode.
    + unfold node_pure in Enode. rewrite Hlast in Enode. cbn [rbind fst] in Enode.
      apply rbind_ok in Enode as (y & _ & Enode).
      apply rbind_ok in Enode as (z & _ & Enode).
      injection Enode as <-.
      destruct (od_set_after_last d klast vlast z Hasc Hlast) as [-> Hasc'].
      destruct (IH (d ++ [(klast + 1, z)]) (klast + 1) z Hasc' (od_last_item_app _ _))
        as (new & Hfst & Hkeys & Hcount).
      exists ((klast + 1, z) :: new). split; [|split].
      * rewrite Hfst, <- app_assoc. reflexivity.
      * rewrite (py_range_len_cons (fun i => klast + 1 + i)). simpl. f_equal; [lia|].
        rewrite Hkeys. apply map_ext. intros i. lia.
      * destruct (snd (loop_pure node_pure cps (d ++ [(klast + 1, z)]))); simpl; lia.
    + exists []. rewrite app_nil_r. simpl. split; [reflexivity|]. split; [reflexivity | lia].
Qed.

Lemma block_init_nodes (channels num_levels : Z) (channels_in : odict Z)
      (block : BiFPNBlock.t) :
  BiFPNBlock.__init__ channels num_levels channels_in = Ok block ->
  length (zip (map snd (BiFPNBlock.combines block))
              (map snd (BiFPNBlock.post_combines block))) = 8%nat.
Proof.
  intros Hinit.
  destruct (block_init_structure _ _ _ _ Hinit) as (_ & post & cs & _ & Hcs & ->).
  rewrite length_map. apply Forall2_length in Hcs. rewrite <- Hcs. reflexivity.
Qed.

(** X14.  A constructed block called on a mapping with ascending keys
    appends the outputs of its eight nodes to that mapping, under the
    eight keys after the last one; when a node raises, the outputs of the
    nodes before it have been appended already. *)
Theorem block_appends_eight_nodes (channels num_levels : Z) (channels_in : odict Z)
        (self : BiFPNBlock.t) (l : loc) (s : heap) (d0 : odict Tensor)
        (klast : Z) (vlast : Tensor) :
  BiFPNBlock.__init__ channels num_levels channels_in = Ok self ->
  s !! l = Some d0 ->
  is_ascending (od_keys d0) = true ->
  od_last_item d0 = Ok (klast, vlast) ->
  match BiFPNBlock.__call__ self l s with
  | Return r s' =>
      exists new, s' !! l = Some (d0 ++ new) /\
                  od_keys new = map (fun i => klast + 1 + i) (py_range 8)
  | Throw e s' =>
      exists new, s' !! l = Some (d0 ++ new) /\ len new < 8 /\
                  od_keys new = map (fun i => klast + 1 + i) (py_range (len new))
  end.
Proof.
  intros Hinit Hl Hasc Hlast. pose proof (lookup_lt_Some _ _ _ Hl) as Hlt.
  pose proof (block_init_nodes _ _ _ _ Hinit) as Hcount.
  rewrite (block_call_spec self l s d0 Hl). unfold block_pure.
  destruct (od_first_key d0) as [first|e] eqn:Efirst.
  - destruct (node_loop_appends
                (zip (map snd (BiFPNBlock.combines self))
                     (map snd (BiFPNBlock.post_combines self)))
                d0 klast vlast Hasc Hlast) as (new & Hfst & Hkeys & Hn).
    rewrite Hcount in Hn.
    destruct (loop_pure node_pure _ d0) as [d [e|]]; simpl in Hfst, Hn; subst d.
    + exists new. split; [now apply list_lookup_insert_eq|].
      split; [unfold len; lia | exact Hkeys].
    + exists new. split.
      * rewrite lookup_app_l by (rewrite length_insert; exact Hlt).
        now apply list_lookup_insert_eq.
      * rewrite Hkeys. unfold len. now rewrite Hn.
  - destruct d0; [discriminate Hlast | destruct p; discriminate Efirst].
Qed.

End BlockNodes.

(** X14 at the first block of the scenario of the specification. *)
Lemma block_appends_eight_nodes_witness :
  @BiFPNBlock.__init__ null_torch 64 5 [(3, 40); (4, 80); (5, 160)] = Ok block_345 /\
  [pyramid_345] !! 0%nat = Some pyramid_345 /\
  is_ascending (od_keys pyramid_345) = true /\
  od_last_item pyramid_345 = Ok (7, blank 64 4 4) /\
  match @BiFPNBlock.__call__ null_torch block_345 0%nat [pyramid_345] with
  | Return r s' =>
      exists new, s' !! 0%nat = Some (pyramid_345 ++ new) /\
                  od_keys new = map (fun i => 7 + 1 + i) (py_range 8)
  | Throw e s' =>
      exists new, s' !! 0%nat = Some (pyramid_345 ++ new) /\ len new < 8 /\
                  od_keys new = map (fun i => 7 + 1 + i) (py_range (len new))
  end.
Proof.
  split; [reflexivity|]. split; [reflexivity|]. split; [reflexivity|].
  split; [reflexivity|].
  apply (@block_appends_eight_nodes null_torch 64 5 [(3, 40); (4, 80); (5, 160)]
           block_345 0%nat [pyramid_345] pyramid_345 7 (blank 64 4 4)); reflexivity.
Defined.

(** ** The exceptions of a node and of the forward call *)

Section NodeErrors.
Context `{Torch}.

Lemma rbind_raise {A B : Type} (r : result A) (k : A -> result B) (e : exn) :
  rbind r k = Raise e -> r = Raise e \/ exists a, r = Ok a /\ k a = Raise e.
Proof. destruct r as [a|e']; simpl; [eauto | intros [= ->]; auto]. Qed.

Lemma foldM_raise {A S : Type} (P : S -> Prop) (Q : A -> Prop) (E : exn -> Prop)
      (f : S -> A -> result S) :
  (forall s a s', P s -> Q a -> f s a = Ok s' -> P s') ->
  (forall s a e, P s -> Q a -> f s a = Raise e -> E e) ->
  forall l s e, P s -> Forall Q l -> foldM f l s = Raise e -> E e.
Proof.
  intros Hok Herr l. induction l as [|a l IH]; intros s e Hs Hl; simpl; [discriminate|].
  inversion Hl as [|? ? Ha Hl']; subst.
  intros [Hr|(s' & Hs' & Hr)]%rbind_raise; [exact (Herr s a e Hs Ha Hr)|].
  exact (IH s' e (Hok s a s' Hs Ha Hs') Hl' Hr).
Qed.

Lemma mapM_raise {A B : Type} (f : A -> result B) (l : list A) (e : exn) :
  mapM f l = Raise e -> exists a, In a l /\ f a = Raise e.
Proof.
  induction l as [|a l IH]; simpl; [discriminate|].
  intros [Hr|(b & _ & Hr)]%rbind_raise; [eauto|].
  apply rbind_raise in Hr as [Hr|(bs & _ & Hr)]; [|discriminate].
  destruct (IH Hr) as (a' & Hin & Ha'). eauto.
Qed.

Lemma py_max_In (l : list Z) (m : Z) : py_max l = Ok m -> In m l.
Proof.
  destruct l as [|x l]; simpl; [discriminate|]. intros [= <-].
  revert x. induction l as [|y l IH]; intros x; simpl; [auto|].
  destruct (IH (Z.max x y)) as [Hm|Hm]; [|right; right; exact Hm].
  rewrite <- Hm. destruct (Z.max_spec x y) as [[_ ->]|[_ ->]]; simpl; auto.
Qed.

Lemma py_max_raise (l : list Z) (e : exn) :
  py_max l = Raise e -> l = [] /\ e = ValueError.
Proof. destruct l; simpl; [intros [= <-]; auto | discriminate]. Qed.

Lemma od_item_raise {V : Type} (d : odict V) (k : Z) (e : exn) :
  od_item d k = Raise e -> od_get d k = None /\ e = KeyError k.
Proof. unfold od_item. destruct (od_get d k); [discriminate | intros [= <-]; auto]. Qed.

Lemma stack_sum_raise (ts : list Tensor) (e : exn) :
  stack_sum ts = Raise e -> e = RuntimeError.
Proof.
  destruct ts as [|t ts]; simpl; [congruence|].
  destruct (forallb (same_shape t) ts); congruence.
Qed.

Lemma in_enumerate_inv {A : Type} (l : list A) (i : Z) (a : A) :
  In (i, a) (enumerate l) ->
  In a l /\ exists n : nat, i = Z.of_nat n /\ (n < length l)%nat.
Proof.
  rewrite enumerate_eq.
  assert (Hgen : forall (l : list A) (k : nat),
             In (i, a) (zip (map Z.of_nat (seq k (length l))) l) ->
             In a l /\ exists n : nat, i = Z.of_nat n /\ (k <= n < k + length l)%nat).
  { clear l. induction l as [|a' l IH]; intros k; simpl; [tauto|].
    intros [[= <- <-]|Hin].
    - split; [auto|]. exists k. split; [reflexivity | lia].
    - destruct (IH (S k) Hin) as (Ha & n & Hn & Hb).
      split; [auto|]. exists n. split; [exact Hn | lia]. }
  intros Hin. destruct (Hgen l 0%nat Hin) as (Ha & n & Hn & Hb).
  split; [exact Ha|]. exists n. split; [exact Hn | lia].
Qed.

(** A turn of the gathering loop on a key of the mapping can only fail
    inside the lateral convolution. *)
Lemma gather_step_error (self : CombineLevels.t) (x nodes : odict Tensor)
      (node : Z) (e : exn) :
  (CombineLevels.lateral_node self <> None -> CombineLevels.lateral_conv self <> None) ->
  (forall conv, CombineLevels.lateral_conv self = Some conv ->
                free_of_batch_norm conv = true) ->
  od_get x node <> None ->
  CombineLevels.gather_step self x nodes node = Raise e -> e = RuntimeError.
Proof.
  intros Hconv Hplain Hx. unfold CombineLevels.gather_step, od_item.
  destruct (od_get x node) as [xn|]; [|contradiction].
  assert (Hrest : (if py_in node (CombineLevels.offsets self)
                   then (m <- py_max (CombineLevels.offsets self) ;;
                         if negb (node =? m)
                         then (xn' <- Ok xn ;; Ok (od_set nodes node xn'))
                         else Ok nodes)%result
                   else Ok nodes) = Raise e -> e = RuntimeError).
  { destruct (py_in node (CombineLevels.offsets self)) eqn:Ein; [|discriminate].
    destruct (CombineLevels.offsets self) as [|o os]; [discriminate Ein|].
    simpl. destruct (negb (node =? fold_left Z.max os o)); discriminate. }
  destruct (CombineLevels.lateral_node self) as [l|] eqn:El; [|exact Hrest].
  destruct (node =? l); [|exact Hrest].
  destruct (CombineLevels.lateral_conv self) as [conv|]; [|now destruct Hconv].
  simpl. destruct (forward conv xn) as [y|e'] eqn:Ey; simpl; [discriminate|].
  intros [= <-]. exact (forward_plain_error conv xn e' (Hplain conv eq_refl) Ey).
Qed.

(** After a turn of the gathering loop that succeeded, what had been
    gathered is still there, and so is the key of the turn if it is an
    offset other than the largest. *)
Lemma gather_step_present (self : CombineLevels.t) (x nodes nodes' : odict Tensor)
      (node m : Z) :
  py_max (CombineLevels.offsets self) = Ok m ->
  CombineLevels.gather_step self x nodes node = Ok nodes' ->
  (forall k, od_get nodes k <> None -> od_get nodes' k <> None) /\
  (In node (CombineLevels.offsets self) -> node <> m -> od_get nodes' node <> None).
Proof.
  intros Hmax. unfold CombineLevels.gather_step. rewrite Hmax. cbn [rbind].
  assert (Hset : forall v, (forall k, od_get nodes k <> None ->
                                      od_get (od_set nodes node v) k <> None) /\
                           (In node (CombineLevels.offsets self) -> node <> m ->
                            od_get (od_set nodes node v) node <> None)).
  { intros v. split; intros; apply od_set_present; auto. }
  assert (Hrest : (if py_in node (CombineLevels.offsets self)
                   then if negb (node =? m)
                        then (xn <- od_item x node ;; Ok (od_set nodes node xn))%result
                        else Ok nodes
                   else Ok nodes) = Ok nodes' ->
                  (forall k, od_get nodes k <> None -> od_get nodes' k <> None) /\
                  (In node (CombineLevels.offsets self) -> node <> m ->
                   od_get nodes' node <> None)).
  { destruct (py_in node (CombineLevels.offsets self)) eqn:Ein.
    - destruct (Z.eqb_spec node m) as [->|Hne]; simpl.
      + intros [= <-]. split; [auto | congruence].
      + intros (xn & _ & [= <-])%rbind_ok. apply Hset.
    - intros [= <-]. split; [auto|]. intros Hin%py_in_In. congruence. }
  destruct (CombineLevels.lateral_node self) as [l|]; [|exact Hrest].
  destruct (node =? l); [|exact Hrest].
  intros (conv & _ & Hs)%rbind_ok.
  apply rbind_ok in Hs as (xn & _ & Hs). apply rbind_ok in Hs as (y & _ & [= <-]).
  apply Hset.
Qed.

Lemma gather_loop_present (self : CombineLevels.t) (x : odict Tensor) (m : Z) :
  py_max (CombineLevels.offsets self) = Ok m ->
  forall (ks : list Z) (nodes nodes' : odict Tensor),
    foldM (CombineLevels.gather_step self x) ks nodes = Ok nodes' ->
    (forall k, od_get nodes k <> None -> od_get nodes' k <> None) /\
    (forall k, In k ks -> In k (CombineLevels.offsets self) -> k <> m ->
               od_get nodes' k <> None).
Proof.
  intros Hmax ks. induction ks as [|k0 ks IH]; intros nodes nodes'; simpl.
  - intros [= <-]. split; [auto | tauto].
  - intros (nodes1 & Hstep & Hfold)%rbind_ok.
    destruct (gather_step_present self x nodes nodes1 k0 m Hmax Hstep) as [Hkeep1 Hk0].
    destruct (IH nodes1 nodes' Hfold) as [Hkeep Hnew].
    split; [auto|]. intros k [<-|Hin] Hoff Hm; auto.
Qed.

(** The ways in which a fusion node can fail. *)
Lemma call_errors (self : CombineLevels.t) (x : odict Tensor) (e : exn) :
  length (CombineLevels.weights self) = length (CombineLevels.offsets self) ->
  (CombineLevels.lateral_node self <> None -> CombineLevels.lateral_conv self <> None) ->
  (forall conv, CombineLevels.lateral_conv self = Some conv ->
                free_of_batch_norm conv = true) ->
  free_of_batch_norm (CombineLevels.resample self) = true ->
  CombineLevels.__call__ self x = Raise e ->
  (CombineLevels.offsets self = [] /\ e = ValueError) \/
  (exists o, In o (CombineLevels.offsets self) /\ od_get x o = None /\ e = KeyError o) \/
  e = RuntimeError.
Proof.
  intros Hlen Hconv Hplain Hres. unfold CombineLevels.__call__, CombineLevels.gather_nodes.
  intros [Hg|(nodes & Hg & Hc)]%rbind_raise.
  - apply rbind_raise in Hg as [Hloop|(nodes0 & _ & Hg)].
    { right. right.
      apply (foldM_raise (fun _ => True) (fun k => od_get x k <> None)
               (fun e => e = RuntimeError) (CombineLevels.gather_step self x))
        with (l := od_keys x) (s := @nil (Z * Tensor)); auto.
      - intros nodes k e' _ Hk. now apply gather_step_error.
      - apply List.Forall_forall. intros k Hk E. now apply od_get_None_keys in E. }
    apply rbind_raise in Hg as [Hmax|(m & Hmax & Hg)];
      [left; now apply py_max_raise|].
    apply rbind_raise in Hg as [Hxm|(xm & _ & Hg)].
    { right. left. apply od_item_raise in Hxm as [Hnone ->].
      exists m. auto using py_max_In. }
    apply rbind_raise in Hg as [Hy|(y & _ & Hg)]; [|discriminate].
    right. right. exact (forward_plain_error _ _ _ Hres Hy).
  - apply rbind_ok in Hg as (nodes0 & Hloop & Hg).
    apply rbind_ok in Hg as (m & Hmax & Hg).
    apply rbind_ok in Hg as (xm & Hxm & Hg).
    apply rbind_ok in Hg as (y & _ & [= <-]).
    destruct (gather_loop_present self x m Hmax _ _ _ Hloop) as [_ Hpres].
    unfold CombineLevels.combine_nodes in Hc.
    apply rbind_raise in Hc as [Hterms|(terms & _ & Hsum)];
      [|right; right; exact (stack_sum_raise _ _ Hsum)].
    apply mapM_raise in Hterms as ([i o] & Hin & Hterm).
    apply in_enumerate_inv in Hin as (Ho & n & -> & Hn).
    unfold CombineLevels.weighted_term in Hterm. cbn [fst snd] in Hterm.
    apply rbind_raise in Hterm as [Hitem|(t & _ & Hterm)].
    + right. left. apply od_item_raise in Hitem as [Hnone ->].
      exists o. split; [exact Ho|]. split; [|reflexivity].
      destruct (Z.eq_dec m o) as [->|Hne]; [now rewrite od_get_set_eq in Hnone|].
      rewrite od_get_set_ne in Hnone by exact Hne.
      destruct (od_get x o) eqn:Ex; [|reflexivity].
      exfalso. apply (Hpres o); auto.
      destruct (in_dec Z.eq_dec o (od_keys x)) as [Hk|Hk]; [exact Hk|].
      apply od_get_None_keys in Hk. congruence.
    + apply rbind_raise in Hterm as [Hidx|(w & _ & Hterm)]; [|discriminate].
      rewrite py_index_nat, lookup_map in Hidx.
      destruct (CombineLevels.weights self !! n) eqn:Ew; [discriminate|].
      apply lookup_ge_None in Ew. lia.
Qed.

Lemma lateral_loop_inv (levels_in : odict Z) (channels : Z) :
  forall (os : list Z) (st st' : option Z * option Layer),
    (fst st <> None -> snd st <> None) ->
    foldM (CombineLevels.lateral_step levels_in channels) os st = Ok st' ->
    fst st' <> None -> snd st' <> None.
Proof.
  induction os as [|o os IH]; intros st st' Hst; simpl.
  - now intros [= <-].
  - intros (st1 & Hstep & Hfold)%rbind_ok. apply (IH st1 st'); [|exact Hfold].
    unfold CombineLevels.lateral_step in Hstep.
    destruct (od_get levels_in o) as [c|]; [|injection Hstep as <-; exact Hst].
    destruct (negb (c =? channels)); [|injection Hstep as <-; exact Hst].
    apply rbind_ok in Hstep as (conv & _ & [= <-]). discriminate.
Qed.

Lemma lateral_loop_plain (levels_in : odict Z) (channels : Z) :
  forall (os : list Z) (st st' : option Z * option Layer),
    (forall conv, snd st = Some conv -> free_of_batch_norm conv = true) ->
    foldM (CombineLevels.lateral_step levels_in channels) os st = Ok st' ->
    forall conv, snd st' = Some conv -> free_of_batch_norm conv = true.
Proof.
  induction os as [|o os IH]; intros st st' Hst; simpl.
  - now intros [= <-].
  - intros (st1 & Hstep & Hfold)%rbind_ok. apply (IH st1 st'); [|exact Hfold].
    unfold CombineLevels.lateral_step in Hstep.
    destruct (od_get levels_in o) as [c|]; [|injection Hstep as <-; exact Hst].
    destruct (negb (c =? channels)); [|injection Hstep as <-; exact Hst].
    apply rbind_ok in Hstep as (conv & Hconv & [= <-]). simpl.
    intros conv' [= <-]. exact (nn_Conv2d_plain _ _ _ _ _ _ _ Hconv).
Qed.

(** The layers of a constructed node hold no batch normalisation. *)
Lemma init_node_plain (param : node_param) (index_offset channels : Z)
      (levels_in : odict Z) (self : CombineLevels.t) :
  CombineLevels.__init__ param index_offset channels levels_in = Ok self ->
  (forall conv, CombineLevels.lateral_conv self = Some conv ->
                free_of_batch_norm conv = true) /\
  free_of_batch_norm (CombineLevels.resample self) = true.
Proof.
  unfold CombineLevels.__init__. intros (lat & Hlat & [= <-])%rbind_ok. simpl.
  split; [|now destruct (np_upsample param)].
  refine (lateral_loop_plain levels_in channels _ (None, None) lat _ Hlat).
  simpl. discriminate.
Qed.

(** What construction establishes about a node. *)
Lemma init_node_inv (param : node_param) (index_offset channels : Z)
      (levels_in : odict Z) (self : CombineLevels.t) :
  CombineLevels.__init__ param index_offset channels levels_in = Ok self ->
  CombineLevels.offsets self
  = map (fun offset => index_offset + offset) (np_offsets param) /\
  length (CombineLevels.weights self) = length (CombineLevels.offsets self) /\
  (CombineLevels.lateral_node self <> None -> CombineLevels.lateral_conv self <> None).
Proof.
  unfold CombineLevels.__init__. intros (lat & Hlat & [= <-])%rbind_ok. simpl.
  split; [reflexivity|]. split; [apply length_replicate|].
  refine (lateral_loop_inv levels_in channels _ (None, None) lat _ Hlat).
  simpl. congruence.
Qed.

(** X17.  A constructed node fails in three ways only: [ValueError] when
    it has no offsets ([max] of an empty list), [KeyError] for one of its
    resolved offsets that is missing from the mapping, and [RuntimeError]
    from the tensor engine.  So [lateral_conv] is never read unassigned
    and the weight vector is never indexed out of range. *)
Theorem node_call_errors (param : node_param) (index_offset channels : Z)
        (levels_in : odict Z) (self : CombineLevels.t) (x : odict Tensor) (e : exn) :
  CombineLevels.__init__ param index_offset channels levels_in = Ok self ->
  CombineLevels.__call__ self x = Raise e ->
  (np_offsets param = [] /\ e = ValueError) \/
  (exists offset, In offset (np_offsets param) /\
                  od_get x (index_offset + offset) = None /\
                  e = KeyError (index_offset + offset)) \/
  e = RuntimeError.
Proof.
  intros Hinit Hcall.
  destruct (init_node_inv _ _ _ _ _ Hinit) as (Hoffs & Hlen & Hconv).
  destruct (init_node_plain _ _ _ _ _ Hinit) as (Hplain & Hres).
  destruct (call_errors self x e Hlen Hconv Hplain Hres Hcall)
    as [[Hnil ->] | [(o & Ho & Hx & ->) | ->]].
  - left. split; [|reflexivity]. rewrite Hoffs in Hnil.
    destruct (np_offsets param); [reflexivity | discriminate].
  - right. left. rewrite Hoffs in Ho. apply in_map_iff in Ho as (offset & <- & Hin).
    eauto.
  - auto.
Qed.

End NodeErrors.

(** X17 at a node with offsets 4 and 5, called on a mapping that lacks
    level 5. *)
Lemma node_call_errors_witness :
  @CombineLevels.__init__ null_torch (mk_node_param 6 [3; 4] true) 1 64
    [(3, 40); (4, 80); (5, 160)] = Ok combine_45 /\
  @CombineLevels.__call__ null_torch combine_45 [(4, blank 80 32 32)]
  = Raise (KeyError 5) /\
  ((np_offsets (mk_node_param 6 [3; 4] true) = [] /\ KeyError 5 = ValueError) \/
   (exists offset, In offset (np_offsets (mk_node_param 6 [3; 4] true)) /\
                   od_get [(4, blank 80 32 32)] (1 + offset) = None /\
                   KeyError 5 = KeyError (1 + offset)) \/
   KeyError 5 = RuntimeError).
Proof.
  split; [reflexivity|]. split; [reflexivity|].
  apply (@node_call_errors null_torch (mk_node_param 6 [3; 4] true) 1 64
           [(3, 40); (4, 80); (5, 160)] combine_45 [(4, blank 80 32 32)] (KeyError 5));
    reflexivity.
Defined.

Section ForwardErrors.
Context `{Torch}.

Lemma loop_pure_inv {A : Type} (P : odict Tensor -> Prop) (Q : A -> Prop)
      (E : exn -> Prop) (body : A -> odict Tensor -> result (odict Tensor)) :
  (forall a d d', P d -> Q a -> body a d = Ok d' -> P d') ->
  (forall a d e, P d -> Q a -> body a d = Raise e -> E e) ->
  forall (xs : list A) (d : odict Tensor),
    P d -> Forall Q xs ->
    P (fst (loop_pure body xs d)) /\
    forall e, snd (loop_pure body xs d) = Some e -> E e.
Proof.
  intros Hok Herr xs. induction xs as [|a xs IH]; intros d Hd Hxs; simpl.
  - split; [exact Hd | discriminate].
  - inversion Hxs as [|? ? Ha Hxs']; subst.
    destruct (body a d) as [d'|e] eqn:Eb.
    + apply IH; [exact (Hok a d d' Hd Ha Eb) | exact Hxs'].
    + simpl. split; [exact Hd|]. intros e' [= <-]. exact (Herr a d e Hd Ha Eb).
Qed.

Lemma foldM_ok_inv {A S : Type} (P : S -> Prop) (f : S -> A -> result S) :
  (forall s a s', P s -> f s a = Ok s' -> P s') ->
  forall l s s', P s -> foldM f l s = Ok s' -> P s'.
Proof.
  intros Hf l. induction l as [|a l IH]; intros s s' Hs; simpl.
  - now intros [= <-].
  - intros (s1 & Hs1 & Hfold)%rbind_ok. exact (IH s1 s' (Hf s a s1 Hs Hs1) Hfold).
Qed.

Lemma od_set_nonempty {V : Type} (d : odict V) (k : Z) (v : V) : od_set d k v <> [].
Proof. destruct d as [|[k' v'] d]; simpl; [|destruct (k' =? k)]; discriminate. Qed.

Lemma od_last_item_nonempty {V : Type} (d : odict V) :
  d <> [] -> exists kv, od_last_item d = Ok kv.
Proof.
  intros Hd. unfold od_last_item. destruct (last d) as [kv|] eqn:E; [eauto|].
  apply last_None in E. contradiction.
Qed.

Lemma downsample_pure_errors (layer : Layer) (d : odict Tensor) :
  d <> [] ->
  match downsample_pure layer d with
  | Ok d' => d' <> []
  | Raise e => e = RuntimeError \/ (e = ValueError /\ batch_size = 1%positive)
  end.
Proof.
  intros Hd. unfold downsample_pure.
  destruct (od_last_item_nonempty d Hd) as [top ->]. cbn [rbind].
  destruct (forward layer (snd top)) as [y|e] eqn:Ey; simpl.
  - apply od_set_nonempty.
  - exact (forward_error _ _ _ Ey).
Qed.

Lemma node_pure_errors (param : node_param) (index_offset channels : Z)
      (levels_in : odict Z) (c : CombineLevels.t) (post : Layer) (d : odict Tensor) :
  CombineLevels.__init__ param index_offset channels levels_in = Ok c ->
  np_offsets param <> [] ->
  d <> [] ->
  match node_pure (c, post) d with
  | Ok d' => d' <> []
  | Raise e => is_lookup_or_engine_error e
  end.
Proof.
  intros Hinit Hoffs Hd. unfold node_pure. cbn [fst snd].
  destruct (od_last_item_nonempty d Hd) as [last ->]. cbn [rbind].
  destruct (init_node_inv _ _ _ _ _ Hinit) as (Eoffs & Hlen & Hconv).
  destruct (init_node_plain _ _ _ _ _ Hinit) as (Hplain & Hres).
  destruct (CombineLevels.__call__ c d) as [y|e] eqn:Ec; simpl.
  - destruct (forward post y) as [z|e] eqn:Ez; simpl.
    + apply od_set_nonempty.
    + destruct (forward_error _ _ _ Ez) as [->|Hv]; [now left | right; left; exact Hv].
  - destruct (call_errors c d e Hlen Hconv Hplain Hres Ec)
      as [[Hnil _] | [(o & _ & _ & ->) | ->]].
    + rewrite Eoffs in Hnil. destruct (np_offsets param); [congruence | discriminate].
    + right. right. eauto.
    + now left.
Qed.

Lemma node_params_offsets : Forall (fun p => np_offsets p <> []) _NODE_PARAMS.
Proof. repeat constructor; discriminate. Qed.

Lemma retval_of_nonempty (num_levels off : Z) (d : odict Tensor) :
  1 <= num_levels -> d <> [] -> retval_of num_levels off d <> [].
Proof.
  intros Hn Hd Hnil.
  destruct (retval_of_last num_levels off d) as [Hv _]. rewrite Hnil in Hv.
  simpl in Hv. symmetry in Hv. apply (f_equal (@length Tensor)) in Hv.
  rewrite length_drop in Hv. unfold od_values in Hv. rewrite length_map in Hv.
  unfold len in Hv. destruct d; [congruence|]. simpl in Hv. lia.
Qed.

Lemma block_pure_errors (channels num_levels : Z) (channels_in : odict Z)
      (block : BiFPNBlock.t) (d : odict Tensor) :
  BiFPNBlock.__init__ channels num_levels channels_in = Ok block ->
  1 <= num_levels -> d <> [] ->
  match snd (block_pure block d) with
  | Ok o => o <> []
  | Raise e => is_lookup_or_engine_error e
  end.
Proof.
  intros Hinit Hn Hd.
  destruct (block_init_structure _ _ _ _ Hinit) as (Hnum & post & cs & _ & Hcs & Hzip).
  unfold block_pure. rewrite Hzip, Hnum.
  destruct d as [|[first v] d'] eqn:Ed; [congruence|]. cbn [od_first_key].
  rewrite <- Ed in *. clear Ed.
  destruct (loop_pure_inv (fun d => d <> [])
              (fun cp : CombineLevels.t * Layer =>
                 exists param, np_offsets param <> [] /\
                   CombineLevels.__init__ param (num_levels - len channels_in + 1)
                     channels channels_in = Ok (fst cp))
              is_lookup_or_engine_error node_pure)
    with (xs := map (fun c => (c, post)) cs) (d := d) as [Hne Herr].
  - intros [c p] d1 d2 Hd1 (param & Hoffs & Hc) Hnode.
    pose proof (node_pure_errors param _ _ _ c p d1 Hc Hoffs Hd1) as Hn1.
    now rewrite Hnode in Hn1.
  - intros [c p] d1 e Hd1 (param & Hoffs & Hc) Hnode.
    pose proof (node_pure_errors param _ _ _ c p d1 Hc Hoffs Hd1) as Hn1.
    now rewrite Hnode in Hn1.
  - exact Hd.
  - pose proof node_params_offsets as Hall. revert Hall. clear -Hcs.
    generalize dependent _NODE_PARAMS. intros ps Hcs.
    induction Hcs as [|param c ps cs' Hc _ IH]; intros Hall; simpl; constructor.
    + simpl. inversion Hall; subst. eauto.
    + apply IH. now inversion Hall.
  - destruct (loop_pure node_pure _ d) as [d1 [e|]]; simpl in *.
    + now apply Herr.
    + now apply retval_of_nonempty.
Qed.

Lemma blocks_pure_errors (channels num_levels : Z) :
  1 <= num_levels ->
  forall (blocks : list BiFPNBlock.t) (d : odict Tensor),
    Forall (fun b => exists channels_in,
                       BiFPNBlock.__init__ channels num_levels channels_in = Ok b) blocks ->
    d <> [] ->
    match snd (blocks_pure blocks d) with
    | Ok o => o <> []
    | Raise e => is_lookup_or_engine_error e
    end.
Proof.
  intros Hn blocks. induction blocks as [|b blocks IH]; intros d Hall Hd; simpl.
  - exact Hd.
  - inversion Hall as [|? ? (channels_in & Hb) Hall']; subst.
    pose proof (block_pure_errors _ _ _ b d Hb Hn Hd) as Hblock.
    destruct (block_pure b d) as [d1 [out|e1]]; simpl in *.
    + now apply IH.
    + exact Hblock.
Qed.

Lemma Forall_map_snd {A B : Type} (P : B -> Prop) (l : list (A * B)) :
  Forall (fun ab => P (snd ab)) l -> Forall P (map snd l).
Proof. induction 1; simpl; constructor; assumption. Qed.

Lemma init_blocks_constructed (in_channels : list Z) (out_channels num_bifpns
      bifpn_height : Z) (levels : list Z) (self : BiFPN.t) :
  BiFPN.__init__ in_channels out_channels num_bifpns bifpn_height levels = Ok self ->
  BiFPN.init_downsample_convs in_channels out_channels bifpn_height levels
  = Ok (BiFPN.downsample_convs self) /\
  Forall (fun b => exists channels_in,
            BiFPNBlock.__init__ out_channels bifpn_height channels_in = Ok b)
         (map snd (BiFPN.bifp_layers self)).
Proof.
  unfold BiFPN.__init__. intros (convs & Hconvs & Hinit)%rbind_ok.
  apply rbind_ok in Hinit as (channel_dict & _ & Hinit).
  apply rbind_ok in Hinit as (layers & Hlayers & [= <-]). simpl.
  split; [exact Hconvs|]. apply Forall_map_snd.
  apply (foldM_ok_inv
           (Forall (fun nb : Z * BiFPNBlock.t => exists channels_in,
                      BiFPNBlock.__init__ out_channels bifpn_height channels_in
                      = Ok (snd nb)))
           (BiFPN.init_step out_channels bifpn_height levels channel_dict))
    with (l := py_range num_bifpns) (s := @nil (Z * BiFPNBlock.t));
    [|constructor | exact Hlayers].
  intros ls idx ls' Hls. unfold BiFPN.init_step.
  intros (block & Hblock & [= <-])%rbind_ok.
  apply add_module_Forall; [exact Hls|]. intros name. simpl. eauto.
Qed.

(** X10.  The forward call of a constructed model with
    [bifpn_height >= 1] on a non-empty mapping either returns a non-empty
    mapping or raises one of four exceptions: [AttributeError] (only when
    [bifpn_height == len(levels)]), [KeyError] (an offset of a node is
    missing), [RuntimeError] (the tensor engine refuses a shape) or
    [ValueError] (only on a batch of one image: batch normalisation in
    training mode is given a single value per channel).  It never raises
    [StopIteration] or [IndexError]. *)
Theorem forward_errors (in_channels : list Z) (out_channels num_bifpns bifpn_height : Z)
        (levels : list Z) (self : BiFPN.t) (l : loc) (s : heap) (d : odict Tensor) :
  BiFPN.__init__ in_channels out_channels num_bifpns bifpn_height levels = Ok self ->
  1 <= bifpn_height ->
  s !! l = Some d -> d <> [] ->
  match BiFPN.__call__ self l s with
  | Return r s' => exists o, s' !! r = Some o /\ o <> []
  | Throw e s' =>
      (bifpn_height = len levels /\ e = AttributeError) \/
      e = RuntimeError \/
      (e = ValueError /\ batch_size = 1%positive) \/
      exists k, e = KeyError k
  end.
Proof.
  intros Hinit Hh Hl Hd.
  destruct (init_blocks_constructed _ _ _ _ _ _ Hinit) as [Hconvs Hblocks].
  pose proof (call_spec self l s d Hl) as Hcall.
  assert (Hpure : match snd (call_pure self d) with
                  | Ok o => o <> []
                  | Raise e => (bifpn_height = len levels /\ e = AttributeError) \/
                               is_lookup_or_engine_error e
                  end).
  { unfold call_pure.
    destruct (BiFPN.downsample_convs self) as [layers|].
    - destruct (loop_pure_inv (fun d => d <> []) (fun _ => True)
                  (fun e => e = RuntimeError \/
                            (e = ValueError /\ batch_size = 1%positive))
                  downsample_pure)
        with (xs := layers) (d := d) as [Hne Herr].
      + intros layer d1 d2 Hd1 _ Hstep.
        pose proof (downsample_pure_errors layer d1 Hd1) as Hs. now rewrite Hstep in Hs.
      + intros layer d1 e Hd1 _ Hstep.
        pose proof (downsample_pure_errors layer d1 Hd1) as Hs. now rewrite Hstep in Hs.
      + exact Hd.
      + apply List.Forall_forall. auto.
      + destruct (loop_pure downsample_pure layers d) as [d1 [e|]]; simpl in *.
        * right. destruct (Herr e eq_refl) as [->|Hv]; [now left | right; left; exact Hv].
        * pose proof (blocks_pure_errors out_channels bifpn_height Hh _ d1 Hblocks Hne)
            as Hb.
          destruct (snd (blocks_pure (map snd (BiFPN.bifp_layers self)) d1)) as [o|e];
            [exact Hb | right; exact Hb].
    - simpl. left. split; [|reflexivity].
      unfold BiFPN.init_downsample_convs in Hconvs.
      destruct (Z.eqb_spec bifpn_height (len levels)) as [E|E]; [exact E|].
      simpl in Hconvs. apply rbind_ok in Hconvs as (c & _ & Hconvs).
      apply rbind_ok in Hconvs as (conv & _ & Hconvs). discriminate. }
  destruct (BiFPN.__call__ self l s) as [r s'|e s'].
  - destruct Hcall as (out & Hout & Hr & _). rewrite Hout in Hpure. eauto.
  - destruct Hcall as [Hraise _]. rewrite Hraise in Hpure. exact Hpure.
Qed.

End ForwardErrors.

(** X10 at a backbone whose levels are numbered 2 to 4: the call raises
    [KeyError 7]. *)
Lemma forward_errors_witness :
  @BiFPN.__init__ null_torch [40; 80; 160] 64 1 5 [2; 3; 4] = Ok bifpn_234 /\
  1 <= 5 /\ [input_234] !! 0%nat = Some input_234 /\ input_234 <> [] /\
  match @BiFPN.__call__ null_torch bifpn_234 0%nat [input_234] with
  | Return r s' => exists o, s' !! r = Some o /\ o <> []
  | Throw e s' =>
      (5 = len [2; 3; 4] /\ e = AttributeError) \/
      e = RuntimeError \/
      (e = ValueError /\ @batch_size null_torch = 1%positive) \/
      exists k, e = KeyError k
  end.
Proof.
  split; [reflexivity|]. split; [lia|]. split; [reflexivity|]. split; [discriminate|].
  apply (@forward_errors null_torch [40; 80; 160] 64 1 5 [2; 3; 4] bifpn_234 0%nat
           [input_234] input_234); first [reflexivity | lia | discriminate].
Defined.

(** ** The order of the entries *)

Section Order.
Context `{Torch}.

Lemma same_entries_set {V : Type} (d1 d2 : odict V) (k : Z) (v : V) :
  same_entries d1 d2 -> same_entries (od_set d1 k v) (od_set d2 k v).
Proof.
  intros Hs k'. destruct (Z.eq_dec k k') as [->|Hne].
  - now rewrite !od_get_set_eq.
  - rewrite !od_get_set_ne by exact Hne. apply Hs.
Qed.

Lemma same_entries_set_swap {V : Type} (d1 d2 : odict V) (k1 k2 : Z) (v1 v2 : V) :
  k1 <> k2 -> same_entries d1 d2 ->
  same_entries (od_set (od_set d1 k1 v1) k2 v2) (od_set (od_set d2 k2 v2) k1 v1).
Proof.
  intros Hne Hs k.
  destruct (Z.eq_dec k2 k) as [->|H2].
  - rewrite od_get_set_eq, od_get_set_ne, od_get_set_eq by exact Hne. reflexivity.
  - rewrite od_get_set_ne by exact H2.
    destruct (Z.eq_dec k1 k) as [->|H1].
    + now rewrite !od_get_set_eq.
    + rewrite !od_get_set_ne by assumption. apply Hs.
Qed.

Lemma same_outcome_trans {V : Type} (r1 r2 r3 : result (odict V)) :
  same_outcome r1 r2 -> same_outcome r2 r3 -> same_outcome r1 r3.
Proof.
  destruct r1 as [d1|e1], r2 as [d2|e2], r3 as [d3|e3]; simpl; try tauto.
  - intros H12 H23 k. now rewrite H12.
  - congruence.
Qed.

(** A turn of the gathering loop does the same thing to whatever has been
    gathered so far: it stores a feature map under its key, or it does
    nothing, or (at the lateral node only) it raises. *)
Lemma gather_step_cases (self : CombineLevels.t) (x : odict Tensor) (node : Z) :
  od_get x node <> None ->
  (exists v, forall nodes,
      CombineLevels.gather_step self x nodes node = Ok (od_set nodes node v)) \/
  (forall nodes, CombineLevels.gather_step self x nodes node = Ok nodes) \/
  (exists e, CombineLevels.lateral_node self = Some node /\
             forall nodes, CombineLevels.gather_step self x nodes node = Raise e).
Proof.
  intros Hx. unfold CombineLevels.gather_step, od_item.
  destruct (od_get x node) as [xn|]; [|contradiction].
  assert (Hrest :
    (exists v, forall nodes : odict Tensor,
        (if py_in node (CombineLevels.offsets self)
         then (m <- py_max (CombineLevels.offsets self) ;;
               if negb (node =? m)
               then (xn' <- Ok xn ;; Ok (od_set nodes node xn'))
               else Ok nodes)%result
         else Ok nodes) = Ok (od_set nodes node v)) \/
    (forall nodes : odict Tensor,
        (if py_in node (CombineLevels.offsets self)
         then (m <- py_max (CombineLevels.offsets self) ;;
               if negb (node =? m)
               then (xn' <- Ok xn ;; Ok (od_set nodes node xn'))
               else Ok nodes)%result
         else Ok nodes) = Ok nodes)).
  { destruct (py_in node (CombineLevels.offsets self)) eqn:Ein; [|now right].
    destruct (CombineLevels.offsets self) as [|o os]; [discriminate Ein|].
    simpl. destruct (negb (node =? fold_left Z.max os o)); [left; eauto | now right]. }
  destruct (CombineLevels.lateral_node self) as [l|] eqn:El;
    [|destruct Hrest as [Hr|Hr]; auto].
  destruct (Z.eqb_spec node l) as [->|Hne]; [|destruct Hrest as [Hr|Hr]; auto].
  destruct (CombineLevels.lateral_conv self) as [conv|]; simpl.
  - destruct (forward conv xn) as [y|e]; simpl.
    + left. eauto.
    + right. right. eauto.
  - right. right. eauto.
Qed.

Lemma gather_step_same (self : CombineLevels.t) (x n1 n2 : odict Tensor) (k : Z) :
  od_get x k <> None -> same_entries n1 n2 ->
  same_outcome (CombineLevels.gather_step self x n1 k)
               (CombineLevels.gather_step self x n2 k).
Proof.
  intros Hk Hs.
  destruct (gather_step_cases self x k Hk) as [[v Hv] | [Hskip | (e & _ & He)]].
  - rewrite !Hv. simpl. now apply same_entries_set.
  - rewrite !Hskip. exact Hs.
  - rewrite !He. reflexivity.
Qed.

Lemma gather_loop_same (self : CombineLevels.t) (x : odict Tensor) :
  forall (ks : list Z) (n1 n2 : odict Tensor),
    Forall (fun k => od_get x k <> None) ks -> same_entries n1 n2 ->
    same_outcome (foldM (CombineLevels.gather_step self x) ks n1)
                 (foldM (CombineLevels.gather_step self x) ks n2).
Proof.
  induction ks as [|k ks IH]; intros n1 n2 Hks Hs; simpl; [exact Hs|].
  inversion Hks as [|? ? Hk Hks']; subst.
  pose proof (gather_step_same self x n1 n2 k Hk Hs) as Hstep.
  destruct (CombineLevels.gather_step self x n1 k) as [n1'|e1],
           (CombineLevels.gather_step self x n2 k) as [n2'|e2]; simpl in *;
    try tauto. now apply IH.
Qed.

Lemma gather_step_swap (self : CombineLevels.t) (x n1 n2 : odict Tensor) (k1 k2 : Z) :
  k1 <> k2 -> od_get x k1 <> None -> od_get x k2 <> None -> same_entries n1 n2 ->
  same_outcome
    (n <- CombineLevels.gather_step self x n1 k1 ;;
     CombineLevels.gather_step self x n k2)%result
    (n <- CombineLevels.gather_step self x n2 k2 ;;
     CombineLevels.gather_step self x n k1)%result.
Proof.
  intros Hne H1 H2 Hs.
  destruct (gather_step_cases self x k1 H1) as [[v1 Hv1] | [Hs1 | (e1 & L1 & He1)]],
           (gather_step_cases self x k2 H2) as [[v2 Hv2] | [Hs2 | (e2 & L2 & He2)]];
    rewrite ?Hv1, ?Hv2, ?Hs1, ?Hs2, ?He1, ?He2; cbn [rbind];
    rewrite ?Hv1, ?Hv2, ?Hs1, ?Hs2, ?He1, ?He2; simpl;
    auto using same_entries_set, same_entries_set_swap.
  congruence.
Qed.

Lemma gather_loop_perm (self : CombineLevels.t) (x : odict Tensor) (ks ks' : list Z) :
  Permutation ks ks' ->
  Forall (fun k => od_get x k <> None) ks -> List.NoDup ks ->
  forall n1 n2, same_entries n1 n2 ->
    same_outcome (foldM (CombineLevels.gather_step self x) ks n1)
                 (foldM (CombineLevels.gather_step self x) ks' n2).
Proof.
  induction 1 as [|k ks ks' Hperm IH|k1 k2 ks|ks1 ks2 ks3 H12 IH12 H23 IH23];
    intros Hks Hnd n1 n2 Hs.
  - exact Hs.
  - simpl. inversion Hks as [|? ? Hk Hks']; subst. inversion Hnd as [|? ? _ Hnd']; subst.
    pose proof (gather_step_same self x n1 n2 k Hk Hs) as Hstep.
    destruct (CombineLevels.gather_step self x n1 k) as [n1'|e1],
             (CombineLevels.gather_step self x n2 k) as [n2'|e2]; simpl in *;
      try tauto. now apply IH.
  - inversion Hks as [|? ? Hk2 Hks']; subst. inversion Hks' as [|? ? Hk1 Hks'']; subst.
    inversion Hnd as [|? ? Hnotin _]; subst.
    assert (Hne : k2 <> k1) by (intros ->; apply Hnotin; now left).
    pose proof (gather_step_swap self x n1 n2 k2 k1 Hne Hk2 Hk1 Hs) as Hswap.
    cbn [foldM].
    destruct (CombineLevels.gather_step self x n1 k2) as [a|ea]; cbn [rbind] in *.
    + destruct (CombineLevels.gather_step self x n2 k1) as [b|eb]; cbn [rbind] in *.
      * destruct (CombineLevels.gather_step self x a k1) as [a'|ea'],
                 (CombineLevels.gather_step self x b k2) as [b'|eb']; simpl in *;
          try tauto. now apply gather_loop_same.
      * destruct (CombineLevels.gather_step self x a k1) as [a'|ea']; simpl in *; tauto.
    + destruct (CombineLevels.gather_step self x n2 k1) as [b|eb]; cbn [rbind] in *.
      * destruct (CombineLevels.gather_step self x b k2) as [b'|eb']; simpl in *; tauto.
      * exact Hswap.
  - apply (same_outcome_trans _ (foldM (CombineLevels.gather_step self x) ks2 n2)).
    + now apply IH12.
    + apply IH23.
      * apply List.Forall_forall. intros k Hk. rewrite List.Forall_forall in Hks.
        apply Hks. apply (Permutation_in k (Permutation_sym H12) Hk).
      * exact (Permutation_NoDup H12 Hnd).
      * intros k. reflexivity.
Qed.

Lemma od_get_In {V : Type} (d : odict V) (k : Z) (v : V) :
  List.NoDup (od_keys d) -> In (k, v) d -> od_get d k = Some v.
Proof.
  induction d as [|[k' v'] d IH]; simpl; [tauto|].
  intros Hnd [[= -> ->]|Hin]; [now rewrite Z.eqb_refl|].
  inversion Hnd as [|? ? Hnotin Hnd']; subst.
  destruct (Z.eqb_spec k' k) as [->|Hne]; [|now apply IH].
  exfalso. apply Hnotin. apply in_map_iff. exists (k, v). auto.
Qed.

Lemma od_get_perm {V : Type} (d d' : odict V) :
  List.NoDup (od_keys d) -> Permutation d d' -> same_entries d d'.
Proof.
  intros Hnd Hperm k.
  assert (Hnd' : List.NoDup (od_keys d'))
    by exact (Permutation_NoDup (Permutation_map fst Hperm) Hnd).
  destruct (od_get d k) as [v|] eqn:E.
  - symmetry. apply od_get_In; [exact Hnd'|].
    apply (Permutation_in _ Hperm).
    clear -E. induction d as [|[k' v'] d IH]; simpl in *; [discriminate|].
    destruct (Z.eqb_spec k' k) as [->|Hne]; [injection E as ->; now left | right; auto].
  - symmetry. apply od_get_None_keys. apply od_get_None_keys in E.
    intros Hin. apply E.
    apply (Permutation_in _ (Permutation_sym (Permutation_map fst Hperm)) Hin).
Qed.

Lemma gather_step_ext (self : CombineLevels.t) (x x' nodes : odict Tensor) (node : Z) :
  same_entries x x' ->
  CombineLevels.gather_step self x nodes node
  = CombineLevels.gather_step self x' nodes node.
Proof. intros Hs. unfold CombineLevels.gather_step, od_item. now rewrite (Hs node). Qed.

Lemma foldM_ext {A S : Type} (f g : S -> A -> result S) (l : list A) (s : S) :
  (forall s a, f s a = g s a) -> foldM f l s = foldM g l s.
Proof.
  intros Hfg. revert s. induction l as [|a l IH]; intros s; simpl; [reflexivity|].
  rewrite Hfg. destruct (g s a); simpl; auto.
Qed.

Lemma mapM_ext {A B : Type} (f g : A -> result B) (l : list A) :
  (forall a, f a = g a) -> mapM f l = mapM g l.
Proof.
  intros Hfg. induction l as [|a l IH]; simpl; [reflexivity|]. now rewrite Hfg, IH.
Qed.

Lemma combine_nodes_same (self : CombineLevels.t) (n1 n2 : odict Tensor) :
  same_entries n1 n2 ->
  CombineLevels.combine_nodes self n1 = CombineLevels.combine_nodes self n2.
Proof.
  intros Hs. unfold CombineLevels.combine_nodes.
  rewrite (mapM_ext (CombineLevels.weighted_term self n1)
                    (CombineLevels.weighted_term self n2)); [reflexivity|].
  intros io. unfold CombineLevels.weighted_term, od_item. now rewrite (Hs (snd io)).
Qed.

(** X18.  [CombineLevels.__call__] iterates over its argument, but the
    order it finds there does not matter: on two mappings with the same
    entries in different orders it returns the same feature map or raises
    the same exception. *)
Theorem node_call_order_independent (self : CombineLevels.t) (x x' : odict Tensor) :
  List.NoDup (od_keys x) -> Permutation x x' ->
  CombineLevels.__call__ self x = CombineLevels.__call__ self x'.
Proof.
  intros Hnd Hperm. pose proof (od_get_perm x x' Hnd Hperm) as Hsame.
  assert (Hloop : same_outcome
            (foldM (CombineLevels.gather_step self x) (od_keys x) [])
            (foldM (CombineLevels.gather_step self x') (od_keys x') [])).
  { rewrite <- (foldM_ext (CombineLevels.gather_step self x)
                          (CombineLevels.gather_step self x'))
      by (intros; now apply gather_step_ext).
    apply gather_loop_perm; [exact (Permutation_map fst Hperm) | | exact Hnd | easy].
    apply List.Forall_forall. intros k Hk E. now apply od_get_None_keys in E. }
  unfold CombineLevels.__call__, CombineLevels.gather_nodes, od_item.
  destruct (foldM (CombineLevels.gather_step self x) (od_keys x) []) as [n1|e1],
           (foldM (CombineLevels.gather_step self x') (od_keys x') []) as [n2|e2];
    simpl in Hloop; try tauto; [|now subst]. cbn [rbind].
  destruct (py_max (CombineLevels.offsets self)) as [m|e]; [|reflexivity]. cbn [rbind].
  rewrite <- (Hsame m). destruct (od_get x m) as [xm|]; [|reflexivity]. cbn [rbind].
  destruct (forward (CombineLevels.resample self) xm) as [y|e]; [|reflexivity].
  cbn [rbind]. apply combine_nodes_same. now apply same_entries_set.
Qed.

End Order.

Lemma x_01_keys : List.NoDup (od_keys x_01).
Proof. repeat constructor; simpl; intuition discriminate. Qed.

(** X18 at a node with two inputs, called on a mapping and on its
    reverse. *)
Lemma node_call_order_independent_witness :
  List.NoDup (od_keys x_01) /\
  Permutation x_01 (rev x_01) /\
  @CombineLevels.__call__ demo_torch combine_01 x_01
  = @CombineLevels.__call__ demo_torch combine_01 (rev x_01).
Proof.
  split; [exact x_01_keys|]. split; [apply perm_swap|].
  apply (@node_call_order_independent demo_torch combine_01 x_01 (rev x_01));
    [exact x_01_keys | apply perm_swap].
Defined.

(** ** What the constructor accepts *)

Section Constructor.
Context `{Torch}.

Lemma foldM_invariant_on {A S : Type} (P : S -> Prop) (Q : A -> Prop)
      (f : S -> A -> result S) :
  (forall s a, P s -> Q a -> exists s', f s a = Ok s' /\ P s') ->
  forall l s, Forall Q l -> P s -> exists s', foldM f l s = Ok s' /\ P s'.
Proof.
  intros Hf l. induction l as [|a l IH]; intros s Hl Hs; simpl; [eauto|].
  inversion Hl as [|? ? Ha Hl']; subst.
  destruct (Hf s a Hs Ha) as (s1 & -> & Hs1). simpl. now apply IH.
Qed.

Lemma nonneg_od_set (d : odict Z) (k c : Z) :
  nonneg_channels d -> 0 <= c -> nonneg_channels (od_set d k c).
Proof.
  unfold nonneg_channels. intros Hd Hc.
  induction Hd as [|[k' c'] d Hc' Hd IH]; simpl.
  - repeat constructor. exact Hc.
  - destruct (k' =? k); constructor; simpl; auto.
Qed.

Lemma py_index_last {A : Type} (l : list A) (a : A) :
  py_index (l ++ [a]) (-1) = Ok a.
Proof.
  unfold py_index, len. simpl (-1 <? 0). cbn match.
  rewrite length_app. simpl.
  destruct (Z.ltb_spec (Z.of_nat (length l + 1) + -1) 0) as [Hlt|_]; [lia|].
  replace (Z.to_nat (Z.of_nat (length l + 1) + -1)) with (length l) by lia.
  now rewrite list_lookup_middle.
Qed.

Lemma py_slice_from_suffix {A : Type} (pre l : list A) :
  l <> [] -> py_slice_from (pre ++ l) (- len l) = l.
Proof.
  intros Hl. unfold py_slice_from, len. rewrite length_app.
  destruct l as [|a l]; [congruence|]. simpl length.
  destruct (Z.ltb_spec (- Z.of_nat (S (length l))) 0) as [_|Hge]; [|lia].
  replace (Z.to_nat (Z.max 0 (Z.of_nat (length pre + S (length l))
                              + - Z.of_nat (S (length l)))))
    with (length pre) by lia.
  now rewrite drop_app_length.
Qed.

(** The dictionary comprehension of source line 109 when there are enough
    channel counts. *)
Lemma init_channel_dict_ok (level_channels levels : list Z) :
  (length levels <= length level_channels)%nat ->
  Forall (fun c => 0 <= c) level_channels ->
  exists channel_dict,
    BiFPN.init_channel_dict level_channels levels = Ok channel_dict /\
    nonneg_channels channel_dict.
Proof.
  intros Hlen Hnn. unfold BiFPN.init_channel_dict.
  apply (foldM_invariant_on nonneg_channels
           (fun il : Z * Z => exists c, py_index level_channels (fst il) = Ok c /\ 0 <= c)).
  - intros d [i lvl] Hd (c & Hc & Hc0). simpl in *. rewrite Hc. simpl.
    eexists. split; [reflexivity|]. now apply nonneg_od_set.
  - apply List.Forall_forall. intros [i lvl] Hin.
    apply in_enumerate_inv in Hin as (_ & n & -> & Hn). simpl.
    rewrite py_index_nat.
    destruct (level_channels !! n) as [c|] eqn:Ec.
    + exists c. split; [reflexivity|].
      rewrite Forall_forall in Hnn. apply Hnn. now apply list_elem_of_lookup_2 in Ec.
    + apply lookup_ge_None in Ec. lia.
  - constructor.
Qed.

Lemma nonneg_uniform (levels : list Z) (out : Z) :
  0 <= out -> nonneg_channels (fold_left (fun d level => od_set d level out) levels []).
Proof.
  intros Hout. assert (Hgen : forall d, nonneg_channels d ->
    nonneg_channels (fold_left (fun d level => od_set d level out) levels d)).
  { induction levels as [|lvl levels IH]; intros d Hd; simpl; [exact Hd|].
    apply IH. now apply nonneg_od_set. }
  apply Hgen. constructor.
Qed.

(** The loop that builds the blocks (source lines 111-121). *)
Lemma init_blocks_ok (out h : Z) (levels : list Z) (channel_dict : odict Z) :
  0 < out -> nonneg_channels channel_dict ->
  forall (m i : nat) (layers : list (Z * BiFPNBlock.t)),
    map fst layers = map Z.of_nat (seq 0 i) ->
    Forall (fun b => BiFPNBlock.num_levels (snd b) = h) layers ->
    exists layers',
      foldM (BiFPN.init_step out h levels channel_dict) (map Z.of_nat (seq i m)) layers
      = Ok layers' /\
      map fst layers' = map Z.of_nat (seq 0 (i + m)) /\
      Forall (fun b => BiFPNBlock.num_levels (snd b) = h) layers'.
Proof.
  intros Hout Hcd m. induction m as [|m IH]; intros i layers Hkeys Hall; simpl.
  - exists layers. rewrite Nat.add_0_r. auto.
  - unfold BiFPN.init_step at 1.
    destruct (block_init_ok out h
                (if negb (Z.of_nat i =? 0)
                 then fold_left (fun d level => od_set d level out) levels []
                 else channel_dict)) as (block & -> & Hnum & _); [exact Hout | |].
    { destruct (negb (Z.of_nat i =? 0)); [apply nonneg_uniform; lia | exact Hcd]. }
    cbn [rbind]. rewrite add_module_fresh.
    + destruct (IH (S i) (layers ++ [(Z.of_nat i, block)])) as (layers' & Hfold & Hk & Ha).
      { rewrite map_app, Hkeys, seq_S, map_app. reflexivity. }
      { apply Forall_app. split; [exact Hall | repeat constructor; exact Hnum]. }
      exists layers'. split; [exact Hfold|]. split; [|exact Ha].
      rewrite Hk. do 2 f_equal. lia.
    + rewrite Hkeys. intros Hin. apply in_map_iff in Hin as (j & Hj & Hin).
      apply Nat2Z.inj in Hj. subst j. apply in_seq in Hin. lia.
Qed.

(** X4.  [BiFPN.__init__] does nothing with [bifpn_height] but compare it
    with [len(levels)] and pass it on: with one non-negative channel count
    per level, at least one level and a positive width, construction
    succeeds for every height, zero and negative ones included.  The
    blocks are registered under the names 0 to [num_bifpns - 1], each
    built for [bifpn_height] levels; the expander is left out when the
    height equals the number of levels, and otherwise holds one
    projection-and-pool layer followed by
    [max(0, bifpn_height - len(levels) - 1)] pooling layers. *)
Theorem init_accepts_any_height (in_channels levels : list Z)
        (out_channels num_bifpns bifpn_height : Z) :
  levels <> [] ->
  length in_channels = length levels ->
  Forall (fun c => 0 <= c) in_channels ->
  0 < out_channels ->
  exists self,
    BiFPN.__init__ in_channels out_channels num_bifpns bifpn_height levels = Ok self /\
    BiFPN.bifpn_height self = bifpn_height /\
    od_keys (BiFPN.bifp_layers self) = py_range num_bifpns /\
    Forall (fun b => BiFPNBlock.num_levels (snd b) = bifpn_height)
           (BiFPN.bifp_layers self) /\
    (bifpn_height = len levels -> BiFPN.downsample_convs self = None) /\
    (bifpn_height <> len levels ->
     exists conv,
       BiFPN.downsample_convs self
       = Some (Sequential [conv; MaxPool2d 3 1 2]
                 :: replicate (Z.to_nat (bifpn_height - len levels - 1))
                      (MaxPool2d 3 1 2))).
Proof.
  intros Hlv Hlen Hnn Hout.
  assert (Hics : exists pre c, in_channels = pre ++ [c] /\ 0 <= c).
  { destruct (exists_last (l := in_channels)) as (pre & c & E).
    - intros ->. destruct levels; [congruence | discriminate].
    - exists pre, c. split; [exact E|]. subst in_channels.
      apply Forall_app in Hnn as [_ Hc]. now inversion Hc. }
  destruct Hics as (pre & c & Eics & Hc).
  assert (Hslice : py_slice_from in_channels (- len levels) = in_channels).
  { replace (len levels) with (len in_channels) by (unfold len; now rewrite Hlen).
    apply (py_slice_from_suffix [] in_channels).
    intros ->. destruct levels; [congruence | discriminate]. }
  destruct (init_channel_dict_ok
              (in_channels ++ py_repeat out_channels (bifpn_height - len levels)) levels)
    as (channel_dict & Hdict & Hcd).
  { rewrite length_app. lia. }
  { apply Forall_app. split; [exact Hnn|]. apply Forall_replicate. lia. }
  destruct (init_blocks_ok out_channels bifpn_height levels channel_dict Hout Hcd
              (Z.to_nat num_bifpns) 0 []) as (layers & Hlayers & Hkeys & Hall);
    [reflexivity | constructor |].
  simpl (0 + _)%nat in Hkeys.
  change (map Z.of_nat (seq 0 (Z.to_nat num_bifpns))) with (py_range num_bifpns)
    in Hlayers, Hkeys.
  unfold BiFPN.__init__, BiFPN.init_downsample_convs.
  rewrite Hslice.
  destruct (Z.eqb_spec bifpn_height (len levels)) as [E|E]; cbn [negb rbind].
  - rewrite Hdict. cbn [rbind]. rewrite Hlayers. cbn [rbind].
    eexists. split; [reflexivity|]. simpl.
    split; [reflexivity|]. split; [exact Hkeys|]. split; [exact Hall|].
    split; [reflexivity | congruence].
  - assert (Hidx : py_index in_channels (-1) = Ok c)
      by (rewrite Eics; apply py_index_last).
    rewrite Hidx. cbn [rbind].
    rewrite nn_Conv2d_pointwise by lia. cbn [rbind].
    rewrite Hdict. cbn [rbind]. rewrite Hlayers. cbn [rbind].
    eexists. split; [reflexivity|]. simpl.
    split; [reflexivity|]. split; [exact Hkeys|]. split; [exact Hall|].
    split; [congruence|]. intros _. eexists. do 2 f_equal.
    unfold py_range. rewrite map_map. clear.
    generalize (Z.to_nat (bifpn_height - len levels - 1)) as m.
    intros m. generalize 0%nat. induction m as [|m IH]; intros i; simpl; [reflexivity|].
    now rewrite IH.
Qed.

Lemma post_combine_positive (channels : Z) (post : Layer) :
  BiFPNBlock.post_combine channels = Ok post -> 0 < channels.
Proof.
  unfold BiFPNBlock.post_combine, nn_Conv2d.
  destruct (Z.leb_spec channels 0); [discriminate | auto].
Qed.

Lemma block_init_positive (channels num_levels : Z) (channels_in : odict Z)
      (block : BiFPNBlock.t) :
  BiFPNBlock.__init__ channels num_levels channels_in = Ok block -> 0 < channels.
Proof.
  intros Hinit.
  destruct (block_init_structure _ _ _ _ Hinit) as (_ & post & _ & Hpost & _).
  exact (post_combine_positive _ _ Hpost).
Qed.

(** X5.  With at least one block, a width of zero or less never yields a
    model: the output layer of the first node starts with a depthwise
    convolution that takes [out_channels] as its number of groups. *)
Theorem nonpositive_width_raises (in_channels levels : list Z)
        (out_channels num_bifpns bifpn_height : Z) :
  1 <= num_bifpns -> out_channels <= 0 ->
  raises (BiFPN.__init__ in_channels out_channels num_bifpns bifpn_height levels).
Proof.
  intros Hn Hout.
  destruct (BiFPN.__init__ in_channels out_channels num_bifpns bifpn_height levels)
    as [self|e] eqn:Einit; [|exact I].
  exfalso. unfold BiFPN.__init__ in Einit.
  apply rbind_ok in Einit as (convs & _ & Einit).
  apply rbind_ok in Einit as (channel_dict & _ & Einit).
  apply rbind_ok in Einit as (layers & Hlayers & _).
  unfold py_range in Hlayers.
  destruct (Z.to_nat num_bifpns) as [|m] eqn:Em; [lia|].
  simpl in Hlayers. apply rbind_ok in Hlayers as (layers1 & Hstep & _).
  unfold BiFPN.init_step in Hstep. apply rbind_ok in Hstep as (block & Hblock & _).
  apply block_init_positive in Hblock. lia.
Qed.

(** X6.  Only the last [len(levels)] entries of [in_channels] are used
    (source lines 89 and 101): channel counts put in front of them change
    neither the expander nor the blocks, nor whether and how construction
    raises; they only end up in [self.in_channels]. *)
Theorem surplus_in_channels_ignored (surplus in_channels levels : list Z)
        (out_channels num_bifpns bifpn_height : Z) :
  levels <> [] -> length in_channels = length levels ->
  match BiFPN.__init__ (surplus ++ in_channels) out_channels num_bifpns bifpn_height levels,
        BiFPN.__init__ in_channels out_channels num_bifpns bifpn_height levels with
  | Ok a, Ok b =>
      BiFPN.downsample_convs a = BiFPN.downsample_convs b /\
      BiFPN.bifp_layers a = BiFPN.bifp_layers b /\
      BiFPN.in_channels a = surplus ++ in_channels
  | Raise e1, Raise e2 => e1 = e2
  | _, _ => False
  end.
Proof.
  intros Hlv Hlen.
  assert (Hne : in_channels <> [])
    by (intros ->; destruct levels; [congruence | discriminate]).
  assert (Hl : len levels = len in_channels) by (unfold len; now rewrite Hlen).
  destruct (exists_last Hne) as (pre & c & Eics).
  assert (Hs1 : py_slice_from (surplus ++ in_channels) (- len levels) = in_channels)
    by (rewrite Hl; now apply py_slice_from_suffix).
  assert (Hs2 : py_slice_from in_channels (- len levels) = in_channels)
    by (rewrite Hl; now apply (py_slice_from_suffix [] in_channels)).
  assert (Hi1 : py_index (surplus ++ in_channels) (-1) = Ok c)
    by (rewrite Eics, app_assoc; apply py_index_last).
  assert (Hi2 : py_index in_channels (-1) = Ok c)
    by (rewrite Eics; apply py_index_last).
  unfold BiFPN.__init__, BiFPN.init_downsample_convs.
  rewrite Hs1, Hs2, Hi1, Hi2.
  destruct (negb (bifpn_height =? len levels)); cbn [rbind].
  - destruct (nn_Conv2d c out_channels 1 0 1 true) as [conv|e]; cbn [rbind]; [|reflexivity].
    destruct (BiFPN.init_channel_dict _ levels) as [cd|e]; cbn [rbind]; [|reflexivity].
    destruct (foldM _ (py_range num_bifpns) []) as [layers|e]; cbn [rbind]; [|reflexivity].
    simpl. auto.
  - destruct (BiFPN.init_channel_dict _ levels) as [cd|e]; cbn [rbind]; [|reflexivity].
    destruct (foldM _ (py_range num_bifpns) []) as [layers|e]; cbn [rbind]; [|reflexivity].
    simpl. auto.
Qed.

End Constructor.

(** X4 at the channel counts of the scenario, with a height of -1. *)
Lemma init_accepts_any_height_witness :
  [3; 4; 5] <> [] /\
  length [40; 80; 160] = length [3; 4; 5] /\
  Forall (fun c => 0 <= c) [40; 80; 160] /\
  0 < 64 /\
  exists self,
    @BiFPN.__init__ null_torch [40; 80; 160] 64 2 (-1) [3; 4; 5] = Ok self /\
    BiFPN.bifpn_height self = -1 /\
    od_keys (BiFPN.bifp_layers self) = py_range 2 /\
    Forall (fun b => BiFPNBlock.num_levels (snd b) = -1) (BiFPN.bifp_layers self) /\
    (-1 = len [3; 4; 5] -> BiFPN.downsample_convs self = None) /\
    (-1 <> len [3; 4; 5] ->
     exists conv,
       BiFPN.downsample_convs self
       = Some (Sequential [conv; MaxPool2d 3 1 2]
                 :: replicate (Z.to_nat (-1 - len [3; 4; 5] - 1)) (MaxPool2d 3 1 2))).
Proof.
  assert (Hnn : Forall (fun c => 0 <= c) [40; 80; 160]) by (repeat constructor; lia).
  split; [discriminate|]. split; [reflexivity|]. split; [exact Hnn|]. split; [lia|].
  apply (@init_accepts_any_height null_torch [40; 80; 160] [3; 4; 5] 64 2 (-1));
    first [discriminate | reflexivity | exact Hnn | lia].
Defined.

(** X5 at the scenario with a width of 0. *)
Lemma nonpositive_width_raises_witness :
  1 <= 1 /\ 0 <= 0 /\
  raises (@BiFPN.__init__ null_torch [40; 80; 160] 0 1 5 [3; 4; 5]).
Proof.
  split; [lia|]. split; [lia|].
  apply (@nonpositive_width_raises null_torch [40; 80; 160] [3; 4; 5] 0 1 5); lia.
Defined.

(** X6 at the scenario, with two more channel counts in front. *)
Lemma surplus_in_channels_ignored_witness :
  [3; 4; 5] <> [] /\
  length [40; 80; 160] = length [3; 4; 5] /\
  match @BiFPN.__init__ null_torch ([16; 24] ++ [40; 80; 160]) 64 1 5 [3; 4; 5],
        @BiFPN.__init__ null_torch [40; 80; 160] 64 1 5 [3; 4; 5] with
  | Ok a, Ok b =>
      BiFPN.downsample_convs a = BiFPN.downsample_convs b /\
      BiFPN.bifp_layers a = BiFPN.bifp_layers b /\
      BiFPN.in_channels a = [16; 24] ++ [40; 80; 160]
  | Raise e1, Raise e2 => e1 = e2
  | _, _ => False
  end.
Proof.
  split; [discriminate|]. split; [reflexivity|].
  apply (@surplus_in_channels_ignored null_torch [16; 24] [40; 80; 160] [3; 4; 5] 64 1 5);
    [discriminate | reflexivity].
Defined.

(** ** The expander on its own *)

Section ExpanderOnly.
Context `{Torch}.

Lemma window_out_pool (n : Z) : window_out n 3 1 2 = halved n 1.
Proof.
  unfold window_out, halved. change (2 ^ 1) with 2.
  replace (n + 2 - 1) with (n + 2 * 1 - 3 + 1 * 2) by lia.
  now rewrite Z.div_add by lia.
Qed.

Lemma halved_pos (n j : Z) : 0 < n -> 0 <= j -> 0 < halved n j.
Proof.
  intros Hn Hj. unfold halved.
  assert (Hp : 0 < 2 ^ j) by (apply Z.pow_pos_nonneg; lia).
  apply Z.div_str_pos. lia.
Qed.

Lemma halved_succ (n j : Z) : 0 <= j -> halved (halved n 1) j = halved n (j + 1).
Proof.
  intros Hj. unfold halved. change (2 ^ 1) with 2.
  assert (Hp : 0 < 2 ^ j) by (apply Z.pow_pos_nonneg; lia).
  rewrite Z.pow_add_r by lia. change (2 ^ 1) with 2.
  replace ((n + 2 - 1) / 2 + 2 ^ j - 1) with ((n + 2 ^ j * 2 - 1) / 2).
  - rewrite Z.div_div by lia. f_equal. lia.
  - replace (n + 2 ^ j * 2 - 1) with (n + 2 - 1 + (2 ^ j - 1) * 2) by lia.
    rewrite Z.div_add by lia. lia.
Qed.

Lemma py_range_succ {B : Type} (f : Z -> B) (m : nat) :
  map f (py_range (Z.of_nat (S m)))
  = f 0 :: map (fun i => f (1 + i)) (py_range (Z.of_nat m)).
Proof.
  unfold py_range. rewrite !Nat2Z.id. simpl. f_equal.
  rewrite <- seq_shift, !map_map. apply map_ext. intros j. f_equal. lia.
Qed.

Lemma forward_pool_any (t : Tensor) :
  0 < height t -> 0 < width t ->
  exists y, forward (MaxPool2d 3 1 2) t = Ok y /\
            shape y = (channels t, halved (height t) 1, halved (width t) 1).
Proof.
  intros Hh Hw. simpl. rewrite !window_out_pool.
  pose proof (halved_pos (height t) 1 Hh ltac:(lia)).
  pose proof (halved_pos (width t) 1 Hw ltac:(lia)).
  destruct (Z.leb_spec (halved (height t) 1) 0); [lia|].
  destruct (Z.leb_spec (halved (width t) 1) 0); [lia|].
  simpl. eexists. split; reflexivity.
Qed.

(** A run of pooling layers of the expander (source lines 132-136). *)
Lemma pool_loop :
  forall (m : nat) (d : odict Tensor) (k : Z) (t : Tensor),
    is_ascending (od_keys d) = true ->
    od_last_item d = Ok (k, t) ->
    0 < height t -> 0 < width t ->
    exists new,
      loop_pure downsample_pure (replicate m (MaxPool2d 3 1 2)) d = (d ++ new, None) /\
      shapes new
      = map (fun i => (k + 1 + i,
                       (channels t, halved (height t) (i + 1), halved (width t) (i + 1))))
            (py_range (Z.of_nat m)).
Proof.
  induction m as [|m IH]; intros d k t Hasc Hlast Hh Hw.
  - exists []. rewrite app_nil_r. split; reflexivity.
  - destruct (forward_pool_any t Hh Hw) as (y & Ey & Sy).
    unfold shape in Sy. injection Sy as Cy Hy Wy.
    destruct (od_set_after_last d k t y Hasc Hlast) as [Hset Hasc'].
    assert (Hstep : downsample_pure (MaxPool2d 3 1 2) d = Ok (d ++ [(k + 1, y)])).
    { unfold downsample_pure. rewrite Hlast. cbn [rbind fst snd].
      rewrite Ey. cbn [rbind]. now rewrite Hset. }
    destruct (IH (d ++ [(k + 1, y)]) (k + 1) y Hasc' (od_last_item_app _ _))
      as (new & Hloop & Hnew).
    { rewrite Hy. apply halved_pos; lia. }
    { rewrite Wy. apply halved_pos; lia. }
    exists ((k + 1, y) :: new). split.
    + cbn [replicate]. rewrite (loop_pure_cons _ _ _ _ _ Hstep), Hloop.
      now rewrite <- app_assoc.
    + rewrite (py_range_succ
                 (fun i => (k + 1 + i, (channels t, halved (height t) (i + 1),
                                        halved (width t) (i + 1))))).
      simpl. unfold shape at 1. rewrite Cy, Hy, Wy, Z.add_0_r. f_equal.
      rewrite Hnew. apply map_ext_in. intros i Hi.
      assert (0 <= i).
      { unfold py_range in Hi. apply in_map_iff in Hi as (j & <- & _). lia. }
      rewrite Cy, Hy, Wy, !halved_succ by lia.
      f_equal; [lia|]. do 2 f_equal; f_equal; lia.
Qed.

(** What construction leaves in [downsample_convs]. *)
Lemma init_expander (in_channels levels : list Z)
      (out_channels num_bifpns bifpn_height : Z) (self : BiFPN.t) :
  BiFPN.__init__ in_channels out_channels num_bifpns bifpn_height levels = Ok self ->
  bifpn_height <> len levels ->
  exists c wt b,
    py_index in_channels (-1) = Ok c /\
    BiFPN.downsample_convs self
    = Some (Sequential [Conv2d c out_channels 1 0 1 wt b; MaxPool2d 3 1 2]
              :: replicate (Z.to_nat (bifpn_height - len levels - 1)) (MaxPool2d 3 1 2)).
Proof.
  intros Hinit Hne.
  destruct (init_blocks_constructed _ _ _ _ _ _ Hinit) as [Hconvs _].
  unfold BiFPN.init_downsample_convs in Hconvs.
  destruct (Z.eqb_spec bifpn_height (len levels)) as [E|_]; [contradiction|].
  cbn [negb] in Hconvs.
  apply rbind_ok in Hconvs as (c & Hc & Hconvs).
  apply rbind_ok in Hconvs as (conv & Hconv & [= Hconvs]).
  unfold nn_Conv2d in Hconv.
  repeat match type of Hconv with
         | (if ?b then _ else _) = _ => destruct b; [discriminate|]
         end.
  injection Hconv as <-. rewrite <- Hconvs.
  do 3 eexists. split; [exact Hc|]. do 2 f_equal.
  unfold py_range. rewrite map_map.
  generalize (Z.to_nat (bifpn_height - len levels - 1)) as m.
  intros m. generalize 0%nat. induction m as [|m IH]; intros i; simpl; [reflexivity|].
  now rewrite IH.
Qed.

Lemma init_no_blocks (in_channels levels : list Z)
      (out_channels num_bifpns bifpn_height : Z) (self : BiFPN.t) :
  BiFPN.__init__ in_channels out_channels num_bifpns bifpn_height levels = Ok self ->
  num_bifpns <= 0 -> BiFPN.bifp_layers self = [].
Proof.
  unfold BiFPN.__init__. intros (convs & _ & Hinit)%rbind_ok Hn.
  apply rbind_ok in Hinit as (channel_dict & _ & Hinit).
  apply rbind_ok in Hinit as (layers & Hlayers & [= <-]). simpl.
  unfold py_range in Hlayers. replace (Z.to_nat num_bifpns) with 0%nat in Hlayers by lia.
  simpl in Hlayers. congruence.
Qed.

(** X9.  A model built with no blocks ([num_bifpns <= 0]) and a positive
    [out_channels] is its expander alone.  Called on a mapping with
    ascending keys whose last feature map has [in_channels[-1]] channels,
    at least one of them, and a positive size, it returns the very object
    it was given, the rest of the heap untouched, after appending
    [max(1, bifpn_height - len(levels))] levels under the keys that follow
    the last one, each with [out_channels] channels and each half the size
    of the one before, rounded up. *)
Theorem forward_without_blocks (in_channels levels : list Z)
        (out_channels num_bifpns bifpn_height : Z) (self : BiFPN.t)
        (l : loc) (s : heap) (d : odict Tensor) (k : Z) (t : Tensor) :
  BiFPN.__init__ in_channels out_channels num_bifpns bifpn_height levels = Ok self ->
  num_bifpns <= 0 ->
  0 < out_channels ->
  bifpn_height <> len levels ->
  s !! l = Some d ->
  is_ascending (od_keys d) = true ->
  od_last_item d = Ok (k, t) ->
  py_index in_channels (-1) = Ok (channels t) ->
  0 < channels t ->
  0 < height t -> 0 < width t ->
  exists new,
    BiFPN.__call__ self l s = Return l (<[l := d ++ new]> s) /\
    shapes new
    = map (fun i => (k + 1 + i,
                     (out_channels, halved (height t) (i + 1), halved (width t) (i + 1))))
          (py_range (Z.max 1 (bifpn_height - len levels))).
Proof.
  intros Hinit Hn Hout Hne Hl Hasc Hlast Hch Hcpos Hh Hw.
  destruct (init_expander _ _ _ _ _ _ Hinit Hne) as (c & wt & b & Hc & Hconvs).
  assert (c = channels t) by congruence. subst c.
  pose proof (init_no_blocks _ _ _ _ _ _ Hinit Hn) as Hblocks.
  (* the first layer: projection, then pooling *)
  destruct (forward_conv (channels t) out_channels 1 0 1 wt b t (height t) (width t))
    as (y1 & E1 & (C1 & H1 & W1));
    [lia | exact Hcpos | exact Hout | repeat split | exact Hh | exact Hw |].
  destruct (forward_pool_any y1) as (y & Ey & Sy); [lia | lia |].
  unfold shape in Sy. rewrite C1, H1, W1 in Sy. injection Sy as Cy Hy Wy.
  destruct (od_set_after_last d k t y Hasc Hlast) as [Hset Hasc'].
  assert (Hfirst : downsample_pure
                     (Sequential [Conv2d (channels t) out_channels 1 0 1 wt b;
                                  MaxPool2d 3 1 2]) d
                   = Ok (d ++ [(k + 1, y)])).
  { unfold downsample_pure. rewrite Hlast. cbn [rbind fst snd].
    rewrite (forward_sequential_cons _ _ _ _ E1), (forward_sequential_cons _ _ _ _ Ey).
    cbn [forward rbind]. now rewrite Hset. }
  destruct (pool_loop (Z.to_nat (bifpn_height - len levels - 1))
              (d ++ [(k + 1, y)]) (k + 1) y Hasc' (od_last_item_app _ _))
    as (new & Hloop & Hnew).
  { rewrite Hy. apply halved_pos; lia. }
  { rewrite Wy. apply halved_pos; lia. }
  exists ((k + 1, y) :: new). split.
  - unfold BiFPN.__call__. rewrite Hconvs, Hblocks. simpl map. unfold BiFPN.run_blocks.
    unfold bind at 1. unfold ret at 1. unfold bind at 1.
    rewrite (for_each_spec _ downsample_pure l (downsample_step_spec l) _ s d Hl).
    rewrite (loop_pure_cons _ _ _ _ _ Hfirst), Hloop. rewrite <- app_assoc. reflexivity.
  - replace (Z.max 1 (bifpn_height - len levels))
      with (Z.of_nat (S (Z.to_nat (bifpn_height - len levels - 1)))) by lia.
    rewrite (py_range_succ
               (fun i => (k + 1 + i, (out_channels, halved (height t) (i + 1),
                                      halved (width t) (i + 1))))).
    simpl. unfold shape at 1. rewrite Cy, Hy, Wy, Z.add_0_r. f_equal.
    rewrite Hnew. apply map_ext_in. intros i Hi.
    assert (0 <= i).
    { unfold py_range in Hi. apply in_map_iff in Hi as (j & <- & _). lia. }
    rewrite Cy, Hy, Wy, !halved_succ by lia.
    f_equal; [lia|]. do 2 f_equal; f_equal; lia.
Qed.

(** X8.  The forward call of any constructed model on an empty mapping
    raises and leaves the heap as it was: [StopIteration], from
    [next(reversed(feature_maps.items()))], when the model has an
    expander, and [AttributeError] when it has none. *)
Theorem forward_on_empty_mapping (in_channels levels : list Z)
        (out_channels num_bifpns bifpn_height : Z) (self : BiFPN.t)
        (l : loc) (s : heap) :
  BiFPN.__init__ in_channels out_channels num_bifpns bifpn_height levels = Ok self ->
  s !! l = Some [] ->
  BiFPN.__call__ self l s
  = Throw (if bifpn_height =? len levels then AttributeError else StopIteration) s.
Proof.
  intros Hinit Hl.
  destruct (Z.eqb_spec bifpn_height (len levels)) as [E|E].
  - destruct (init_blocks_constructed _ _ _ _ _ _ Hinit) as [Hconvs _].
    unfold BiFPN.init_downsample_convs in Hconvs.
    rewrite (proj2 (Z.eqb_eq _ _) E) in Hconvs. injection Hconvs as Hconvs.
    unfold BiFPN.__call__. now rewrite <- Hconvs.
  - destruct (init_expander _ _ _ _ _ _ Hinit E) as (c & wt & b & _ & Hconvs).
    unfold BiFPN.__call__. rewrite Hconvs.
    unfold bind at 1. unfold ret at 1. unfold bind at 1.
    cbn [for_each]. unfold bind at 1. unfold BiFPN.downsample_step at 1.
    unfold bind at 1. unfold load at 1. rewrite Hl.
    reflexivity.
Qed.

End ExpanderOnly.

(** X9 on levels of sizes 60, 30 and 15: the two synthesized levels have
    sizes 8 and 4. *)
Lemma forward_without_blocks_witness :
  @BiFPN.__init__ null_torch [40; 80; 160] 64 0 5 [3; 4; 5] = Ok bifpn_345_n0 /\
  0 <= 0 /\ 0 < 64 /\ 5 <> len [3; 4; 5] /\
  [input_odd] !! 0%nat = Some input_odd /\
  is_ascending (od_keys input_odd) = true /\
  od_last_item input_odd = Ok (5, blank 160 15 15) /\
  py_index [40; 80; 160] (-1) = Ok (channels (blank 160 15 15)) /\
  0 < channels (blank 160 15 15) /\
  0 < height (blank 160 15 15) /\ 0 < width (blank 160 15 15) /\
  exists new,
    @BiFPN.__call__ null_torch bifpn_345_n0 0%nat [input_odd]
    = Return 0%nat (<[0%nat := input_odd ++ new]> [input_odd]) /\
    shapes new
    = map (fun i => (5 + 1 + i,
                     (64, halved (height (blank 160 15 15)) (i + 1),
                      halved (width (blank 160 15 15)) (i + 1))))
          (py_range (Z.max 1 (5 - len [3; 4; 5]))).
Proof.
  split; [reflexivity|]. split; [lia|]. split; [lia|]. split; [discriminate|].
  split; [reflexivity|]. split; [reflexivity|]. split; [reflexivity|].
  split; [reflexivity|]. split; [reflexivity|]. split; [reflexivity|].
  split; [reflexivity|].
  apply (@forward_without_blocks null_torch [40; 80; 160] [3; 4; 5] 64 0 5 bifpn_345_n0
           0%nat [input_odd] input_odd 5 (blank 160 15 15));
    first [reflexivity | lia | discriminate].
Defined.

(** X8 at the model of the scenario. *)
Lemma forward_on_empty_mapping_witness :
  @BiFPN.__init__ null_torch [40; 80; 160] 64 1 5 [3; 4; 5] = Ok bifpn_345 /\
  [[]] !! 0%nat = Some (@nil (Z * Tensor)) /\
  @BiFPN.__call__ null_torch bifpn_345 0%nat [[]]
  = Throw (if 5 =? len [3; 4; 5] then AttributeError else StopIteration) [[]].
Proof.
  split; [reflexivity|]. split; [reflexivity|].
  apply (@forward_on_empty_mapping null_torch [40; 80; 160] [3; 4; 5] 64 1 5 bifpn_345
           0%nat [[]]); reflexivity.
Defined.

(** ** Resampling and the lateral convolution *)

Section Resampling.
Context `{Torch}.

(** X16.  The two resample modules (source lines 245-252) on shapes:
    upsampling and then pooling gives back the shape one started from;
    pooling and then upsampling gives it back exactly when height and
    width are even, because pooling rounds up and upsampling doubles. *)
Theorem resample_round_trip (up_param down_param : node_param)
        (offset_up offset_down channels_up channels_down : Z)
        (levels_up levels_down : odict Z) (up down : CombineLevels.t) (t : Tensor) :
  np_upsample up_param = true -> np_upsample down_param = false ->
  CombineLevels.__init__ up_param offset_up channels_up levels_up = Ok up ->
  CombineLevels.__init__ down_param offset_down channels_down levels_down = Ok down ->
  0 < height t -> 0 < width t ->
  (exists y z, forward (CombineLevels.resample up) t = Ok y /\
               forward (CombineLevels.resample down) y = Ok z /\
               shape z = shape t) /\
  (exists y z, forward (CombineLevels.resample down) t = Ok y /\
               forward (CombineLevels.resample up) y = Ok z /\
               (shape z = shape t <->
                Z.even (height t) = true /\ Z.even (width t) = true)).
Proof.
  intros Hup Hdown Iup Idown Hh Hw.
  unfold CombineLevels.__init__ in Iup, Idown.
  apply rbind_ok in Iup as (lat1 & _ & [= <-]).
  apply rbind_ok in Idown as (lat2 & _ & [= <-]).
  rewrite Hup, Hdown. cbn [CombineLevels.resample]. split.
  - destruct (forward_upsample t (channels t) (height t) (width t)) as (y & Ey & Sy);
      [repeat split|].
    destruct (forward_pool y (channels t) (height t) (width t) Sy Hh Hw)
      as (z & Ez & (Cz & Hz & Wz)).
    exists y, z. split; [exact Ey|]. split; [exact (forward_sequential_cons _ [] _ _ Ez)|].
    unfold shape. congruence.
  - destruct (forward_pool_any t Hh Hw) as (y & Ey & Sy).
    unfold shape in Sy. injection Sy as Cy Hy Wy.
    destruct (forward_upsample y (channels t) (halved (height t) 1) (halved (width t) 1))
      as (z & Ez & (Cz & Hz & Wz)); [repeat split; assumption|].
    exists y, z. split; [exact (forward_sequential_cons _ [] _ _ Ey)|].
    split; [exact Ez|].
    unfold shape. rewrite Cz, Hz, Wz. unfold halved. change (2 ^ 1) with 2.
    rewrite !Z.even_spec. unfold Z.Even. split.
    + intros [= Eh Ew]. split; [exists ((height t + 2 - 1) / 2) | exists ((width t + 2 - 1) / 2)];
        lia.
    + intros [[a Ha] [b Hb]]. rewrite Ha, Hb.
      replace (2 * a + 2 - 1) with (1 + a * 2) by lia.
      replace (2 * b + 2 - 1) with (1 + b * 2) by lia.
      rewrite !Z.div_add by lia. change (1 / 2) with 0. do 2 f_equal; lia.
Qed.

Lemma lateral_loop_last (levels_in : odict Z) (channels : Z) :
  forall (os : list Z) (st st' : option Z * option Layer),
    foldM (CombineLevels.lateral_step levels_in channels) os st = Ok st' ->
    match last (List.filter (needs_lateral levels_in channels) os) with
    | Some o =>
        fst st' = Some o /\
        exists c wt b, od_get levels_in o = Some c /\ c <> channels /\
                       snd st' = Some (Conv2d c channels 1 0 1 wt b)
    | None => st' = st
    end.
Proof.
  induction os as [|o os IH]; intros st st'; simpl.
  - now intros [= <-].
  - intros (st1 & Hstep & Hfold)%rbind_ok. specialize (IH st1 st' Hfold).
    unfold CombineLevels.lateral_step in Hstep. unfold needs_lateral at 1.
    destruct (od_get levels_in o) as [c|] eqn:Ec.
    + destruct (Z.eqb_spec c channels) as [->|Hne]; cbn [negb] in *.
      * injection Hstep as <-. exact IH.
      * apply rbind_ok in Hstep as (conv & Hconv & [= <-]).
        unfold nn_Conv2d in Hconv.
        repeat match type of Hconv with
               | (if ?b then _ else _) = _ => destruct b; [discriminate|]
               end.
        injection Hconv as <-.
        destruct (List.filter (needs_lateral levels_in channels) os) as [|o' os'] eqn:Ef.
        -- simpl in *. subst st'. simpl. split; [reflexivity|].
           do 3 eexists. split; [exact Ec|]. split; [exact Hne | reflexivity].
        -- rewrite last_cons. destruct (last (o' :: os')); [exact IH|].
           subst st'. simpl. split; [reflexivity|].
           do 3 eexists. split; [exact Ec|]. split; [exact Hne | reflexivity].
    + injection Hstep as <-. exact IH.
Qed.

(** X15.  The loop of source lines 239-242 keeps one lateral convolution
    at most: the lateral node of a constructed node is the last of its
    offsets whose channel count in [levels_in] differs from [channels],
    and its lateral convolution is the 1x1 convolution from that count to
    [channels]; with no such offset there is neither. *)
Theorem lateral_node_is_last_mismatch (param : node_param) (index_offset channels : Z)
        (levels_in : odict Z) (self : CombineLevels.t) :
  CombineLevels.__init__ param index_offset channels levels_in = Ok self ->
  CombineLevels.lateral_node self
  = last (List.filter (needs_lateral levels_in channels) (CombineLevels.offsets self)) /\
  match CombineLevels.lateral_node self with
  | Some o =>
      exists c wt b, od_get levels_in o = Some c /\ c <> channels /\
                     CombineLevels.lateral_conv self = Some (Conv2d c channels 1 0 1 wt b)
  | None => CombineLevels.lateral_conv self = None
  end.
Proof.
  unfold CombineLevels.__init__. intros (lat & Hlat & [= <-])%rbind_ok. simpl.
  apply lateral_loop_last in Hlat.
  destruct (last (List.filter (needs_lateral levels_in channels)
                    (map (fun offset => index_offset + offset) (np_offsets param))))
    as [o|].
  - destruct Hlat as (-> & Hconv). split; [reflexivity | exact Hconv].
  - subst lat. simpl. auto.
Qed.

End Resampling.

(** X16 at a node that upsamples and a node that pools, on a feature map
    of size 15 by 15. *)
Lemma resample_round_trip_witness :
  np_upsample (mk_node_param 6 [3; 4] true) = true /\
  np_upsample (mk_node_param 7 [4; 11] false) = false /\
  @CombineLevels.__init__ null_torch (mk_node_param 6 [3; 4] true) 1 64
    [(3, 40); (4, 80); (5, 160)] = Ok combine_45 /\
  @CombineLevels.__init__ null_torch (mk_node_param 7 [4; 11] false) 3 64 []
  = Ok combine_down /\
  0 < height (blank 64 15 15) /\ 0 < width (blank 64 15 15) /\
  (exists y z, @forward null_torch (CombineLevels.resample combine_45) (blank 64 15 15) = Ok y /\
               @forward null_torch (CombineLevels.resample combine_down) y = Ok z /\
               shape z = shape (blank 64 15 15)) /\
  (exists y z, @forward null_torch (CombineLevels.resample combine_down) (blank 64 15 15) = Ok y /\
               @forward null_torch (CombineLevels.resample combine_45) y = Ok z /\
               (shape z = shape (blank 64 15 15) <->
                Z.even (height (blank 64 15 15)) = true /\
                Z.even (width (blank 64 15 15)) = true)).
Proof.
  split; [reflexivity|]. split; [reflexivity|]. split; [reflexivity|].
  split; [reflexivity|]. split; [reflexivity|]. split; [reflexivity|].
  apply (@resample_round_trip null_torch (mk_node_param 6 [3; 4] true)
           (mk_node_param 7 [4; 11] false) 1 3 64 64 [(3, 40); (4, 80); (5, 160)] []
           combine_45 combine_down (blank 64 15 15)); reflexivity.
Defined.

(** X15 at a node whose two offsets both differ from the width: the
    later one, level 5, gets the lateral convolution. *)
Lemma lateral_node_is_last_mismatch_witness :
  @CombineLevels.__init__ null_torch (mk_node_param 6 [3; 4] true) 1 64
    [(3, 40); (4, 80); (5, 160)] = Ok combine_45 /\
  CombineLevels.lateral_node combine_45
  = last (List.filter (needs_lateral [(3, 40); (4, 80); (5, 160)] 64)
            (CombineLevels.offsets combine_45)) /\
  match CombineLevels.lateral_node combine_45 with
  | Some o =>
      exists c wt b, od_get [(3, 40); (4, 80); (5, 160)] o = Some c /\ c <> 64 /\
                     CombineLevels.lateral_conv combine_45 = Some (Conv2d c 64 1 0 1 wt b)
  | None => CombineLevels.lateral_conv combine_45 = None
  end.
Proof.
  split; [reflexivity|].
  apply (@lateral_node_is_last_mismatch null_torch (mk_node_param 6 [3; 4] true) 1 64
           [(3, 40); (4, 80); (5, 160)] combine_45).
  reflexivity.
Defined.

(** ** The convolution helpers and short channel lists *)

Section HelperForward.
Context `{Torch}.

Lemma nn_Conv2d_inv (cin cout k p g : Z) (b : bool) (l : Layer) :
  nn_Conv2d cin cout k p g b = Ok l ->
  0 < g /\ 0 <= cin /\ 0 <= cout /\
  exists wt bs, l = Conv2d cin cout k p g wt bs.
Proof.
  unfold nn_Conv2d.
  destruct (Z.leb_spec g 0); [discriminate|].
  destruct (negb (cin mod g =? 0)); [discriminate|].
  destruct (negb (cout mod g =? 0)); [discriminate|].
  destruct (Z.ltb_spec cin 0); [discriminate|].
  destruct (Z.ltb_spec cout 0); [discriminate|]. simpl.
  intros [= <-]. repeat split; try lia. eauto.
Qed.

Lemma depthwise_inv (cin cout : Z) (layers : list Layer) :
  depthwise cin cout = Ok layers ->
  0 < cin /\ 0 <= cout /\
  exists wt1 b1 wt2 b2,
    layers = [Conv2d cin cin 3 1 cin wt1 b1; Conv2d cin cout 1 0 1 wt2 b2].
Proof.
  unfold depthwise. intros (dw & Hdw & Hl)%rbind_ok.
  apply rbind_ok in Hl as (pw & Hpw & [= <-]).
  apply nn_Conv2d_inv in Hdw as (Hg & _ & _ & wt1 & b1 & ->).
  apply nn_Conv2d_inv in Hpw as (_ & _ & Hout & wt2 & b2 & ->).
  split; [exact Hg|]. split; [exact Hout|]. eauto.
Qed.

Lemma forward_conv_mismatch (cin cout k p g : Z) (wt : list Q) (b : option (list Q))
      (t : Tensor) :
  channels t <> cin -> forward (Conv2d cin cout k p g wt b) t = Raise RuntimeError.
Proof.
  intros Hne. simpl. destruct (Z.eqb_spec (channels t) cin); [contradiction | reflexivity].
Qed.

(** X1.  [depthwise(in_channels, out_channels)] can be built exactly when
    [in_channels] is positive and [out_channels] is not negative: its
    first convolution takes [in_channels] as its number of groups, which
    has to be positive. *)
Theorem depthwise_constructs_iff (cin cout : Z) :
  (exists layers, depthwise cin cout = Ok layers) <-> 0 < cin /\ 0 <= cout.
Proof.
  split.
  - intros [layers Hl]. apply depthwise_inv in Hl as (Hin & Hout & _). auto.
  - intros [Hin Hout]. unfold depthwise.
    rewrite nn_Conv2d_depthwise by exact Hin. cbn [rbind].
    rewrite nn_Conv2d_pointwise by lia. cbn [rbind]. eauto.
Qed.

(** X2.  The two layers [depthwise] returns for a positive
    [out_channels], applied one after the other to a feature map of
    positive size: a map with [in_channels] channels comes out with
    [out_channels] channels and its size unchanged (kernel 3 with
    padding 1, then kernel 1); a map with any other number of channels is
    refused with a [RuntimeError]. *)
Theorem depthwise_forward (cin cout : Z) (layers : list Layer) (t : Tensor) :
  depthwise cin cout = Ok layers ->
  0 < cout ->
  0 < height t -> 0 < width t ->
  match forward (Sequential layers) t with
  | Ok y => channels t = cin /\ shape y = (cout, height t, width t)
  | Raise e => channels t <> cin /\ e = RuntimeError
  end.
Proof.
  intros Hl Hout Hh Hw.
  apply depthwise_inv in Hl as (Hin & _ & wt1 & b1 & wt2 & b2 & ->).
  destruct (Z.eq_dec (channels t) cin) as [Hc|Hc].
  - destruct (forward_conv cin cin 3 1 cin wt1 b1 t (height t) (width t))
      as (y1 & E1 & S1);
      [lia | exact Hin | exact Hin | repeat split; assumption | exact Hh | exact Hw |].
    destruct (forward_conv cin cout 1 0 1 wt2 b2 y1 (height t) (width t))
      as (y2 & E2 & (C2 & H2 & W2));
      [lia | exact Hin | exact Hout | exact S1 | exact Hh | exact Hw |].
    rewrite (forward_sequential_cons _ _ _ _ E1), (forward_sequential_cons _ _ _ _ E2).
    cbn [forward]. split; [exact Hc|]. unfold shape. congruence.
  - assert (E : forward (Sequential [Conv2d cin cin 3 1 cin wt1 b1;
                                     Conv2d cin cout 1 0 1 wt2 b2]) t
                = Raise RuntimeError).
    { cbn [forward]. fold (forward (Conv2d cin cin 3 1 cin wt1 b1) t).
      now rewrite forward_conv_mismatch. }
    rewrite E. auto.
Qed.

(** X3.  [conv3x3(in_channels, out_channels)], built for positive
    channel counts, is a single layer; on a feature map of positive size
    with [in_channels] channels it yields [out_channels] channels and
    keeps the size (kernel 3, padding 1, stride 1); a map with any other
    number of channels is refused with a [RuntimeError]. *)
Theorem conv3x3_forward (cin cout : Z) (layers : list Layer) (t : Tensor) :
  conv3x3 cin cout = Ok layers ->
  0 < cin -> 0 < cout ->
  0 < height t -> 0 < width t ->
  length layers = 1%nat /\
  match forward (Sequential layers) t with
  | Ok y => channels t = cin /\ shape y = (cout, height t, width t)
  | Raise e => channels t <> cin /\ e = RuntimeError
  end.
Proof.
  unfold conv3x3. intros (conv & Hconv & [= <-])%rbind_ok Hin Hout Hh Hw.
  apply nn_Conv2d_inv in Hconv as (_ & _ & _ & wt & b & ->).
  split; [reflexivity|].
  destruct (Z.eq_dec (channels t) cin) as [Hc|Hc].
  - destruct (forward_conv cin cout 3 1 1 wt b t (height t) (width t))
      as (y & E & (C1 & H1 & W1));
      [lia | exact Hin | exact Hout | repeat split; assumption | exact Hh | exact Hw |].
    rewrite (forward_sequential_cons _ _ _ _ E). cbn [forward].
    split; [exact Hc|]. unfold shape. congruence.
  - assert (E : forward (Sequential [Conv2d cin cout 3 1 1 wt b]) t = Raise RuntimeError).
    { cbn [forward]. fold (forward (Conv2d cin cout 3 1 1 wt b) t).
      now rewrite forward_conv_mismatch. }
    rewrite E. auto.
Qed.

End HelperForward.

Section ShortChannels.
Context `{Torch}.

Lemma init_channel_dict_short (level_channels levels : list Z) :
  (length level_channels < length levels)%nat ->
  BiFPN.init_channel_dict level_channels levels = Raise IndexError.
Proof.
  intros Hlen. unfold BiFPN.init_channel_dict. rewrite enumerate_eq.
  assert (Hgen : forall (lv : list Z) (i : nat) (d : odict Z),
             (i <= length level_channels)%nat ->
             (length level_channels < i + length lv)%nat ->
             foldM (fun d il => (c <- py_index level_channels (fst il) ;;
                                 Ok (od_set d (snd il) c))%result)
                   (zip (map Z.of_nat (seq i (length lv))) lv) d
             = Raise IndexError).
  { induction lv as [|x lv IH]; intros i d Hi Hlt; simpl in *; [lia|].
    rewrite py_index_nat.
    destruct (level_channels !! i) as [c|] eqn:Ec; simpl; [|reflexivity].
    apply IH; [|lia]. apply lookup_lt_Some in Ec. lia. }
  apply Hgen; lia.
Qed.

Lemma length_py_slice_from {A : Type} (l : list A) (start : Z) :
  (length (py_slice_from l start) <= length l)%nat.
Proof. unfold py_slice_from. rewrite length_drop. lia. Qed.

(** X7.  With too few channel counts, fewer than [len(levels)] even after
    [out_channels] has been appended [bifpn_height - len(levels)] times,
    construction raises [IndexError]: the dictionary comprehension of
    source line 109 runs out of entries (or, with no channel count at
    all, [in_channels[-1]] of source line 89 does). *)
Theorem short_in_channels_raise (in_channels levels : list Z)
        (out_channels num_bifpns bifpn_height : Z) :
  Forall (fun c => 0 <= c) in_channels -> 0 <= out_channels ->
  len in_channels + Z.max 0 (bifpn_height - len levels) < len levels ->
  BiFPN.__init__ in_channels out_channels num_bifpns bifpn_height levels
  = Raise IndexError.
Proof.
  intros Hnn Hout Hshort.
  assert (Hdict : BiFPN.init_channel_dict
                    (py_slice_from in_channels (- len levels)
                       ++ py_repeat out_channels (bifpn_height - len levels)) levels
                  = Raise IndexError).
  { apply init_channel_dict_short. rewrite length_app.
    pose proof (length_py_slice_from in_channels (- len levels)).
    unfold py_repeat. rewrite length_replicate. unfold len in *. lia. }
  unfold BiFPN.__init__, BiFPN.init_downsample_convs.
  destruct (negb (bifpn_height =? len levels)); cbn [rbind].
  - destruct in_channels as [|c0 rest]; [reflexivity|].
    destruct (exists_last (l := c0 :: rest)) as (pre & c & E); [discriminate|].
    rewrite E in *.
    rewrite py_index_last. cbn [rbind].
    apply Forall_app in Hnn as [_ Hc]. inversion Hc; subst.
    rewrite nn_Conv2d_pointwise by assumption. cbn [rbind].
    rewrite Hdict. reflexivity.
  - rewrite Hdict. reflexivity.
Qed.

End ShortChannels.

(** X2 at [depthwise(3, 8)] on a feature map of size 4 by 4. *)
Lemma depthwise_forward_witness :
  @depthwise null_torch 3 8 = Ok depthwise_3_8 /\
  0 < 8 /\
  0 < height (blank 3 4 4) /\ 0 < width (blank 3 4 4) /\
  match @forward null_torch (Sequential depthwise_3_8) (blank 3 4 4) with
  | Ok y => channels (blank 3 4 4) = 3 /\
            shape y = (8, height (blank 3 4 4), width (blank 3 4 4))
  | Raise e => channels (blank 3 4 4) <> 3 /\ e = RuntimeError
  end.
Proof.
  split; [reflexivity|]. split; [reflexivity|]. split; [reflexivity|].
  split; [reflexivity|].
  apply (@depthwise_forward null_torch 3 8 depthwise_3_8 (blank 3 4 4)); reflexivity.
Defined.

(** X3 at [conv3x3(3, 8)] on a feature map with five channels. *)
Lemma conv3x3_forward_witness :
  @conv3x3 null_torch 3 8 = Ok [Conv2d 3 8 3 1 1 [] (Some [])] /\
  0 < 3 /\ 0 < 8 /\
  0 < height (blank 5 4 4) /\ 0 < width (blank 5 4 4) /\
  length [Conv2d 3 8 3 1 1 [] (Some [])] = 1%nat /\
  match @forward null_torch (Sequential [Conv2d 3 8 3 1 1 [] (Some [])]) (blank 5 4 4) with
  | Ok y => channels (blank 5 4 4) = 3 /\
            shape y = (8, height (blank 5 4 4), width (blank 5 4 4))
  | Raise e => channels (blank 5 4 4) <> 3 /\ e = RuntimeError
  end.
Proof.
  split; [reflexivity|]. split; [reflexivity|]. split; [reflexivity|].
  split; [reflexivity|]. split; [reflexivity|].
  apply (@conv3x3_forward null_torch 3 8 _ (blank 5 4 4)); reflexivity.
Defined.

(** X7 at one channel count for three levels. *)
Lemma short_in_channels_raise_witness :
  Forall (fun c => 0 <= c) [40] /\ 0 <= 64 /\
  len [40] + Z.max 0 (3 - len [3; 4; 5]) < len [3; 4; 5] /\
  @BiFPN.__init__ null_torch [40] 64 1 3 [3; 4; 5] = Raise IndexError.
Proof.
  assert (Hnn : Forall (fun c => 0 <= c) [40]) by (repeat constructor; lia).
  split; [exact Hnn|]. split; [lia|]. split; [reflexivity|].
  apply (@short_in_channels_raise null_torch [40] [3; 4; 5] 64 1 3);
    [exact Hnn | lia | reflexivity].
Defined.

(** ** The weights of a node *)

Section Weights.
Context `{Torch}.

Lemma Qsum_relu_ones (n : nat) :
  (Qsum (map relu (replicate n 1%Q)) == inject_Z (Z.of_nat n))%Q.
Proof.
  induction n as [|n IH]; [reflexivity|].
  cbn [replicate map Qsum fold_right]. fold (Qsum (map relu (replicate n 1%Q))).
  rewrite IH, Nat2Z.inj_succ, <- Z.add_1_r, inject_Z_plus.
  change (relu 1) with 1%Q. change (inject_Z 1) with 1%Q. ring.
Qed.

Lemma Qsum_zip_ones (n : nat) (xs : list Q) :
  (length xs <= n)%nat ->
  (Qsum (zip_with (fun w x => relu w * x) (replicate n 1%Q) xs) == Qsum xs)%Q.
Proof.
  revert n. induction xs as [|x xs IH]; intros n Hn.
  - destruct n; reflexivity.
  - destruct n as [|n]; [simpl in Hn; lia|]. simpl in Hn.
    cbn [replicate zip_with Qsum fold_right].
    fold (Qsum (zip_with (fun w x => relu w * x)%Q (replicate n 1%Q) xs)).
    fold (Qsum xs). rewrite IH by lia. change (relu 1) with 1%Q. ring.
Qed.

(** X20.  A node as constructed has all its weights at 1, so what it
    computes from n inputs of one shape is, element by element, their sum
    over n * 1.0001: their mean, scaled by 1/1.0001. *)
Theorem fresh_node_averages (param : node_param) (index_offset channels : Z)
        (levels_in : odict Z) (self : CombineLevels.t) (nodes : odict Tensor)
        (t : Tensor) (ts : list Tensor) :
  CombineLevels.__init__ param index_offset channels levels_in = Ok self ->
  mapM (od_item nodes) (CombineLevels.offsets self) = Ok (t :: ts) ->
  uniform (t :: ts) = true ->
  exists out,
    CombineLevels.combine_nodes self nodes = Ok out /\
    shape out = shape t /\
    forall p, (p < length (data t))%nat ->
      (nth p (data out) 0
       == Qsum (elements_at p (t :: ts))
          / (inject_Z (len (t :: ts)) * (10001 # 10000)))%Q.
Proof.
  intros Hinit Hin Huni.
  destruct (init_node_inv _ _ _ _ _ Hinit) as (_ & Hlen & _).
  destruct (combine_nodes_ok self nodes t ts Hlen Hin Huni)
    as (out & Hout & Hshape & _ & Hnth).
  exists out. split; [exact Hout|]. split; [exact Hshape|].
  intros p Hp. rewrite (Hnth p Hp), (denominator_eq self).
  pose proof (mapM_length _ _ _ Hin) as Hn.
  unfold CombineLevels.__init__ in Hinit.
  apply rbind_ok in Hinit as (lat & _ & [= <-]). cbn [CombineLevels.weights
    CombineLevels.eps CombineLevels.offsets] in *.
  rewrite Qsum_relu_ones, Qsum_zip_ones
    by (unfold elements_at; rewrite length_map; lia).
  unfold len. rewrite length_replicate, <- Hn.
  apply Qdiv_comp; [reflexivity|]. ring_simplify.
  change (1 # 10000)%Q with ((10001 # 10000) - 1)%Q. ring.
Qed.

End Weights.

(** X20 at a node with two inputs. *)
Lemma fresh_node_averages_witness :
  @CombineLevels.__init__ null_torch (mk_node_param 6 [3; 4] true) (-3) 64 []
  = Ok combine_01 /\
  mapM (od_item gathered_01) (CombineLevels.offsets combine_01) = Ok inputs_01 /\
  uniform inputs_01 = true /\
  exists out,
    CombineLevels.combine_nodes combine_01 gathered_01 = Ok out /\
    shape out = shape (mkTensor 1 2 2 [1%Q; 2%Q; 3%Q; 4%Q]) /\
    forall p, (p < length (data (mkTensor 1 2 2 [1%Q; 2%Q; 3%Q; 4%Q])))%nat ->
      (nth p (data out) 0
       == Qsum (elements_at p inputs_01)
          / (inject_Z (len inputs_01) * (10001 # 10000)))%Q.
Proof.
  split; [reflexivity|]. split; [reflexivity|]. split; [reflexivity|].
  apply (@fresh_node_averages null_torch (mk_node_param 6 [3; 4] true) (-3) 64 []
           combine_01 gathered_01); reflexivity.
Defined.

(** ** What a node reads, and keys that are taken *)

Section Locality.
Context `{Torch}.

Lemma gather_step_skip (self : CombineLevels.t) (x nodes : odict Tensor) (k : Z) :
  reads_key self k = false -> CombineLevels.gather_step self x nodes k = Ok nodes.
Proof.
  unfold reads_key, CombineLevels.gather_step.
  intros [Hin Hlat]%orb_false_iff. rewrite Hin, Hlat. reflexivity.
Qed.

Lemma gather_loop_filter (self : CombineLevels.t) (x : odict Tensor) :
  forall (ks : list Z) (nodes : odict Tensor),
    foldM (CombineLevels.gather_step self x) ks nodes
    = foldM (CombineLevels.gather_step self x) (List.filter (reads_key self) ks) nodes.
Proof.
  induction ks as [|k ks IH]; intros nodes; simpl; [reflexivity|].
  destruct (reads_key self k) eqn:Ek; simpl.
  - destruct (CombineLevels.gather_step self x nodes k); simpl; auto.
  - rewrite (gather_step_skip self x nodes k Ek). simpl. apply IH.
Qed.

Lemma foldM_ext_in {A S : Type} (f g : S -> A -> result S) (l : list A) (s : S) :
  (forall s a, In a l -> f s a = g s a) -> foldM f l s = foldM g l s.
Proof.
  revert s. induction l as [|a l IH]; intros s Hfg; simpl; [reflexivity|].
  rewrite (Hfg s a) by now left.
  destruct (g s a); simpl; [|reflexivity]. apply IH. intros s' a' Hin. apply Hfg. now right.
Qed.

Lemma gather_step_agree (self : CombineLevels.t) (x x' nodes : odict Tensor) (k : Z) :
  od_get x k = od_get x' k ->
  CombineLevels.gather_step self x nodes k = CombineLevels.gather_step self x' nodes k.
Proof. intros Hk. unfold CombineLevels.gather_step, od_item. now rewrite Hk. Qed.

Lemma reads_key_spec (self : CombineLevels.t) (k : Z) :
  reads_key self k = true <->
  In k (CombineLevels.offsets self) \/ CombineLevels.lateral_node self = Some k.
Proof.
  unfold reads_key. rewrite orb_true_iff, py_in_In.
  destruct (CombineLevels.lateral_node self) as [l|].
  - split; (intros [Hin|Hl]; [now left | right]).
    + apply Z.eqb_eq in Hl. now subst.
    + injection Hl as ->. apply Z.eqb_refl.
  - split; (intros [Hin|Hl]; [now left | discriminate]).
Qed.

(** X19.  [CombineLevels.__call__] reads only the entries at its offsets
    (and at its lateral node): two mappings that agree there give the
    same result, whatever else they hold and in whatever order. *)
Theorem node_reads_only_offsets (self : CombineLevels.t) (x x' : odict Tensor) :
  List.NoDup (od_keys x) -> List.NoDup (od_keys x') ->
  (forall k, In k (CombineLevels.offsets self) \/ CombineLevels.lateral_node self = Some k ->
             od_get x k = od_get x' k) ->
  CombineLevels.__call__ self x = CombineLevels.__call__ self x'.
Proof.
  intros Hnd Hnd' Hagree.
  assert (Hperm : Permutation (List.filter (reads_key self) (od_keys x))
                              (List.filter (reads_key self) (od_keys x'))).
  { apply Permutation.NoDup_Permutation; try (apply List.NoDup_filter; assumption).
    intros k. rewrite !filter_In. split; intros [Hin Hr]; (split; [|exact Hr]).
    - destruct (in_dec Z.eq_dec k (od_keys x')) as [Hk|Hk]; [exact Hk|].
      apply od_get_None_keys in Hk. rewrite <- Hagree in Hk by now apply reads_key_spec.
      apply od_get_None_keys in Hk. contradiction.
    - destruct (in_dec Z.eq_dec k (od_keys x)) as [Hk|Hk]; [exact Hk|].
      apply od_get_None_keys in Hk. rewrite Hagree in Hk by now apply reads_key_spec.
      apply od_get_None_keys in Hk. contradiction. }
  assert (Hloop : same_outcome
            (foldM (CombineLevels.gather_step self x) (od_keys x) [])
            (foldM (CombineLevels.gather_step self x') (od_keys x') [])).
  { rewrite (gather_loop_filter self x), (gather_loop_filter self x').
    rewrite <- (foldM_ext_in (CombineLevels.gather_step self x)
                             (CombineLevels.gather_step self x')).
    - apply gather_loop_perm; [exact Hperm | | | easy].
      + apply List.Forall_forall. intros k [Hk _]%filter_In E.
        now apply od_get_None_keys in E.
      + now apply List.NoDup_filter.
    - intros nodes k [_ Hr]%filter_In. apply gather_step_agree.
      apply Hagree. now apply reads_key_spec. }
  unfold CombineLevels.__call__, CombineLevels.gather_nodes, od_item.
  destruct (foldM (CombineLevels.gather_step self x) (od_keys x) []) as [n1|e1],
           (foldM (CombineLevels.gather_step self x') (od_keys x') []) as [n2|e2];
    simpl in Hloop; try tauto; [|now subst]. cbn [rbind].
  destruct (py_max (CombineLevels.offsets self)) as [m|e] eqn:Emax; [|reflexivity].
  cbn [rbind]. rewrite <- (Hagree m) by (left; now apply py_max_In).
  destruct (od_get x m) as [xm|]; [|reflexivity]. cbn [rbind].
  destruct (forward (CombineLevels.resample self) xm) as [y|e]; [|reflexivity].
  cbn [rbind]. apply combine_nodes_same. now apply same_entries_set.
Qed.

End Locality.

Section Overwrite.
Context `{Torch}.

Lemma od_keys_set_present {V : Type} (d : odict V) (k : Z) (v : V) :
  od_get d k <> None -> od_keys (od_set d k v) = od_keys d.
Proof.
  induction d as [|[k' v'] d IH]; simpl; [congruence|].
  destruct (Z.eqb_spec k' k) as [->|Hne]; simpl; [reflexivity|].
  intros Hk. now rewrite IH.
Qed.

(** A step that writes under the key after the last one, which is taken. *)
Lemma overwrite_step (d : odict Tensor) (ks : list Z) (z : Tensor) (last : Z * Tensor) :
  od_keys d = ks ->
  (exists k, List.last ks 0 = k /\ ks <> [] /\ In (k + 1) ks) ->
  od_last_item d = Ok last ->
  od_keys (od_set d (fst last + 1) z) = ks.
Proof.
  intros Hks (k & Hk & Hne & Hin) Hlast.
  rewrite <- Hks. apply od_keys_set_present.
  apply od_last_item_ok in Hlast as [d' ->].
  assert (Hkey : k = fst last).
  { rewrite <- Hk, <- Hks. unfold od_keys. rewrite map_app. simpl.
    now rewrite List.last_last. }
  rewrite Hkey in Hin. intros Hnone. apply od_get_None_keys in Hnone.
  rewrite Hks in Hnone. contradiction.
Qed.

Lemma loop_pure_keys {A : Type} (body : A -> odict Tensor -> result (odict Tensor))
      (ks : list Z) :
  (forall a d d', od_keys d = ks -> body a d = Ok d' -> od_keys d' = ks) ->
  forall (xs : list A) (d : odict Tensor),
    od_keys d = ks -> od_keys (fst (loop_pure body xs d)) = ks.
Proof.
  intros Hbody xs. induction xs as [|a xs IH]; intros d Hd; simpl; [exact Hd|].
  destruct (body a d) as [d'|e] eqn:E; [|exact Hd].
  apply IH. exact (Hbody a d d' Hd E).
Qed.

Lemma call_pure_keys (self : BiFPN.t) (d : odict Tensor) (k : Z) (v : Tensor) :
  od_last_item d = Ok (k, v) -> od_get d (k + 1) <> None ->
  od_keys (fst (call_pure self d)) = od_keys d.
Proof.
  intros Hlast Hnext.
  assert (Hks : exists k0, List.last (od_keys d) 0 = k0 /\ od_keys d <> [] /\
                           In (k0 + 1) (od_keys d)).
  { exists k. apply od_last_item_ok in Hlast as [d' ->]. split; [|split].
    - unfold od_keys. rewrite map_app. simpl. now rewrite List.last_last.
    - unfold od_keys. rewrite map_app. simpl. now destruct (map fst d').
    - destruct (in_dec Z.eq_dec (k + 1) (od_keys (d' ++ [(k, v)]))) as [Hin|Hin];
        [exact Hin|]. apply od_get_None_keys in Hin. contradiction. }
  set (ks := od_keys d) in *.
  assert (Hdown : forall layer d1 d2,
             od_keys d1 = ks -> downsample_pure layer d1 = Ok d2 -> od_keys d2 = ks).
  { intros layer d1 d2 Hd1. unfold downsample_pure.
    intros (top & Htop & Hs)%rbind_ok. apply rbind_ok in Hs as (y & _ & [= <-]).
    now apply overwrite_step. }
  assert (Hnode : forall cp d1 d2,
             od_keys d1 = ks -> node_pure cp d1 = Ok d2 -> od_keys d2 = ks).
  { intros cp d1 d2 Hd1. unfold node_pure.
    intros (top & Htop & Hs)%rbind_ok. apply rbind_ok in Hs as (y & _ & Hs).
    apply rbind_ok in Hs as (z & _ & [= <-]). now apply overwrite_step. }
  unfold call_pure. destruct (BiFPN.downsample_convs self) as [layers|]; [|reflexivity].
  pose proof (loop_pure_keys downsample_pure ks Hdown layers d eq_refl) as H1.
  destruct (loop_pure downsample_pure layers d) as [d1 [e|]]; simpl in H1; [exact H1|].
  destruct (map snd (BiFPN.bifp_layers self)) as [|b blocks]; simpl; [exact H1|].
  assert (Hb : od_keys (fst (block_pure b d1)) = ks).
  { unfold block_pure. destruct (od_first_key d1); [|exact H1].
    pose proof (loop_pure_keys node_pure ks Hnode
                  (zip (map snd (BiFPNBlock.combines b))
                       (map snd (BiFPNBlock.post_combines b))) d1 H1) as H2.
    destruct (loop_pure node_pure _ d1) as [d2 [e|]]; exact H2. }
  destruct (block_pure b d1) as [d2 [out|e]]; exact Hb.
Qed.

(** X12.  New entries are written under the last key plus one (source
    lines 136 and 205).  When that key is already in the caller's mapping,
    as happens when its keys are not ascending, the forward call never
    extends the caller's mapping: the layers of the expander and the nodes
    of the first block all overwrite entries that are there, and the keys
    of the mapping are afterwards what they were, whether the call returns
    or raises. *)
Theorem forward_overwrites_taken_key (self : BiFPN.t) (l : loc) (s : heap)
        (d : odict Tensor) (k : Z) (v : Tensor) :
  s !! l = Some d ->
  od_last_item d = Ok (k, v) ->
  od_get d (k + 1) <> None ->
  match BiFPN.__call__ self l s with
  | Return _ s' | Throw _ s' =>
      exists d', s' !! l = Some d' /\ od_keys d' = od_keys d
  end.
Proof.
  intros Hl Hlast Hnext.
  pose proof (call_spec self l s d Hl) as Hcall.
  pose proof (call_pure_keys self d k v Hlast Hnext) as Hkeys.
  destruct (BiFPN.__call__ self l s) as [r s'|e s'].
  - destruct Hcall as (out & _ & _ & (Hat & _) & _). eauto.
  - destruct Hcall as (_ & (Hat & _)). eauto.
Qed.

End Overwrite.

Lemma x_01_more_keys : List.NoDup (od_keys (x_01 ++ [(7, blank 1 1 1)])).
Proof. repeat constructor; simpl; intuition discriminate. Qed.

Lemma x_01_agree (k : Z) :
  In k (CombineLevels.offsets combine_01) \/ CombineLevels.lateral_node combine_01 = Some k ->
  od_get x_01 k = od_get (x_01 ++ [(7, blank 1 1 1)]) k.
Proof. intros [[<-|[<-|[]]]|Hl]; [reflexivity | reflexivity | discriminate]. Qed.

(** X19 at a node with offsets 0 and 1, on a mapping and on the same
    mapping with a further level 7. *)
Lemma node_reads_only_offsets_witness :
  List.NoDup (od_keys x_01) /\
  List.NoDup (od_keys (x_01 ++ [(7, blank 1 1 1)])) /\
  (forall k, In k (CombineLevels.offsets combine_01) \/
             CombineLevels.lateral_node combine_01 = Some k ->
             od_get x_01 k = od_get (x_01 ++ [(7, blank 1 1 1)]) k) /\
  @CombineLevels.__call__ demo_torch combine_01 x_01
  = @CombineLevels.__call__ demo_torch combine_01 (x_01 ++ [(7, blank 1 1 1)]).
Proof.
  split; [exact x_01_keys|]. split; [exact x_01_more_keys|]. split; [exact x_01_agree|].
  apply (@node_reads_only_offsets demo_torch combine_01 x_01 (x_01 ++ [(7, blank 1 1 1)]));
    [exact x_01_keys | exact x_01_more_keys | exact x_01_agree].
Defined.

(** X12 at the model of the scenario, called on levels 5 and 4 in
    descending order. *)
Lemma forward_overwrites_taken_key_witness :
  [input_54] !! 0%nat = Some input_54 /\
  od_last_item input_54 = Ok (4, blank 160 32 32) /\
  od_get input_54 (4 + 1) <> None /\
  match @BiFPN.__call__ null_torch bifpn_345 0%nat [input_54] with
  | Return _ s' | Throw _ s' =>
      exists d', s' !! 0%nat = Some d' /\ od_keys d' = od_keys input_54
  end.
Proof.
  split; [reflexivity|]. split; [reflexivity|]. split; [discriminate|].
  apply (@forward_overwrites_taken_key null_torch bifpn_345 0%nat [input_54] input_54
           4 (blank 160 32 32)); first [reflexivity | discriminate].
Defined.

(** ** The levels a forward call returns *)

Section Levels.
Context `{Torch}.

Lemma is_ascending_shifted_seq (first : Z) (n i : nat) :
  is_ascending (map (fun j => Z.of_nat j + first) (seq i n)) = true.
Proof.
  revert i. induction n as [|n IH]; intros i; [reflexivity|].
  cbn [seq map is_ascending]. specialize (IH (S i)).
  destruct n as [|n]; [reflexivity|].
  cbn [seq map] in *. rewrite IH.
  destruct (Z.ltb_spec (Z.of_nat i + first) (Z.of_nat (S i) + first)); [reflexivity | lia].
Qed.

Lemma od_first_key_app {V : Type} (d extra : odict V) (k : Z) :
  od_first_key d = Ok k -> od_first_key (d ++ extra) = Ok k.
Proof. destruct d as [|[k' v'] d]; simpl; [discriminate | auto]. Qed.

Lemma od_first_key_last {V : Type} (d : odict V) (k : Z) :
  od_first_key d = Ok k -> exists kv, od_last_item d = Ok kv.
Proof.
  intros Hk. apply od_last_item_nonempty. intros ->. discriminate.
Qed.

(** The levels a constructed block returns on a mapping with ascending
    keys. *)
Lemma block_pure_levels (channels num_levels : Z) (channels_in : odict Z)
      (block : BiFPNBlock.t) (d : odict Tensor) (first : Z) :
  BiFPNBlock.__init__ channels num_levels channels_in = Ok block ->
  1 <= num_levels <= len d + 8 ->
  is_ascending (od_keys d) = true ->
  od_first_key d = Ok first ->
  match snd (block_pure block d) with
  | Ok o => od_keys o = map (fun i => i + first) (py_range num_levels)
  | Raise _ => True
  end.
Proof.
  intros Hinit Hh Hasc Hfirst.
  pose proof (block_init_nodes _ _ _ _ Hinit) as Hcount.
  destruct (block_init_structure _ _ _ _ Hinit) as (Hnum & _).
  destruct (od_first_key_last d first Hfirst) as [[klast vlast] Hlast].
  unfold block_pure. rewrite Hfirst.
  destruct (node_loop_appends
              (zip (map snd (BiFPNBlock.combines block))
                   (map snd (BiFPNBlock.post_combines block)))
              d klast vlast Hasc Hlast) as (new & Hfst & _ & Hn).
  rewrite Hcount in Hn.
  destruct (loop_pure node_pure _ d) as [d' [e|]]; simpl in *; [exact I|].
  subst d'. rewrite Hnum.
  destruct (retval_of_last num_levels first (d ++ new)) as [Hv Hk].
  rewrite Hk. f_equal. f_equal.
  apply (f_equal (@length Tensor)) in Hv.
  unfold od_values in Hv. rewrite length_drop, !length_map in Hv.
  unfold len in *. rewrite length_app, Hn in *. lia.
Qed.

Lemma shifted_range_keys (d : odict Tensor) (first num_levels : Z) :
  1 <= num_levels ->
  od_keys d = map (fun i => i + first) (py_range num_levels) ->
  is_ascending (od_keys d) = true /\ od_first_key d = Ok first /\ len d = num_levels.
Proof.
  intros Hh Hkeys. split; [|split].
  - rewrite Hkeys. unfold py_range. rewrite map_map. apply is_ascending_shifted_seq.
  - unfold py_range in Hkeys.
    destruct (Z.to_nat num_levels) as [|m] eqn:Em; [lia|].
    destruct d as [|[k v] d]; [discriminate|]. simpl in Hkeys.
    injection Hkeys as -> _. reflexivity.
  - apply (f_equal (@length Z)) in Hkeys. unfold od_keys, py_range in Hkeys.
    rewrite !length_map, length_seq in Hkeys. unfold len. lia.
Qed.

Lemma blocks_pure_levels (channels num_levels first : Z) :
  forall (blocks : list BiFPNBlock.t) (b : BiFPNBlock.t) (d : odict Tensor),
    Forall (fun b => exists channels_in,
              BiFPNBlock.__init__ channels num_levels channels_in = Ok b) (b :: blocks) ->
    1 <= num_levels <= len d + 8 ->
    is_ascending (od_keys d) = true ->
    od_first_key d = Ok first ->
    match snd (blocks_pure (b :: blocks) d) with
    | Ok o => od_keys o = map (fun i => i + first) (py_range num_levels)
    | Raise _ => True
    end.
Proof.
  induction blocks as [|b' blocks IH]; intros b d Hall Hh Hasc Hfirst;
    inversion Hall as [|? ? (channels_in & Hb) Hall']; subst.
  - pose proof (block_pure_levels _ _ _ b d first Hb Hh Hasc Hfirst) as Hblock.
    simpl. destruct (block_pure b d) as [d1 [o|e]]; simpl in *; [exact Hblock | exact I].
  - pose proof (block_pure_levels _ _ _ b d first Hb Hh Hasc Hfirst) as Hblock.
    cbn [blocks_pure]. destruct (block_pure b d) as [d1 [o|e]]; cbn [snd] in *; [|exact I].
    destruct (shifted_range_keys o first num_levels) as (Hasc' & Hfirst' & Hlen);
      [lia | exact Hblock |].
    apply (IH b' o Hall'); [lia | exact Hasc' | exact Hfirst'].
Qed.

Lemma init_has_blocks (in_channels levels : list Z)
      (out_channels num_bifpns bifpn_height : Z) (self : BiFPN.t) :
  BiFPN.__init__ in_channels out_channels num_bifpns bifpn_height levels = Ok self ->
  1 <= num_bifpns -> BiFPN.bifp_layers self <> [].
Proof.
  unfold BiFPN.__init__. intros (convs & _ & Hinit)%rbind_ok Hn.
  apply rbind_ok in Hinit as (channel_dict & _ & Hinit).
  apply rbind_ok in Hinit as (layers & Hlayers & [= <-]). simpl.
  unfold py_range in Hlayers.
  destruct (Z.to_nat num_bifpns) as [|m] eqn:Em; [lia|].
  cbn [seq map foldM] in Hlayers. apply rbind_ok in Hlayers as (layers1 & Hstep & Hrest).
  apply (foldM_ok_inv (fun ls : list (Z * BiFPNBlock.t) => ls <> [])
           (BiFPN.init_step out_channels bifpn_height levels channel_dict))
    with (l := map Z.of_nat (seq 1 m)) (s := layers1); [| |exact Hrest].
  - intros ls idx ls' Hls. unfold BiFPN.init_step.
    intros (block & _ & [= <-])%rbind_ok.
    destruct ls as [|[n0 b0] ls]; [congruence|]. simpl.
    destruct (decide (n0 = idx)); discriminate.
  - unfold BiFPN.init_step in Hstep. apply rbind_ok in Hstep as (block & _ & [= <-]).
    discriminate.
Qed.

(** X23.  Whenever the forward call of a constructed model with at least
    one block returns, on a mapping with ascending keys, the mapping it
    returns has exactly [bifpn_height] entries, keyed consecutively from
    the first key of the argument, whatever the levels the model was
    configured for (the height being at least 1 and not above what one
    block has to choose from: its argument and its eight nodes). *)
Theorem forward_returns_consecutive_levels (in_channels levels : list Z)
        (out_channels num_bifpns bifpn_height : Z) (self : BiFPN.t)
        (l : loc) (s : heap) (d : odict Tensor) (first : Z) :
  BiFPN.__init__ in_channels out_channels num_bifpns bifpn_height levels = Ok self ->
  1 <= num_bifpns ->
  1 <= bifpn_height <= len d + 8 ->
  s !! l = Some d ->
  is_ascending (od_keys d) = true ->
  od_first_key d = Ok first ->
  match BiFPN.__call__ self l s with
  | Return r s' =>
      exists o, s' !! r = Some o /\ len o = bifpn_height /\
                od_keys o = map (fun i => i + first) (py_range bifpn_height)
  | Throw _ _ => True
  end.
Proof.
  intros Hinit Hn Hh Hl Hasc Hfirst.
  destruct (init_blocks_constructed _ _ _ _ _ _ Hinit) as [_ Hblocks].
  pose proof (init_has_blocks _ _ _ _ _ _ Hinit Hn) as Hne.
  pose proof (call_spec self l s d Hl) as Hcall.
  destruct (BiFPN.__call__ self l s) as [r s'|e s']; [|exact I].
  destruct Hcall as (o & Ho & Hr & _). exists o. split; [exact Hr|].
  unfold call_pure in Ho.
  destruct (BiFPN.downsample_convs self) as [layers|]; [|discriminate Ho].
  destruct (loop_pure_extends downsample_pure downsample_pure_extends layers d Hasc)
    as (Hasc1 & extra & Hext).
  destruct (loop_pure downsample_pure layers d) as [d1 [e|]]; [discriminate Ho|].
  simpl in Hasc1, Hext. subst d1.
  destruct (map snd (BiFPN.bifp_layers self)) as [|b blocks] eqn:Eb.
  { destruct (BiFPN.bifp_layers self); [congruence | discriminate]. }
  pose proof (blocks_pure_levels out_channels bifpn_height first blocks b (d ++ extra)
                Hblocks) as Hlevels.
  rewrite Ho in Hlevels.
  assert (Hkeys : od_keys o = map (fun i => i + first) (py_range bifpn_height)).
  { apply Hlevels; [|exact Hasc1 | now apply od_first_key_app].
    unfold len in *. rewrite length_app. lia. }
  split; [|exact Hkeys].
  now destruct (shifted_range_keys o first bifpn_height) as (_ & _ & Hlen); [lia | |].
Qed.

(** X22.  A model with an expander refuses a mapping whose last feature
    map does not have [in_channels[-1]] channels: the forward call raises
    [RuntimeError] from the projection of the first expander layer and
    leaves the heap as it was. *)
Theorem forward_refuses_wrong_channels (in_channels levels : list Z)
        (out_channels num_bifpns bifpn_height : Z) (self : BiFPN.t)
        (l : loc) (s : heap) (d : odict Tensor) (k c : Z) (t : Tensor) :
  BiFPN.__init__ in_channels out_channels num_bifpns bifpn_height levels = Ok self ->
  bifpn_height <> len levels ->
  s !! l = Some d ->
  od_last_item d = Ok (k, t) ->
  py_index in_channels (-1) = Ok c ->
  channels t <> c ->
  BiFPN.__call__ self l s = Throw RuntimeError s.
Proof.
  intros Hinit Hne Hl Hlast Hc Hwrong.
  destruct (init_expander _ _ _ _ _ _ Hinit Hne) as (c' & wt & b & Hc' & Hconvs).
  assert (c' = c) by congruence. subst c'.
  assert (Hstep : downsample_pure
                    (Sequential [Conv2d c out_channels 1 0 1 wt b; MaxPool2d 3 1 2]) d
                  = Raise RuntimeError).
  { unfold downsample_pure. rewrite Hlast. cbn [rbind fst snd forward].
    fold (forward (Conv2d c out_channels 1 0 1 wt b) t).
    now rewrite forward_conv_mismatch. }
  unfold BiFPN.__call__. rewrite Hconvs.
  unfold bind at 1. unfold ret at 1. unfold bind at 1.
  rewrite (for_each_spec _ downsample_pure l (downsample_step_spec l) _ s d Hl).
  cbn [loop_pure]. rewrite Hstep. now rewrite list_insert_id.
Qed.

End Levels.

(** X23 at the scenario of the specification. *)
Lemma forward_returns_consecutive_levels_witness :
  @BiFPN.__init__ null_torch [40; 80; 160] 64 1 5 [3; 4; 5] = Ok bifpn_345 /\
  1 <= 1 /\ 1 <= 5 <= len input_345 + 8 /\
  [input_345] !! 0%nat = Some input_345 /\
  is_ascending (od_keys input_345) = true /\
  od_first_key input_345 = Ok 3 /\
  match @BiFPN.__call__ null_torch bifpn_345 0%nat [input_345] with
  | Return r s' =>
      exists o, s' !! r = Some o /\ len o = 5 /\
                od_keys o = map (fun i => i + 3) (py_range 5)
  | Throw _ _ => True
  end.
Proof.
  assert (Hh : 1 <= 5 <= len input_345 + 8) by (vm_compute; split; discriminate).
  split; [reflexivity|]. split; [lia|]. split; [exact Hh|]. split; [reflexivity|].
  split; [reflexivity|]. split; [reflexivity|].
  apply (@forward_returns_consecutive_levels null_torch [40; 80; 160] [3; 4; 5] 64 1 5
           bifpn_345 0%nat [input_345] input_345 3);
    first [reflexivity | exact Hh | lia].
Defined.

(** X22 at the model of the scenario, called on level 3 alone. *)
Lemma forward_refuses_wrong_channels_witness :
  @BiFPN.__init__ null_torch [40; 80; 160] 64 1 5 [3; 4; 5] = Ok bifpn_345 /\
  5 <> len [3; 4; 5] /\
  [[(3, blank 40 64 64)]] !! 0%nat = Some [(3, blank 40 64 64)] /\
  od_last_item [(3, blank 40 64 64)] = Ok (3, blank 40 64 64) /\
  py_index [40; 80; 160] (-1) = Ok 160 /\
  channels (blank 40 64 64) <> 160 /\
  @BiFPN.__call__ null_torch bifpn_345 0%nat [[(3, blank 40 64 64)]]
  = Throw RuntimeError [[(3, blank 40 64 64)]].
Proof.
  split; [reflexivity|]. split; [discriminate|]. split; [reflexivity|].
  split; [reflexivity|]. split; [reflexivity|]. split; [discriminate|].
  apply (@forward_refuses_wrong_channels null_torch [40; 80; 160] [3; 4; 5] 64 1 5
           bifpn_345 0%nat [[(3, blank 40 64 64)]] [(3, blank 40 64 64)] 3 160
           (blank 40 64 64));
    first [reflexivity | discriminate].
Defined.

(** ** What a forward call appends to its argument *)

Section Appends.
Context `{Torch}.

(** A loop whose turns each set the key after the last one, on a mapping
    with ascending keys: every turn that succeeds appends one entry. *)
Lemma loop_pure_appends {A : Type}
      (body : A -> odict Tensor -> result (odict Tensor)) :
  (forall a d d' k v, od_last_item d = Ok (k, v) -> body a d = Ok d' ->
                      exists z, d' = od_set d (k + 1) z) ->
  forall (xs : list A) (d : odict Tensor) (klast : Z) (vlast : Tensor),
    is_ascending (od_keys d) = true ->
    od_last_item d = Ok (klast, vlast) ->
    exists new vlast',
      fst (loop_pure body xs d) = d ++ new /\
      od_keys new = map (fun i => klast + 1 + i) (py_range (len new)) /\
      is_ascending (od_keys (d ++ new)) = true /\
      od_last_item (d ++ new) = Ok (klast + len new, vlast') /\
      match snd (loop_pure body xs d) with
      | None => length new = length xs
      | Some _ => (length new < length xs)%nat
      end.
Proof.
  intros Hbody xs. induction xs as [|a xs IH]; intros d klast vlast Hasc Hlast; simpl.
  - exists [], vlast. rewrite app_nil_r. unfold len. simpl. rewrite Z.add_0_r. auto.
  - destruct (body a d) as [d'|e] eqn:Ebody.
    + destruct (Hbody a d d' klast vlast Hlast Ebody) as [z ->].
      destruct (od_set_after_last d klast vlast z Hasc Hlast) as [-> Hasc'].
      destruct (IH (d ++ [(klast + 1, z)]) (klast + 1) z Hasc' (od_last_item_app _ _))
        as (new & vlast' & Hfst & Hkeys & Hasc'' & Hlast' & Hcount).
      exists ((klast + 1, z) :: new), vlast'.
      rewrite <- app_assoc in Hfst, Hasc'', Hlast'. simpl in Hfst, Hasc'', Hlast'.
      split; [exact Hfst|]. split; [|split; [exact Hasc''|split]].
      * rewrite (py_range_len_cons (fun i => klast + 1 + i)). simpl. f_equal; [lia|].
        rewrite Hkeys. apply map_ext. intros i. lia.
      * rewrite Hlast'. unfold len. simpl length. do 2 f_equal. lia.
      * destruct (snd (loop_pure body xs (d ++ [(klast + 1, z)]))); simpl; lia.
    + exists [], vlast. rewrite app_nil_r. unfold len. simpl. rewrite Z.add_0_r.
      repeat split; auto. lia.
Qed.

Lemma downsample_pure_sets (layer : Layer) (d d' : odict Tensor) (k : Z) (v : Tensor) :
  od_last_item d = Ok (k, v) -> downsample_pure layer d = Ok d' ->
  exists z, d' = od_set d (k + 1) z.
Proof.
  intros Hlast. unfold downsample_pure. rewrite Hlast. cbn [rbind fst snd].
  intros (y & _ & [= <-])%rbind_ok. eauto.
Qed.

Lemma node_pure_sets (cp : CombineLevels.t * Layer) (d d' : odict Tensor)
      (k : Z) (v : Tensor) :
  od_last_item d = Ok (k, v) -> node_pure cp d = Ok d' ->
  exists z, d' = od_set d (k + 1) z.
Proof.
  intros Hlast. unfold node_pure. rewrite Hlast. cbn [rbind fst snd].
  intros (y & _ & Hn)%rbind_ok. apply rbind_ok in Hn as (z & _ & [= <-]). eauto.
Qed.

Lemma consecutive_app (k : Z) (n m : nat) :
  map (fun i => k + i) (map Z.of_nat (seq 0 (n + m)))
  = map (fun i => k + i) (map Z.of_nat (seq 0 n))
    ++ map (fun i => k + Z.of_nat n + i) (map Z.of_nat (seq 0 m)).
Proof.
  induction m as [|m IH].
  - rewrite Nat.add_0_r. simpl. now rewrite app_nil_r.
  - rewrite Nat.add_succ_r, !seq_S, !map_app, IH, <- app_assoc.
    do 2 f_equal. simpl. f_equal. lia.
Qed.

Lemma appended_after_nil (d : odict Tensor) : appended_after d [].
Proof. unfold appended_after. now destruct (od_last_item d). Qed.

(** What the nodes of a first block append. *)
Lemma blocks_pure_appends (channels num_levels : Z) (blocks : list BiFPNBlock.t)
      (d : odict Tensor) (klast : Z) (vlast : Tensor) :
  Forall (fun b => exists channels_in,
            BiFPNBlock.__init__ channels num_levels channels_in = Ok b) blocks ->
  is_ascending (od_keys d) = true ->
  od_last_item d = Ok (klast, vlast) ->
  exists new,
    fst (blocks_pure blocks d) = d ++ new /\
    od_keys new = map (fun i => klast + 1 + i) (py_range (len new)) /\
    match snd (blocks_pure blocks d) with
    | Ok _ => len new = match blocks with [] => 0 | _ :: _ => 8 end
    | Raise _ => len new <= match blocks with [] => 0 | _ :: _ => 8 end
    end.
Proof.
  intros Hall Hasc Hlast. destruct blocks as [|b blocks]; simpl.
  - exists []. rewrite app_nil_r. auto.
  - inversion Hall as [|? ? (channels_in & Hb) _]; subst.
    pose proof (block_init_nodes _ _ _ _ Hb) as Hcount.
    unfold block_pure.
    destruct (od_first_key d) as [first|e]; simpl.
    + destruct (loop_pure_appends node_pure node_pure_sets
                  (zip (map snd (BiFPNBlock.combines b))
                       (map snd (BiFPNBlock.post_combines b)))
                  d klast vlast Hasc Hlast)
        as (new & _ & Hfst & Hkeys & _ & _ & Hn).
      rewrite Hcount in Hn.
      destruct (loop_pure node_pure _ d) as [d1 [e|]]; simpl in *; subst d1;
        exists new; (split; [reflexivity|]); (split; [exact Hkeys|]).
      * unfold len. lia.
      * destruct (snd (blocks_pure blocks _)); unfold len; lia.
    + exists []. rewrite app_nil_r. split; [reflexivity|]. split; [reflexivity|].
      unfold len. simpl. lia.
Qed.

(** What a forward call leaves in its argument. *)
Lemma call_pure_appends (in_channels levels : list Z)
      (out_channels num_bifpns bifpn_height : Z) (self : BiFPN.t) (d : odict Tensor) :
  BiFPN.__init__ in_channels out_channels num_bifpns bifpn_height levels = Ok self ->
  is_ascending (od_keys d) = true ->
  exists extra,
    fst (call_pure self d) = d ++ extra /\
    appended_after d extra /\
    match snd (call_pure self d) with
    | Ok _ => len extra = Z.max 1 (bifpn_height - len levels)
                          + (if 0 <? num_bifpns then 8 else 0)
    | Raise _ => len extra <= Z.max 1 (bifpn_height - len levels)
                              + (if 0 <? num_bifpns then 8 else 0)
    end.
Proof.
  intros Hinit Hasc.
  assert (Hbound : 0 <= Z.max 1 (bifpn_height - len levels)
                        + (if 0 <? num_bifpns then 8 else 0)).
  { destruct (0 <? num_bifpns); lia. }
  destruct (init_blocks_constructed _ _ _ _ _ _ Hinit) as [Hconvs Hblocks].
  destruct (Z.eq_dec bifpn_height (len levels)) as [E|E].
  { unfold BiFPN.init_downsample_convs in Hconvs.
    rewrite (proj2 (Z.eqb_eq _ _) E) in Hconvs. injection Hconvs as Hconvs.
    unfold call_pure. rewrite <- Hconvs. simpl.
    exists []. rewrite app_nil_r. split; [reflexivity|].
    split; [apply appended_after_nil | exact Hbound]. }
  destruct (init_expander _ _ _ _ _ _ Hinit E) as (c & wt & b & _ & Hlayers).
  unfold call_pure. rewrite Hlayers.
  set (layers := Sequential [Conv2d c out_channels 1 0 1 wt b; MaxPool2d 3 1 2]
                 :: replicate (Z.to_nat (bifpn_height - len levels - 1)) (MaxPool2d 3 1 2)).
  assert (Hlen : Z.of_nat (length layers) = Z.max 1 (bifpn_height - len levels)).
  { unfold layers. simpl length. rewrite length_replicate. lia. }
  destruct (od_last_item d) as [[klast vlast]|e] eqn:Hlast.
  - destruct (loop_pure_appends downsample_pure downsample_pure_sets layers
                d klast vlast Hasc Hlast)
      as (new1 & vlast1 & Hfst1 & Hkeys1 & Hasc1 & Hlast1 & Hn1).
    destruct (loop_pure downsample_pure layers d) as [d1 [e|]];
      cbn [fst snd] in Hfst1, Hn1; subst d1.
    + exists new1. split; [reflexivity|]. split.
      * unfold appended_after. rewrite Hlast. exact Hkeys1.
      * simpl. unfold len in *. destruct (0 <? num_bifpns); lia.
    + destruct (blocks_pure_appends out_channels bifpn_height
                  (map snd (BiFPN.bifp_layers self)) (d ++ new1) _ _
                  Hblocks Hasc1 Hlast1) as (new2 & Hfst2 & Hkeys2 & Hn2).
      exists (new1 ++ new2). rewrite app_assoc. split; [exact Hfst2|]. split.
      * unfold appended_after. rewrite Hlast. cbn [fst].
        unfold od_keys in *. rewrite map_app, Hkeys1, Hkeys2, !py_range_len.
        rewrite length_app, (consecutive_app (klast + 1)). f_equal.
        apply map_ext. intros i. unfold len. lia.
      * assert (Hblocks_n : match map snd (BiFPN.bifp_layers self) with
                            | [] => 0 | _ :: _ => 8 end
                            = if 0 <? num_bifpns then 8 else 0).
        { destruct (Z.ltb_spec 0 num_bifpns) as [Hn|Hn].
          - pose proof (init_has_blocks _ _ _ _ _ _ Hinit ltac:(lia)) as Hne.
            destruct (BiFPN.bifp_layers self); [congruence | reflexivity].
          - now rewrite (init_no_blocks _ _ _ _ _ _ Hinit Hn). }
        rewrite Hblocks_n in Hn2.
        assert (Hsum : len (new1 ++ new2) = len new1 + len new2).
        { unfold len. rewrite length_app. lia. }
        rewrite Hsum. clearbody layers. unfold len in *.
        destruct (snd (blocks_pure _ (d ++ new1))); lia.
  - assert (d = []) as ->.
    { unfold od_last_item in Hlast. destruct (last d) eqn:El; [discriminate|].
      now apply last_None in El. }
    exists []. split; [reflexivity|]. split; [reflexivity|]. simpl. exact Hbound.
Qed.

(** C3, as amended.  A forward call works on the caller's mapping in
    place.  When the keys of the argument are in ascending order, a call
    of a constructed model that returns has appended to it
    [max(1, bifpn_height - len(levels))] synthesized levels and, if the
    model has a block, the eight nodes of its first block, under the
    keys that follow the last key of the argument, one after the other;
    a call that raises has appended at most as many, under such keys.
    Every entry that was there keeps its key, its feature map and its
    position.  No other mapping of the heap is changed; with at least one
    block the mapping returned is a new object, and without a block it is
    the argument itself. *)
Theorem forward_extends_argument (in_channels levels : list Z)
        (out_channels num_bifpns bifpn_height : Z) (self : BiFPN.t)
        (l : loc) (s : heap) (d : odict Tensor) :
  BiFPN.__init__ in_channels out_channels num_bifpns bifpn_height levels = Ok self ->
  s !! l = Some d ->
  is_ascending (od_keys d) = true ->
  match BiFPN.__call__ self l s with
  | Return r s' =>
      (exists extra,
         s' !! l = Some (d ++ extra) /\
         appended_after d extra /\
         len extra = Z.max 1 (bifpn_height - len levels)
                     + (if 0 <? num_bifpns then 8 else 0)) /\
      (forall l', (l' < length s)%nat -> l' <> l -> s' !! l' = s !! l') /\
      (0 < num_bifpns -> (length s <= r)%nat /\ r <> l) /\
      (num_bifpns <= 0 -> r = l)
  | Throw e s' =>
      (exists extra,
         s' !! l = Some (d ++ extra) /\
         appended_after d extra /\
         len extra <= Z.max 1 (bifpn_height - len levels)
                      + (if 0 <? num_bifpns then 8 else 0)) /\
      (forall l', (l' < length s)%nat -> l' <> l -> s' !! l' = s !! l')
  end.
Proof.
  intros Hinit Hl Hasc. pose proof (lookup_lt_Some _ _ _ Hl) as Hlt.
  pose proof (call_spec self l s d Hl) as Hcall.
  destruct (call_pure_appends _ _ _ _ _ _ d Hinit Hasc) as (extra & Hext & Hkeys & Hn).
  destruct (BiFPN.__call__ self l s) as [r s'|e s'].
  - destruct Hcall as (out & Hout & _ & (Hat & _ & Hframe) & Hsame & Hfresh).
    rewrite Hout in Hn.
    split; [exists extra; split; [congruence | auto]|]. split; [exact Hframe|]. split.
    + intros Hpos.
      pose proof (init_has_blocks _ _ _ _ _ _ Hinit ltac:(lia)) as Hne.
      specialize (Hfresh Hne). lia.
    + intros Hnone. apply Hsame. exact (init_no_blocks _ _ _ _ _ _ Hinit Hnone).
  - destruct Hcall as (Hraise & (Hat & _ & Hframe)). rewrite Hraise in Hn.
    split; [exists extra; split; [congruence | auto] | exact Hframe].
Qed.

End Appends.

(** C3 as stated fails: in the scenario of the specification the caller's
    mapping holds thirteen entries after the call, not three. *)
Lemma forward_mutates_argument :
  exists r s' d',
    @BiFPN.__call__ null_torch bifpn_345 0%nat [input_345] = Return r s' /\
    s' !! 0%nat = Some d' /\
    od_keys d' = [3; 4; 5; 6; 7; 8; 9; 10; 11; 12; 13; 14; 15] /\
    od_keys d' <> od_keys input_345.
Proof.
  vm_compute. do 3 eexists. split; [reflexivity|]. split; [reflexivity|].
  split; [reflexivity | discriminate].
Qed.

(** The amended C3 at the scenario of the specification: the call
    returns, and the caller's mapping has gained the two synthesized
    levels and the eight nodes of the block. *)
Lemma forward_extends_argument_witness :
  @BiFPN.__init__ null_torch [40; 80; 160] 64 1 5 [3; 4; 5] = Ok bifpn_345 /\
  [input_345] !! 0%nat = Some input_345 /\
  is_ascending (od_keys input_345) = true /\
  match @BiFPN.__call__ null_torch bifpn_345 0%nat [input_345] with
  | Return r s' =>
      (exists extra,
         s' !! 0%nat = Some (input_345 ++ extra) /\
         appended_after input_345 extra /\
         len extra = Z.max 1 (5 - len [3; 4; 5]) + (if 0 <? 1 then 8 else 0)) /\
      (forall l', (l' < length [input_345])%nat -> l' <> 0%nat ->
                  s' !! l' = [input_345] !! l') /\
      (0 < 1 -> (length [input_345] <= r)%nat /\ r <> 0%nat) /\
      (1 <= 0 -> r = 0%nat)
  | Throw e s' =>
      (exists extra,
         s' !! 0%nat = Some (input_345 ++ extra) /\
         appended_after input_345 extra /\
         len extra <= Z.max 1 (5 - len [3; 4; 5]) + (if 0 <? 1 then 8 else 0)) /\
      (forall l', (l' < length [input_345])%nat -> l' <> 0%nat ->
                  s' !! l' = [input_345] !! l')
  end.
Proof.
  split; [reflexivity|]. split; [reflexivity|]. split; [reflexivity|].
  apply (@forward_extends_argument null_torch [40; 80; 160] [3; 4; 5] 64 1 5 bifpn_345
           0%nat [input_345] input_345); reflexivity.
Defined.
